(** * DouPinPin v2 — the bead-pattern quantization core

    A shallow embedding of [src/core/color_utils.ts] (colour science, palette
    parsing, nearest-colour matching) and of [PerlerBeadGenerator.generate]
    (corner flood fill, the four down-sampling strategies), followed by the
    properties the design document states about them. Around this core the
    file also embeds what the core hands its grid to and what drives it: the
    bead statistics of [drawPattern] ([draw_utils.ts]), the colour selection
    of [App.tsx], the hash of [getBrowserFingerprint] ([fingerprint.ts]) and
    the licence routes of the server. The file has four parts: the program,
    the vocabulary of the properties, the properties with their proofs, and
    the properties on sample inputs.

    Conventions of the embedding
    - a JavaScript [number] that carries colour data is a binary64 float
      ([PrimFloat]); [Math.sqrt], [+], [-], [*], [/] and the comparisons are
      the IEEE operations of the kernel;
    - [Math.pow] is implementation-approximated in ECMAScript, so it is a
      parameter of the development ([Math_pow]);
    - grid and buffer coordinates, sizes and counters are integers ([Z]);
      the block sizes [procW / targetW] and [procH / targetH] and the block
      edges computed from them are quotients of such integers, exact in
      binary64, and are rationals ([Q]) with [Math.floor] as [Qfloor];
    - the merge engine ([mergeRegion], [autoMerge]) is called by [App.tsx]
      and defined in none of the sources at hand: it is modelled from the
      design document, and says so at each definition;
    - a JavaScript string is its list of UTF-16 code units;
    - a typed array is a list, read and written by index, where a read out of
      range gives [undefined] and a write out of range is dropped;
    - a [Map] is the list of its entries in insertion order;
    - where the design document states a property in notions of its own
      (the colour of a pixel and its distance to white, the pixels joined
      to a corner, the neighbours of a cell, a channel clamped to a range,
      the nearest entry of a palette), these are defined in the vocabulary
      apart from the program and the property compares the program with
      them;
    - the 32-bit hash of the fingerprint is an integer with its wrap-around
      written out ([ToInt32]);
    - a table of the licence database is the list of its rows, holding text
      as SQLite keeps it (UTF-8, so a lone surrogate comes back as U+FFFD),
      and a handler of the server is a function from the database and the
      request to the database and the response, where the model covers the
      request. *)

From Stdlib Require Import ZArith QArith Qround List Lia Bool.
From Stdlib Require Import Floats.
From Stdlib Require Import Sorted.
From Stdlib.Strings Require Byte Ascii String.
Import String.StringSyntax.
Delimit Scope string_scope with string.
From stdpp Require Import base list.
Import ListNotations.

#[local] Set Warnings "-inexact-float".
Local Open Scope Z_scope.

(* ================================================================== *)
(** * JavaScript values *)
(* ================================================================== *)

(** ** Numbers *)

(** An integer counter or byte read as a [number]; exact below [2^53]. *)
Definition Z2F (z : Z) : float :=
  if z <? 0 then (- PrimFloat.of_uint63 (Uint63.of_Z (- z)))%float
  else PrimFloat.of_uint63 (Uint63.of_Z z).

Definition is_neg_zero (x : float) : bool :=
  match PrimFloat.classify x with
  | NZero => true
  | _ => false
  end.

(** [Math.max(a, b)]: [NaN] if either is, and [+0] is larger than [-0]. *)
Definition Math_max (a b : float) : float :=
  if PrimFloat.is_nan a || PrimFloat.is_nan b then nan
  else if (a <? b)%float then b
  else if (b <? a)%float then a
  else if is_neg_zero a then b else a.

(** [Math.min(a, b)]: [NaN] if either is, and [-0] is smaller than [+0]. *)
Definition Math_min (a b : float) : float :=
  if PrimFloat.is_nan a || PrimFloat.is_nan b then nan
  else if (a <? b)%float then a
  else if (b <? a)%float then b
  else if is_neg_zero a then a else b.

Definition Math_sqrt (x : float) : float := PrimFloat.sqrt x.
Definition Math_abs (x : float) : float := PrimFloat.abs x.

(** [Math.round(x)]: the integer nearest to [x], ties towards [+Infinity];
    the sign of a zero result is the sign of [x]. Computed exactly on the
    mantissa and exponent of [x]. *)
Definition Math_round (x : float) : float :=
  match Prim2SF x with
  | S754_finite s m e =>
      if 0 <=? e then x
      else
        let den := 2 ^ (- e) in
        let n := if s then Z.neg m else Z.pos m in
        let q := (2 * n + den) / (2 * den) in
        if q =? 0 then (if s then (-0)%float else 0%float) else Z2F q
  | _ => x
  end.

(** The channel clamp [Math.min(255, Math.max(0, v))]. *)
Definition clamp255 (v : float) : float := Math_min 255 (Math_max 0 v).

(** ** Strings *)

(** A string is the list of its UTF-16 code units, which is what [length],
    [startsWith], [split], [trim] and the regular expression see. *)
Definition char16 := Z.
Definition jsstring := list char16.

Fixpoint jsstring_eqb (a b : jsstring) : bool :=
  match a, b with
  | [], [] => true
  | x :: a', y :: b' => (x =? y) && jsstring_eqb a' b'
  | _, _ => false
  end.

(** White space and line terminators, the code units [trim] strips. *)
Definition isWhiteSpace (c : char16) : bool :=
  (c =? 9) || (c =? 10) || (c =? 11) || (c =? 12) || (c =? 13) || (c =? 32)
  || (c =? 160) || (c =? 5760) || ((8192 <=? c) && (c <=? 8202))
  || (c =? 8232) || (c =? 8233) || (c =? 8239) || (c =? 8287)
  || (c =? 12288) || (c =? 65279).

Fixpoint trimStart (s : jsstring) : jsstring :=
  match s with
  | c :: s' => if isWhiteSpace c then trimStart s' else s
  | [] => []
  end.

Definition trim (s : jsstring) : jsstring :=
  rev (trimStart (rev (trimStart s))).

(** [s.split(sep)] for a one-unit separator: never empty, [""] gives [[""]]. *)
Fixpoint split (sep : char16) (s : jsstring) : list jsstring :=
  match s with
  | [] => [[]]
  | c :: s' =>
      if c =? sep then [] :: split sep s'
      else
        match split sep s' with
        | cur :: rest => (c :: cur) :: rest
        | [] => [[c]]
        end
  end.

Definition startsWith (s : jsstring) (c : char16) : bool :=
  match s with
  | x :: _ => x =? c
  | [] => false
  end.

(** ** Arrays *)

(** [a[i]] for a numeric index that may be negative or past the end. *)
Definition at_index {A : Type} (a : list A) (i : Z) : option A :=
  if i <? 0 then None else nth_error a (Z.to_nat i).

(** [g[r][c]] on an array of rows. *)
Definition at_index2 {A : Type} (g : list (list A)) (r c : Z) : option A :=
  match at_index g r with
  | Some row => at_index row c
  | None => None
  end.

(** [headers.indexOf(name)]: the first position holding [name], else [-1]. *)
Fixpoint indexOf_from (a : list jsstring) (name : jsstring) (i : Z) : Z :=
  match a with
  | [] => -1
  | x :: a' => if jsstring_eqb x name then i else indexOf_from a' name (i + 1)
  end.

Definition indexOf (a : list jsstring) (name : jsstring) : Z :=
  indexOf_from a name 0.

(** The integers [lo, lo+1, ..., hi-1], the values a counting [for] loop
    takes. *)
Definition rangeZ (lo hi : Z) : list Z :=
  map (fun i => lo + Z.of_nat i) (seq 0 (Z.to_nat (hi - lo))).

(** A [Uint8Array] used as a table of flags is a [list bool]. *)

Definition getFlag (a : list bool) (idx : Z) : bool :=
  match at_index a idx with
  | Some b => b
  | None => false
  end.

Definition setFlag (a : list bool) (idx : Z) : list bool :=
  if idx <? 0 then a else <[Z.to_nat idx := true]> a.

(** A [Uint8ClampedArray] of pixel data, read as a number; a read out of
    range is [undefined], which every use below turns into [NaN]. *)
Definition byteAt (data : list Byte.byte) (idx : Z) : float :=
  match at_index data idx with
  | Some b => Z2F (Z.of_N (Byte.to_N b))
  | None => nan
  end.

(** [a.includes(s)] on an array of strings. *)
Definition includes (a : list jsstring) (s : jsstring) : bool :=
  existsb (fun x => jsstring_eqb x s) a.

(** [ToInt32]: an integer taken modulo [2^32] into the signed 32-bit
    range, which is what [<<] and [&] do to their operands and result. *)
Definition ToInt32 (z : Z) : Z :=
  (z + 2147483648) mod 4294967296 - 2147483648.

(** The truth value of a string that may be missing: [undefined], [null]
    and [""] are falsy. *)
Definition truthy (s : option jsstring) : bool :=
  match s with
  | Some (_ :: _) => true
  | _ => false
  end.

(** The digit of [Number.prototype.toString(16)] for a value below 16. *)
Definition hexDigit (d : Z) : char16 := if d <? 10 then 48 + d else 87 + d.

(** The hexadecimal digits of a non-negative integer, most significant
    first, at most [fuel] of them. *)
Fixpoint hexDigits (fuel : nat) (n : Z) : jsstring :=
  match fuel with
  | O => []
  | S fuel' =>
      if n <? 16 then [hexDigit n]
      else hexDigits fuel' (n / 16) ++ [hexDigit (n mod 16)]
  end.

(** [n.toString(16)] for an integer [0 <= n < 2^64]. *)
Definition toString16 (n : Z) : jsstring := hexDigits 16 n.

(* ================================================================== *)
(** * Data model *)
(* ================================================================== *)

Definition triple := (float * float * float)%type.

(** [ColorInfo]; [isExternal] is an optional field. *)
Record ColorInfo := mkColorInfo {
  code : jsstring;
  rgb : triple;
  lab : triple;
  isExternal : option bool
}.

Inductive BrandName := mard | manman | panpan | mixiaowo | COCO | kaka.

Definition PaletteKey := BrandName.

Definition brandNames : list BrandName :=
  [mard; manman; panpan; mixiaowo; COCO; kaka].

(** The header text of each brand: ['mard'], ['漫漫'], ['盼盼'], ['咪小窝'],
    ['COCO'], ['卡卡']. *)
Definition brandLabel (b : BrandName) : jsstring :=
  match b with
  | mard => [109; 97; 114; 100]
  | manman => [28459; 28459]
  | panpan => [30460; 30460]
  | mixiaowo => [21674; 23567; 31389]
  | COCO => [67; 79; 67; 79]
  | kaka => [21345; 21345]
  end.

Definition BrandName_eqb (a b : BrandName) : bool :=
  match a, b with
  | mard, mard | manman, manman | panpan, panpan
  | mixiaowo, mixiaowo | COCO, COCO | kaka, kaka => true
  | _, _ => false
  end.

Inductive Algorithm := average | nearest | gradient_enhanced | dominant_pooling.

(** A grid cell is the object [{ ...color }] with [isExternal] possibly set
    afterwards. Spreading [undefined] (what [palette[0]] is for an empty
    palette) gives the empty object. *)
Inductive GridCell :=
| CellOf (info : ColorInfo)
| CellEmpty (ext : option bool).

Definition spread (c : option ColorInfo) : GridCell :=
  match c with
  | Some info => CellOf info
  | None => CellEmpty None
  end.

(** [info.isExternal = true]. *)
Definition markExternal (cell : GridCell) : GridCell :=
  match cell with
  | CellOf i => CellOf (mkColorInfo (code i) (rgb i) (lab i) (Some true))
  | CellEmpty _ => CellEmpty (Some true)
  end.

(** The truth value of [cell.isExternal]. *)
Definition cellIsExternal (cell : GridCell) : bool :=
  match cell with
  | CellOf i => match isExternal i with Some b => b | None => false end
  | CellEmpty e => match e with Some b => b | None => false end
  end.

Definition Grid := list (list GridCell).

(* ================================================================== *)
(** * Sample inputs *)
(* ================================================================== *)

(** A [Math.pow] to run the program with: squares are exact products, the
    two other exponents the program uses (2.4 and 1/3) go through Newton
    iterations for the fifth and the cube root. *)
Fixpoint newtonRoot5 (n : nat) (x t : float) : float :=
  match n with
  | O => t
  | S n' => newtonRoot5 n' x ((4 * t + x / (t * t * t * t)) / 5)%float
  end.

Fixpoint newtonRoot3 (n : nat) (x t : float) : float :=
  match n with
  | O => t
  | S n' => newtonRoot3 n' x ((2 * t + x / (t * t)) / 3)%float
  end.

Definition samplePow (x y : float) : float :=
  if (y =? 2)%float then (x * x)%float
  else if (y =? 2.4)%float then
    let t := newtonRoot5 80 x 1 in
    let t3 := (t * t * t)%float in
    let t6 := (t3 * t3)%float in
    (t6 * t6)%float
  else if (y =? 1 / 3)%float then newtonRoot3 80 x 1
  else nan.

(** Plain ASCII text as code units. *)
Definition text (s : String.string) : jsstring :=
  map (fun a => Z.of_N (Ascii.N_of_ascii a)) (String.list_ascii_of_string s).

(** A small palette table: a header line and five data lines, the fourth
    with a seven-unit hex field that is not hexadecimal and the fifth with
    a field that is not a hex field at all. *)
Definition samplePaletteData : jsstring :=
  text "hex,mard,COCO"%string ++ [10]
  ++ text "#ffffff,H1,C1"%string ++ [10]
  ++ text "#000000,H2,C2"%string ++ [10]
  ++ text "#ff0000,H3,"%string ++ [10]
  ++ text "#zzzzzz,H4,C4"%string ++ [10]
  ++ text "red,H5,C5"%string ++ [10].

(** [count] pixels of one opaque colour. *)
Definition uniformBuffer (r g b : Byte.byte) (count : nat) : list Byte.byte :=
  concat (repeat [r; g; b; Byte.xff] count).

(** The lines of [samplePaletteData]. *)
Definition sampleHeader : jsstring := text "hex,mard,COCO"%string.
Definition sampleNonHexLine : jsstring := text "#zzzzzz,H4,C4"%string.
Definition sampleRows : list jsstring :=
  [text "#ffffff,H1,C1"%string; text "#000000,H2,C2"%string;
   text "#ff0000,H3,"%string; sampleNonHexLine; text "red,H5,C5"%string].

(** An 8 x 8 buffer (a 2 x 2 target): a white border, inside it a black
    ring one pixel wide, and inside the ring a white 4 x 4 square. *)
Definition sampleFrame : list Byte.byte :=
  flat_map
    (fun y =>
       flat_map
         (fun x =>
            if Z.min (Z.min y x) (Z.min (7 - y) (7 - x)) =? 1
            then [Byte.x00; Byte.x00; Byte.x00; Byte.xff]
            else [Byte.xff; Byte.xff; Byte.xff; Byte.xff])
         (rangeZ 0 8))
    (rangeZ 0 8).

(** A 4 x 4 buffer (a 1 x 1 target) of fully transparent pixels. *)
Definition sampleTransparent : list Byte.byte := repeat Byte.x00 64.

(** An 8 x 8 buffer (a 2 x 2 target) of opaque greys: the top-left 4 x 4
    block at level 100, the three other blocks at level 200. *)
Definition sampleContrast : list Byte.byte :=
  flat_map
    (fun y =>
       flat_map
         (fun x =>
            if (y <? 4) && (x <? 4)
            then [Byte.x64; Byte.x64; Byte.x64; Byte.xff]
            else [Byte.xc8; Byte.xc8; Byte.xc8; Byte.xff])
         (rangeZ 0 8))
    (rangeZ 0 8).

(* ================================================================== *)
(** * The program *)
(* ================================================================== *)

Section Core.

(** [Math.pow], as the engine at hand computes it. *)
Variable Math_pow : float -> float -> float.

(** The text exported by [./palette_data] (the module itself is data). *)
Variable rawPaletteData : jsstring.

(** ** color_utils.ts *)

Definition gammaExpand (c : float) : float :=
  if (0.04045 <? c)%float
  then Math_pow ((c + 0.055) / 1.055)%float 2.4%float
  else (c / 12.92)%float.

Definition labCurve (t : float) : float :=
  if (0.008856 <? t)%float
  then Math_pow t (1 / 3)%float
  else ((7.787 * t) + (16 / 116))%float.

Definition rgbToLab (r g b : float) : triple :=
  let r_ := gammaExpand (r / 255)%float in
  let g_ := gammaExpand (g / 255)%float in
  let b_ := gammaExpand (b / 255)%float in
  let x := ((r_ * 0.4124 + g_ * 0.3576 + b_ * 0.1805) * 100)%float in
  let y := ((r_ * 0.2126 + g_ * 0.7152 + b_ * 0.0722) * 100)%float in
  let z := ((r_ * 0.0193 + g_ * 0.1192 + b_ * 0.9505) * 100)%float in
  let x := (x / 95.047)%float in
  let y := (y / 100.000)%float in
  let z := (z / 108.883)%float in
  let x := labCurve x in
  let y := labCurve y in
  let z := labCurve z in
  (((116 * y) - 16)%float, (500 * (x - y))%float, (200 * (y - z))%float).

Definition deltaE (lab1 lab2 : triple) : float :=
  let '(l1, a1, b1) := lab1 in
  let '(l2, a2, b2) := lab2 in
  Math_sqrt (Math_pow (l1 - l2) 2 + Math_pow (a1 - a2) 2
             + Math_pow (b1 - b2) 2)%float.

(** The class [[a-f\d]] under the [i] flag. *)
Definition isHexDigit (c : char16) : bool :=
  ((48 <=? c) && (c <=? 57)) || ((97 <=? c) && (c <=? 102))
  || ((65 <=? c) && (c <=? 70)).

Definition hexDigitValue (c : char16) : Z :=
  if (48 <=? c) && (c <=? 57) then c - 48
  else if (97 <=? c) && (c <=? 102) then c - 87
  else c - 55.

(** [parseInt(pair, 16)] on two hexadecimal digits. *)
Definition parseHexPair (hi lo : char16) : float :=
  Z2F (16 * hexDigitValue hi + hexDigitValue lo).

(** [/^#?([a-f\d]{2})([a-f\d]{2})([a-f\d]{2})$/i.exec(hex)]: the three
    captured pairs, or [None] for [null]. *)
Definition hexMatch (hex : jsstring)
  : option ((char16 * char16) * (char16 * char16) * (char16 * char16)) :=
  let body := match hex with
              | 35 :: rest => rest
              | _ => hex
              end in
  match body with
  | [c1; c2; c3; c4; c5; c6] =>
      if forallb isHexDigit body
      then Some ((c1, c2), (c3, c4), (c5, c6))
      else None
  | _ => None
  end.

Definition hexToRgb (hex : jsstring) : triple :=
  match hexMatch hex with
  | Some ((r1, r2), (g1, g2), (b1, b2)) =>
      (parseHexPair r1 r2, parseHexPair g1 g2, parseHexPair b1 b2)
  | None => (0%float, 0%float, 0%float)
  end.

(** [Record<BrandName, ColorInfo[]>]. *)
Definition Palettes := BrandName -> list ColorInfo.

Definition emptyPalettes : Palettes := fun _ => [].

(** [parsedPalettes[brand].push(entry)]. *)
Definition pushEntry (p : Palettes) (brand : BrandName) (entry : ColorInfo)
  : Palettes :=
  fun b => if BrandName_eqb b brand then p b ++ [entry] else p b.

(** [parts[idx]?.trim()], kept when it is a non-empty string. *)
Definition brandCode (headers parts : list jsstring) (brand : BrandName)
  : option jsstring :=
  match at_index parts (indexOf headers (brandLabel brand)) with
  | Some cell =>
      match trim cell with
      | [] => None
      | code => Some code
      end
  | None => None
  end.

(** The row test [!hex.startsWith('#') || hex.length !== 7]. *)
Definition rowSkipped (hex : jsstring) : bool :=
  negb (startsWith hex 35) || negb (Z.of_nat (length hex) =? 7).

(** The hex field of a data line: [parts[0].trim()]. *)
Definition hexField (line : jsstring) : jsstring :=
  match split 44 line with
  | first :: _ => trim first
  | [] => []
  end.

(** One iteration of the loop over data lines. *)
Definition parseLine (headers : list jsstring) (p : Palettes)
  (line : jsstring) : Palettes :=
  let parts := split 44 line in
  let hex := hexField line in
  if rowSkipped hex then p
  else
    let rgb := hexToRgb hex in
    let lab := rgbToLab (rgb.1.1) (rgb.1.2) (rgb.2) in
    fold_left
      (fun p brand =>
         match brandCode headers parts brand with
         | Some code => pushEntry p brand (mkColorInfo code rgb lab None)
         | None => p
         end)
      brandNames p.

Definition parsePalettesOf (raw : jsstring) : Palettes :=
  let lines := split 10 (trim raw) in
  match lines with
  | header :: rows =>
      fold_left (parseLine (split 44 header)) rows emptyPalettes
  | [] => emptyPalettes
  end.

Definition parsePalettes : Palettes := parsePalettesOf rawPaletteData.

Definition palettes : Palettes := parsePalettes.

(** The body of the scan: the running [(minDistance, closest)]. *)
Definition closerOf (target : triple) (acc : float * option ColorInfo)
  (color : ColorInfo) : float * option ColorInfo :=
  let distance := deltaE target (lab color) in
  if (distance <? acc.1)%float then (distance, Some color) else acc.

Definition findClosestIn (palette : list ColorInfo) (r g b : float)
  : option ColorInfo :=
  let lab := rgbToLab r g b in
  (fold_left (closerOf lab) palette (infinity, head palette)).2.

Definition findClosestColor (r g b : float) (paletteKey : PaletteKey)
  : option ColorInfo :=
  findClosestIn (palettes paletteKey) r g b.

(** ** draw_utils.ts: the bead statistics of [drawPattern] *)

Definition getLuminance (r g b : float) : float :=
  (0.299 * r + 0.587 * g + 0.114 * b)%float.

(** [cell.code], which is [undefined] on the empty object. *)
Definition cellCode (cell : GridCell) : option jsstring :=
  match cell with
  | CellOf info => Some (code info)
  | CellEmpty _ => None
  end.

(** Two keys of a [Map] are the same key: the same string, or both
    [undefined]. *)
Definition sameCode (a b : option jsstring) : bool :=
  match a, b with
  | Some x, Some y => jsstring_eqb x y
  | None, None => true
  | _, _ => false
  end.

(** [{ color, count }]. *)
Record Stat := mkStat {
  stat_color : GridCell;
  stat_count : Z
}.

(** [Map<string, { color, count }>], in insertion order. *)
Definition StatsMap := list (option jsstring * Stat).

Definition statsHas (m : list (option jsstring * Stat))
  (key : option jsstring) : bool :=
  existsb (fun e => sameCode e.1 key) m.

(** [statsMap.get(cell.code)!.count++]. *)
Fixpoint statsBump (m : list (option jsstring * Stat))
  (key : option jsstring) : list (option jsstring * Stat) :=
  match m with
  | [] => []
  | (k, s) :: m' =>
      if sameCode k key
      then (k, mkStat (stat_color s) (stat_count s + 1)) :: m'
      else (k, s) :: statsBump m' key
  end.

(** The body of the two counting loops, for one cell. *)
Definition countCell (m : list (option jsstring * Stat)) (cell : GridCell)
  : list (option jsstring * Stat) :=
  if cellIsExternal cell then m
  else
    let key := cellCode cell in
    statsBump (if statsHas m key then m else m ++ [(key, mkStat cell 0)])
              key.

(** The cells [grid[r][c]] the loops read, for [r < grid.length] and
    [c < grid[0].length], row by row; [None] when one of them does not
    exist, where reading [grid[0].length] or [cell.isExternal] throws. *)
Definition scannedCells (grid : Grid) : option (list GridCell) :=
  match grid with
  | [] => None
  | first :: _ =>
      if forallb (fun row => (length first <=? length row)%nat) grid
      then Some (flat_map (take (length first)) grid)
      else None
  end.

Definition statsMap (cells : list GridCell)
  : list (option jsstring * Stat) :=
  fold_left countCell cells [].

(** [sort((a, b) => b.count - a.count)], which is stable: an entry goes
    behind the entries that count more and before all others. *)
Fixpoint insertStat (s : Stat) (l : list Stat) : list Stat :=
  match l with
  | [] => [s]
  | x :: l' =>
      if stat_count s <? stat_count x then x :: insertStat s l'
      else s :: x :: l'
  end.

Definition sortStats (l : list Stat) : list Stat :=
  fold_right insertStat [] l.

(** The [stats] array of [drawPattern(ctx, grid, ...)]. *)
Definition stats (grid : Grid) : option (list Stat) :=
  match scannedCells grid with
  | Some cells => Some (sortStats (map snd (statsMap cells)))
  | None => None
  end.

(** The layout of the statistics panel, for a cell size that is a whole
    number of pixels (the callers pass 40). *)
Definition statItemWidth (cellSize : Z) : Z := Z.max 120 (cellSize * 3).

Definition statSpacingX : Z := 20.

(** [Math.max(1, Math.floor(gridWidth / (statItemWidth + statSpacingX)))]. *)
Definition maxStatsPerRow (cols cellSize : Z) : Z :=
  Z.max 1 (cols * cellSize / (statItemWidth cellSize + statSpacingX)).

(** [Math.ceil(stats.length / maxStatsPerRow)]. *)
Definition statsRows (count cols cellSize : Z) : Z :=
  - ((- count) / maxStatsPerRow cols cellSize).

(** The row and the column of the panel the [i]-th entry is drawn in. *)
Definition statPosition (i cols cellSize : Z) : Z * Z :=
  (i / maxStatsPerRow cols cellSize, i mod maxStatsPerRow cols cellSize).

(** A cell the drawing loops can paint: a cell flagged background is
    painted grey, any other one with its own [rgb], which the empty object
    does not have. *)
Definition paintable (cell : GridCell) : bool :=
  cellIsExternal cell
  || match cell with
     | CellOf _ => true
     | CellEmpty _ => false
     end.

(** [drawPattern(ctx, grid)], as far as its statistics go: the entries the
    panel lists, or [None] when the call throws, on [grid[0].length], on a
    missing cell or on [color.rgb[0]]. *)
Definition drawPattern (grid : Grid) : option (list Stat) :=
  match scannedCells grid with
  | Some cells =>
      if forallb paintable cells
      then Some (sortStats (map snd (statsMap cells)))
      else None
  | None => None
  end.

(** ** PerlerBeadGenerator.generate *)

Section Generate.

(** The pixels [getImageData] returned for the [procW x procH] canvas the
    cropped image was drawn on: four bytes (R, G, B, A) per pixel, row by
    row. Cropping and resampling are the browser's. *)
Variable procData : list Byte.byte.
Variables targetW targetH : Z.
Variable algorithm : Algorithm.
Variable paletteKey : PaletteKey.
Variable brightness : float.
Variable removeBackground : bool.
Variable backgroundTolerance : float.

Definition bOffset : float := (brightness * 15)%float.

Definition procW : Z := targetW * 4.
Definition procH : Z := targetH * 4.

(** The length of the two [Uint8Array(procW * procH)]. *)
Definition pixelCount : nat := Z.to_nat (procW * procH).

(** *** Background flood fill *)

Definition isBgColor (idx : Z) : bool :=
  let r := byteAt procData idx in
  let g := byteAt procData (idx + 1) in
  let b := byteAt procData (idx + 2) in
  let distToWhite :=
    Math_sqrt (Math_pow (255 - r) 2 + Math_pow (255 - g) 2
               + Math_pow (255 - b) 2)%float in
  (distToWhite <? backgroundTolerance * 2)%float.

(** The variables of the [while] loop. *)
Record FillState := mkFill {
  visited : list bool;
  isBackgroundMask : list bool;
  queue : list (Z * Z);
  head : nat
}.

Definition corners : list (Z * Z) :=
  [(0, 0); (0, procW - 1); (procH - 1, 0); (procH - 1, procW - 1)].

Definition fillInit : FillState :=
  mkFill (replicate pixelCount false) (replicate pixelCount false) corners 0.

(** The four guarded [queue.push] of a background pixel. *)
Definition pushNeighbors (r c : Z) : list (Z * Z) :=
  (if 0 <? r then [(r - 1, c)] else [])
  ++ (if r <? procH - 1 then [(r + 1, c)] else [])
  ++ (if 0 <? c then [(r, c - 1)] else [])
  ++ (if c <? procW - 1 then [(r, c + 1)] else []).

(** One iteration of the loop body, taken when [head < queue.length]. *)
Definition fillStep (st : FillState) : FillState :=
  match queue st !! head st with
  | None => st
  | Some (r, c) =>
      let idx := r * procW + c in
      if getFlag (visited st) idx
      then mkFill (visited st) (isBackgroundMask st) (queue st) (S (head st))
      else
        let visited' := setFlag (visited st) idx in
        if isBgColor (idx * 4)
        then mkFill visited' (setFlag (isBackgroundMask st) idx)
                    (queue st ++ pushNeighbors r c) (S (head st))
        else mkFill visited' (isBackgroundMask st) (queue st) (S (head st))
  end.

Definition fillDone (st : FillState) : bool :=
  negb (head st <? length (queue st))%nat.

(** [while (head < queue.length) { ... }], at most [fuel] iterations. *)
Fixpoint fillLoop (fuel : nat) (st : FillState) : FillState :=
  match fuel with
  | O => st
  | S fuel' => if fillDone st then st else fillLoop fuel' (fillStep st)
  end.

(** Every iteration consumes one queue entry, and at most four corners and
    four neighbours per pixel are ever pushed. *)
Definition fillFuel : nat := 4 * pixelCount + 4.

Definition floodFill : FillState := fillLoop fillFuel fillInit.

(** The mask the quantization stage reads. *)
Definition backgroundMask : list bool :=
  if removeBackground then isBackgroundMask floodFill
  else replicate pixelCount false.

(** *** Sampling blocks *)

Definition blockW : Q := (inject_Z procW / inject_Z targetW)%Q.
Definition blockH : Q := (inject_Z procH / inject_Z targetH)%Q.

(** [Math.min(255, Math.max(0, procData[idx] + bOffset))]. *)
Definition adjusted (idx : Z) : float :=
  clamp255 (byteAt procData idx + bOffset)%float.

Definition startY (r : Z) : Z := Qfloor (inject_Z r * blockH)%Q.
Definition endY (r : Z) : Z :=
  Z.min (Qfloor (inject_Z (r + 1) * blockH)%Q) procH.
Definition startX (c : Z) : Z := Qfloor (inject_Z c * blockW)%Q.
Definition endX (c : Z) : Z :=
  Z.min (Qfloor (inject_Z (c + 1) * blockW)%Q) procW.

(** The [(y, x)] the two nested loops over a block visit, in order. *)
Definition blockPixels (r c : Z) : list (Z * Z) :=
  flat_map (fun y => map (fun x => (y, x)) (rangeZ (startX c) (endX c)))
           (rangeZ (startY r) (endY r)).

Definition masked (y x : Z) : bool :=
  removeBackground && getFlag backgroundMask (y * procW + x).

(** *** nearest *)

Definition nearestCell (r c : Z) : GridCell :=
  let pr := Qfloor (inject_Z r * blockH + blockH / 2)%Q in
  let pc := Qfloor (inject_Z c * blockW + blockW / 2)%Q in
  let idx := (pr * procW + pc) * 4 in
  let rVal := adjusted idx in
  let gVal := adjusted (idx + 1) in
  let bVal := adjusted (idx + 2) in
  let info := spread (findClosestColor rVal gVal bVal paletteKey) in
  if masked pr pc then markExternal info else info.

(** *** dominant_pooling *)

Record Bucket := mkBucket {
  bucket_r : float;
  bucket_g : float;
  bucket_b : float;
  bucket_count : Z
}.

(** Two numbers print to the same text in a template literal when they are
    equal (both zeros print ["0"]) or both [NaN]. *)
Definition sameText (a b : float) : bool :=
  (a =? b)%float || (PrimFloat.is_nan a && PrimFloat.is_nan b).

Definition sameKey (k1 k2 : triple) : bool :=
  sameText k1.1.1 k2.1.1 && sameText k1.1.2 k2.1.2 && sameText k1.2 k2.2.

(** [Map<string, ...>], in insertion order, the key kept as the three
    numbers its text is printed from. *)
Definition ColorFreq := list (triple * Bucket).

Definition freqHas (m : ColorFreq) (key : triple) : bool :=
  existsb (fun e => sameKey e.1 key) m.

(** [colorFreq.get(key)!.count++]. *)
Fixpoint freqBump (m : ColorFreq) (key : triple) : ColorFreq :=
  match m with
  | [] => []
  | (k, b) :: m' =>
      if sameKey k key
      then (k, mkBucket (bucket_r b) (bucket_g b) (bucket_b b)
                        (bucket_count b + 1)) :: m'
      else (k, b) :: freqBump m' key
  end.

Record PoolState := mkPool {
  colorFreq : ColorFreq;
  pool_bgCount : Z;
  pool_totalCount : Z
}.

Definition bucketKey (rv gv bv : float) : triple :=
  ((Math_round (rv / 10) * 10)%float,
   (Math_round (gv / 10) * 10)%float,
   (Math_round (bv / 10) * 10)%float).

Definition poolStep (st : PoolState) (p : Z * Z) : PoolState :=
  let '(y, x) := p in
  let idx := (y * procW + x) * 4 in
  let alpha := byteAt procData (idx + 3) in
  if (alpha <? 10)%float
  then mkPool (colorFreq st) (pool_bgCount st + 1) (pool_totalCount st + 1)
  else
    let bg := if masked y x then pool_bgCount st + 1 else pool_bgCount st in
    let rv := adjusted idx in
    let gv := adjusted (idx + 1) in
    let bv := adjusted (idx + 2) in
    let key := bucketKey rv gv bv in
    let m := if freqHas (colorFreq st) key then colorFreq st
             else colorFreq st ++ [(key, mkBucket rv gv bv 0)] in
    mkPool (freqBump m key) bg (pool_totalCount st + 1).

Definition poolBlock (r c : Z) : PoolState :=
  fold_left poolStep (blockPixels r c) (mkPool [] 0 0).

(** The [forEach] that keeps the first bucket of highest count. *)
Definition pickDominant (m : ColorFreq) : triple :=
  (fold_left
     (fun (acc : triple * Z) (e : triple * Bucket) =>
        let val := e.2 in
        if acc.2 <? bucket_count val
        then ((bucket_r val, bucket_g val, bucket_b val), bucket_count val)
        else acc)
     m ((255%float, 255%float, 255%float), -1)).1.

Definition dominantCell (r c : Z) : GridCell :=
  let st := poolBlock r c in
  let dominant := pickDominant (colorFreq st) in
  let info :=
    spread (findClosestColor dominant.1.1 dominant.1.2 dominant.2
                             paletteKey) in
  if removeBackground
     && (0.5 <? Z2F (pool_bgCount st) / Z2F (pool_totalCount st))%float
  then markExternal info else info.

(** *** average *)

Record RawCell := mkRaw {
  raw_r : float;
  raw_g : float;
  raw_b : float;
  isBg : bool
}.

Record AvgState := mkAvg {
  sumR : float;
  sumG : float;
  sumB : float;
  avg_count : Z;
  avg_bgCount : Z
}.

Definition avgStep (st : AvgState) (p : Z * Z) : AvgState :=
  let '(y, x) := p in
  let idx := (y * procW + x) * 4 in
  mkAvg (sumR st + adjusted idx)%float
        (sumG st + adjusted (idx + 1))%float
        (sumB st + adjusted (idx + 2))%float
        (avg_count st + 1)
        (if masked y x then avg_bgCount st + 1 else avg_bgCount st).

Definition avgBlock (r c : Z) : AvgState :=
  fold_left avgStep (blockPixels r c) (mkAvg 0 0 0 0 0).

Definition rawCell (r c : Z) : RawCell :=
  let st := avgBlock r c in
  let count := if avg_count st =? 0 then 1 else avg_count st in
  mkRaw (sumR st / Z2F count)%float
        (sumG st / Z2F count)%float
        (sumB st / Z2F count)%float
        (removeBackground
         && (0.5 <? Z2F (avg_bgCount st) / Z2F count)%float).

(** The two nested loops that fill a [targetH x targetW] table. *)
Definition tabulate {A : Type} (f : Z -> Z -> A) : list (list A) :=
  map (fun r => map (fun c => f r c) (rangeZ 0 targetW)) (rangeZ 0 targetH).

Definition rawGrid : list (list RawCell) := tabulate rawCell.

(** [g[r][c]]. Every read below is inside the table; the value given for a
    read outside is never used. *)
Definition tableAt (g : list (list RawCell)) (r c : Z) : RawCell :=
  match at_index2 g r c with
  | Some cell => cell
  | None => mkRaw nan nan nan false
  end.

(** *** gradient_enhanced *)

Definition dirs : list (Z * Z) := [(-1, 0); (1, 0); (0, -1); (0, 1)].

Definition inGrid (nr nc : Z) : bool :=
  (0 <=? nr) && (nr <? targetH) && (0 <=? nc) && (nc <? targetW).

(** The first loop over [dirs]: [(diffSum, neighbors)]. *)
Definition diffStep (g : list (list RawCell)) (r c : Z) (center : RawCell)
  (acc : float * Z) (d : Z * Z) : float * Z :=
  let nr := r + d.1 in
  let nc := c + d.2 in
  if inGrid nr nc
  then
    let neighbor := tableAt g nr nc in
    ((acc.1 + (Math_abs (raw_r center - raw_r neighbor)
               + Math_abs (raw_g center - raw_g neighbor)
               + Math_abs (raw_b center - raw_b neighbor)))%float,
     acc.2 + 1)
  else acc.

Definition weightCenter : float := 2%float.
Definition weightEdge : float := (-0.1)%float.

Record SharpState := mkSharp {
  sh_sumR : float;
  sh_sumG : float;
  sh_sumB : float;
  validNeighbors : Z
}.

(** The second loop over [dirs]. *)
Definition sharpStep (g : list (list RawCell)) (r c : Z)
  (acc : SharpState) (d : Z * Z) : SharpState :=
  let nr := r + d.1 in
  let nc := c + d.2 in
  if inGrid nr nc
  then mkSharp (sh_sumR acc + raw_r (tableAt g nr nc) * weightEdge)%float
               (sh_sumG acc + raw_g (tableAt g nr nc) * weightEdge)%float
               (sh_sumB acc + raw_b (tableAt g nr nc) * weightEdge)%float
               (validNeighbors acc + 1)
  else acc.

Definition enhancedCell (g : list (list RawCell)) (r c : Z) : RawCell :=
  let center := tableAt g r c in
  let '(diffSum, neighbors) :=
    fold_left (diffStep g r c center) dirs (0%float, 0) in
  let avgDiff :=
    if 0 <? neighbors then (diffSum / Z2F neighbors)%float else 0%float in
  if (avgDiff <? 15)%float
  then center
  else
    let acc :=
      fold_left (sharpStep g r c) dirs
        (mkSharp (raw_r center * weightCenter)%float
                 (raw_g center * weightCenter)%float
                 (raw_b center * weightCenter)%float 0) in
    let missingEdges := 4 - validNeighbors acc in
    let sR := (sh_sumR acc
               + raw_r center * (Z2F missingEdges * weightEdge))%float in
    let sG := (sh_sumG acc
               + raw_g center * (Z2F missingEdges * weightEdge))%float in
    let sB := (sh_sumB acc
               + raw_b center * (Z2F missingEdges * weightEdge))%float in
    mkRaw (clamp255 sR) (clamp255 sG) (clamp255 sB) (isBg center).

Definition enhancedGrid : list (list RawCell) :=
  tabulate (enhancedCell rawGrid).

(** The final pass of the last two strategies over a table of raw cells. *)
Definition matchCell (g : list (list RawCell)) (r c : Z) : GridCell :=
  let cell := tableAt g r c in
  let info :=
    spread (findClosestColor (raw_r cell) (raw_g cell) (raw_b cell)
                             paletteKey) in
  if isBg cell then markExternal info else info.

(** *** The grid *)

Definition generateGrid : Grid :=
  match algorithm with
  | nearest => tabulate nearestCell
  | dominant_pooling => tabulate dominantCell
  | gradient_enhanced => tabulate (matchCell enhancedGrid)
  | average => tabulate (matchCell rawGrid)
  end.

(** The [grid] of the resolved promise, or [None] when the promise is
    rejected: [getImageData] refuses a rectangle of width or height 0,
    [new Uint8Array] refuses a negative length, and [drawPattern], called
    on the grid before the promise resolves, throws on an empty grid and on
    a cell it cannot paint. *)
Definition generate : option Grid :=
  if (procW =? 0) || (procH =? 0) then None
  else if procW * procH <? 0 then None
  else
    match drawPattern generateGrid with
    | Some _ => Some generateGrid
    | None => None
    end.

End Generate.

(** ** App.tsx: the caller of [generate] *)

(** [Math.min(Math.max(1, width), 120)]. *)
Definition clampDimension (v : Z) : Z := Z.min (Z.max 1 v) 120.

(** [handleGenerate] once an image is loaded: the two sizes typed in the
    form are clamped, then handed to [generate]. [image w h] is the buffer
    the browser produces from the uploaded picture for a [w x h] target. *)
Definition handleGenerate (image : Z -> Z -> list Byte.byte)
  (width height : Z) (algorithm : Algorithm) (palette : PaletteKey)
  (brightness : float) (removeBackground : bool)
  (backgroundTolerance : float) : option Grid :=
  let w := clampDimension width in
  let h := clampDimension height in
  generate (image w h) w h algorithm palette brightness removeBackground
           backgroundTolerance.

(** ** The region merge engine *)

(** Modelled from the spec: the Lab value of a grid cell, which the merge
    engine compares; [PerlerBeadGenerator.mergeRegion] and [autoMerge] are
    called by [App.tsx] and defined in none of the sources at hand. *)
Definition cellLab (cell : GridCell) : option triple :=
  match cell with
  | CellOf info => Some (lab info)
  | CellEmpty _ => None
  end.

(** Modelled from the spec: the adjacency test of the merge search, which
    is missing with [mergeRegion]. A cell joins the region of a seed when it
    is not flagged background and its colour is at [deltaE] below the
    threshold from the seed's colour. *)
Definition mergeable (seedLab : triple) (threshold : float)
  (cell : GridCell) : bool :=
  negb (cellIsExternal cell)
  && match cellLab cell with
     | Some l => (deltaE seedLab l <? threshold)%float
     | None => false
     end.

(** Modelled from the spec: the visited bookkeeping of the merge search,
    missing with [mergeRegion]: whether a position is in a list. *)
Definition positionIn (p : Z * Z) (l : list (Z * Z)) : bool :=
  existsb (fun q => (q.1 =? p.1) && (q.2 =? p.2)) l.

(** Modelled from the spec: the breadth-first search of [mergeRegion],
    missing with it. It starts from the queue holding the seed, and adds to
    the region every queued cell not yet in it, queueing those of its four
    neighbours that are cells of the grid and [mergeable]. *)
Fixpoint mergeSearch (fuel : nat) (grid : Grid) (seedLab : triple)
  (threshold : float) (pending region : list (Z * Z)) : list (Z * Z) :=
  match fuel with
  | O => region
  | S fuel' =>
      match pending with
      | [] => region
      | (r, c) :: rest =>
          if positionIn (r, c) region
          then mergeSearch fuel' grid seedLab threshold rest region
          else
            let next :=
              List.filter
                (fun q => match at_index2 grid q.1 q.2 with
                          | Some cell => mergeable seedLab threshold cell
                          | None => false
                          end)
                [(r - 1, c); (r + 1, c); (r, c - 1); (r, c + 1)] in
            mergeSearch fuel' grid seedLab threshold (rest ++ next)
                        (region ++ [(r, c)])
      end
  end.

(** Modelled from the spec: the number of cells of a grid, which bounds the
    search of the missing [mergeRegion]: every cell joins the region at most
    once and queues at most four neighbours. *)
Definition cellCount (grid : Grid) : nat := length (concat grid).

(** Modelled from the spec: the rewrite of one merged cell, missing with
    [mergeRegion]. The cell takes the [code], [rgb] and [lab] of the seed
    and keeps its own background flag. *)
Definition repaint (seed cell : GridCell) : GridCell :=
  match seed, cell with
  | CellOf s, CellOf i =>
      CellOf (mkColorInfo (code s) (rgb s) (lab s) (isExternal i))
  | _, _ => cell
  end.

(** Modelled from the spec: the rewrite of the cells of a row, each with
    its column, for the missing [mergeRegion]; the row keeps its length. *)
Fixpoint mapRowFrom (f : Z -> GridCell -> GridCell) (c : Z)
  (row : list GridCell) : list GridCell :=
  match row with
  | [] => []
  | cell :: row' => f c cell :: mapRowFrom f (c + 1) row'
  end.

(** Modelled from the spec: the rewrite of the cells of a grid, each with
    its row and column, for the missing [mergeRegion]; the grid keeps its
    size. *)
Fixpoint mapGridFrom (f : Z -> Z -> GridCell -> GridCell) (r : Z)
  (grid : Grid) : Grid :=
  match grid with
  | [] => []
  | row :: grid' => mapRowFrom (f r) 0 row :: mapGridFrom f (r + 1) grid'
  end.

(** Modelled from the spec: [mergeRegion(grid, seedRow, seedCol,
    threshold)] together with the region it merged; the function is called
    by [App.tsx] and missing from the sources. A seed outside the grid,
    flagged background or without a colour leaves the grid as it is.
    Otherwise the region found by the search from the seed is rewritten to
    the seed's colour; the size of the grid never changes. *)
Definition mergeRegionWith (grid : Grid) (seedRow seedCol : Z)
  (threshold : float) : Grid * list (Z * Z) :=
  match at_index2 grid seedRow seedCol with
  | Some seed =>
      if cellIsExternal seed then (grid, [])
      else
        match cellLab seed with
        | Some seedLab =>
            let region :=
              mergeSearch (4 * cellCount grid + 1) grid seedLab threshold
                          [(seedRow, seedCol)] [] in
            (mapGridFrom
               (fun r c cell =>
                  if positionIn (r, c) region then repaint seed cell
                  else cell)
               0 grid,
             region)
        | None => (grid, [])
        end
  | None => (grid, [])
  end.

(** Modelled from the spec: [mergeRegion], missing from the sources. *)
Definition mergeRegion (grid : Grid) (seedRow seedCol : Z)
  (threshold : float) : Grid :=
  (mergeRegionWith grid seedRow seedCol threshold).1.

(** Modelled from the spec: the positions of a row from left to right, for
    the scan of the missing [autoMerge]. *)
Fixpoint rowPositions (r c : Z) (row : list GridCell) : list (Z * Z) :=
  match row with
  | [] => []
  | _ :: row' => (r, c) :: rowPositions r (c + 1) row'
  end.

(** Modelled from the spec: the positions of a grid in row-major order, the
    scan order of the missing [autoMerge]. *)
Fixpoint gridPositions (r : Z) (grid : Grid) : list (Z * Z) :=
  match grid with
  | [] => []
  | row :: grid' => rowPositions r 0 row ++ gridPositions (r + 1) grid'
  end.

(** Modelled from the spec: one step of the sweep of the missing
    [autoMerge], on the grid so far and the cells already merged: a cell
    merged before is passed over, any other seeds a merge. *)
Definition sweepStep (threshold : float) (acc : Grid * list (Z * Z))
  (p : Z * Z) : Grid * list (Z * Z) :=
  if positionIn p acc.2 then acc
  else
    let merged := mergeRegionWith acc.1 p.1 p.2 threshold in
    (merged.1, acc.2 ++ merged.2).

(** Modelled from the spec: [autoMerge(grid, threshold)], called by
    [App.tsx] and missing from the sources. The seeded merge is repeated
    over every cell not yet merged, row by row and left to right. *)
Definition autoMerge (grid : Grid) (threshold : float) : Grid :=
  (fold_left (sweepStep threshold) (gridPositions 0 grid) (grid, [])).1.

(** ** App.tsx: the colour selection *)

(** The state the selection handlers read and write. *)
Record Selection := mkSelection {
  selectedColorCodes : list jsstring;
  isLocked : bool;
  missingColorCode : option jsstring
}.

(** [toggleColorSelection(code)]: in multi-select mode the code is taken
    out if it is selected and added if fewer than three are; in single
    mode the code becomes the selection, or clears it when it was the only
    one selected. *)
Definition toggleColorSelection (st : Selection) (code : jsstring)
  : Selection :=
  let prev := selectedColorCodes st in
  mkSelection
    (if isLocked st
     then
       if includes prev code
       then List.filter (fun c => negb (jsstring_eqb c code)) prev
       else if 3 <=? Z.of_nat (length prev) then prev else prev ++ [code]
     else
       if includes prev code && (Z.of_nat (length prev) =? 1) then []
       else [code])
    (isLocked st) (Some code).

(** [clearSelection()], also what [handleGenerate] does to the selection
    once a grid is there. *)
Definition clearSelection (st : Selection) : Selection :=
  mkSelection [] false (missingColorCode st).

(** The lock button: [setIsLocked(!isLocked)]. *)
Definition toggleLock (st : Selection) : Selection :=
  mkSelection (selectedColorCodes st) (negb (isLocked st))
              (missingColorCode st).

(** ** fingerprint.ts *)

(** One iteration of the hash loop:
    [hash = ((hash << 5) - hash) + char; hash = hash & hash]. The
    subtraction and the addition are exact, on numbers far below [2^53]. *)
Definition hashStep (hash : Z) (char : char16) : Z :=
  ToInt32 (ToInt32 (ToInt32 hash * 32) - hash + char).

(** The loop over [rawString], from [hash = 0]. *)
Definition hashOf (rawString : jsstring) : Z := fold_left hashStep rawString 0.

(** What [getBrowserFingerprint] resolves with for the text [rawString] it
    assembled from the canvas, the screen and the time zone:
    [Math.abs(hash).toString(16)]. *)
Definition fingerprintOf (rawString : jsstring) : jsstring :=
  toString16 (Z.abs (hashOf rawString)).

(** ** The licence server *)

(** The [status] column of [login_logs]. *)
Inductive LoginStatus :=
| admin_success | invalid_key | success | fingerprint_mismatch
| bound_success.

Record LoginLog := mkLog {
  log_key : jsstring;
  log_fingerprint : jsstring;
  log_ip : jsstring;
  log_status : LoginStatus
}.

Definition isHighSurrogate (c : char16) : bool :=
  (55296 <=? c) && (c <=? 56319).

Definition isLowSurrogate (c : char16) : bool :=
  (56320 <=? c) && (c <=? 57343).

(** What the database keeps of a string bound to a statement, and gives
    back when the row is read: [better-sqlite3] hands the text to SQLite as
    UTF-8, in which a surrogate code unit without its partner cannot be
    written and becomes U+FFFD. *)
Fixpoint stored (s : jsstring) : jsstring :=
  match s with
  | [] => []
  | c :: s' =>
      if isHighSurrogate c
      then
        match s' with
        | d :: s'' =>
            if isLowSurrogate d then c :: d :: stored s''
            else 65533 :: stored s'
        | [] => [65533]
        end
      else if isLowSurrogate c then 65533 :: stored s'
      else c :: stored s'
  end.

(** A field of the JSON body of a request, as far as the handlers tell
    values apart: a string; a value that is not a string and counts as
    false ([undefined] for a field that is missing, [null], [false], [0]);
    or a value that is not a string and counts as true (a non-zero number,
    [true], an array, an object). *)
Inductive Field :=
| Text (s : jsstring)
| Falsy
| Truthy.

(** The truth value of a field: of the strings, [""] alone is falsy. *)
Definition fieldTruthy (f : Field) : bool :=
  match f with
  | Text (_ :: _) => true
  | Text [] => false
  | Falsy => false
  | Truthy => true
  end.

(** The two tables of [keys.db]. A row of [licenses] is a key and its
    fingerprint, [None] for [NULL]; both columns hold text as the database
    keeps it ([stored]). *)
Record Db := mkDb {
  licenses : list (jsstring * option jsstring);
  login_logs : list LoginLog
}.

Definition ADMIN_KEYS : list jsstring :=
  [text "zaojuzi777"%string; text "haibaihe"%string].

(** The status code of a response and the [success] and [isAdmin] fields
    of its body. *)
Record Response := mkResponse {
  res_status : Z;
  res_success : bool;
  res_isAdmin : bool
}.

(** The fingerprint of the first row whose key column holds the text
    [key]. *)
Fixpoint rowOf (rows : list (jsstring * option jsstring)) (key : jsstring)
  : option (option jsstring) :=
  match rows with
  | [] => None
  | (k, f) :: rows' =>
      if jsstring_eqb k key then Some f else rowOf rows' key
  end.

(** [SELECT * FROM licenses WHERE key = ?] with [get(key)]: the key of the
    request is bound to the statement, and the rows are compared with what
    the database keeps of it. *)
Definition selectLicense (rows : list (jsstring * option jsstring))
  (key : jsstring) : option (option jsstring) :=
  rowOf rows (stored key).

(** [UPDATE licenses SET fingerprint = ? WHERE key = ?] with
    [run(fingerprint, key)]. *)
Definition updateFingerprint (rows : list (jsstring * option jsstring))
  (fingerprint key : jsstring) : list (jsstring * option jsstring) :=
  map (fun row => if jsstring_eqb row.1 (stored key)
                  then (row.1, Some (stored fingerprint))
                  else row) rows.

(** [POST /api/verify] with the JSON object [{ key, fingerprint }] as its
    body, from the address [ip]: the database afterwards and the response.
    The model covers the bodies whose two fields are strings or falsy; for
    a field that is truthy and not a string, which the handler would hand
    to the database as it is, it gives [None]. *)
Definition verify (db : Db) (key fingerprint : Field) (ip : jsstring)
  : option (Db * Response) :=
  if negb (fieldTruthy key) || negb (fieldTruthy fingerprint)
  then Some (db, mkResponse 400 false false)
  else
    match key, fingerprint with
    | Text k, Text f =>
        let logLogin (rows : list (jsstring * option jsstring))
                     (st : LoginStatus) :=
          mkDb rows
               (login_logs db ++ [mkLog (stored k) (stored f) (stored ip) st])
        in
        Some
          (if includes ADMIN_KEYS k
           then (logLogin (licenses db) admin_success,
                 mkResponse 200 true true)
           else
             match selectLicense (licenses db) k with
             | None =>
                 (logLogin (licenses db) invalid_key,
                  mkResponse 404 false false)
             | Some bound =>
                 if truthy bound
                 then
                   if match bound with
                      | Some b => jsstring_eqb b f
                      | None => false
                      end
                   then (logLogin (licenses db) success,
                         mkResponse 200 true false)
                   else (logLogin (licenses db) fingerprint_mismatch,
                         mkResponse 403 false false)
                 else
                   (logLogin (updateFingerprint (licenses db) f k)
                             bound_success,
                    mkResponse 200 true false)
             end)
    | _, _ => None
    end.

(** [isAdmin(req)]: the [x-admin-key] header is one of the admin keys. *)
Definition isAdmin (adminKey : option jsstring) : bool :=
  match adminKey with
  | Some k => includes ADMIN_KEYS k
  | None => false
  end.

(** [GET /api/admin/keys]: the rows of [licenses], for an admin. *)
Definition listKeys (db : Db) (adminKey : option jsstring)
  : Response * list (jsstring * option jsstring) :=
  if isAdmin adminKey then (mkResponse 200 false false, licenses db)
  else (mkResponse 403 false false, []).

(** [POST /api/admin/keys] with the JSON object [{ key }] as its body: the
    [INSERT] fails on a key the table already holds, the column being the
    primary key. As for [verify], a key that is truthy and not a string is
    left to [None]. *)
Definition addKey (db : Db) (adminKey : option jsstring) (key : Field)
  : option (Db * Response) :=
  if negb (isAdmin adminKey) then Some (db, mkResponse 403 false false)
  else if negb (fieldTruthy key) then Some (db, mkResponse 400 false false)
  else
    match key with
    | Text k =>
        Some
          match selectLicense (licenses db) k with
          | Some _ => (db, mkResponse 400 false false)
          | None =>
              (mkDb (licenses db ++ [(stored k, None)]) (login_logs db),
               mkResponse 200 true false)
          end
    | _ => None
    end.

(** [DELETE /api/admin/keys/:key]; the key is a segment of the path, a
    string. *)
Definition deleteKey (db : Db) (adminKey : option jsstring) (key : jsstring)
  : Db * Response :=
  if negb (isAdmin adminKey) then (db, mkResponse 403 false false)
  else
    (mkDb (List.filter (fun row => negb (jsstring_eqb row.1 (stored key)))
                       (licenses db))
          (login_logs db),
     mkResponse 200 true false).

(** The database the server starts from when [keys.db] is new: the two
    test keys, not bound. *)
Definition initialDb : Db :=
  mkDb [(text "VIP-8888"%string, None); (text "TEST-0000"%string, None)] [].

(* ================================================================== *)
(** * Vocabulary of the properties *)
(* ================================================================== *)

(** ** The nearest-colour scan *)

(** What holds of [(minDistance, closest)] once the entries [pre] of the
    palette [pal] have been scanned. *)
Definition scanInv (target : triple) (pal pre : list ColorInfo)
  (acc : float * option ColorInfo) : Prop :=
  (forall e', In e' pre -> (deltaE target (lab e') <? acc.1)%float = false)
  /\ ((acc.1 = infinity /\ acc.2 = List.head pal)
      \/ (exists (i : nat) (e : ColorInfo),
            acc.2 = Some e /\ pre !! i = Some e
            /\ acc.1 = deltaE target (lab e)
            /\ forall (j : nat) (e' : ColorInfo),
                 (j < i)%nat -> pre !! j = Some e' ->
                 (deltaE target (lab e') =? deltaE target (lab e))%float
                 = false)).

(** ** Palette parsing *)

(** The entries one data line adds to the palette of [brand]. *)
Definition lineEntries (headers : list jsstring) (line : jsstring)
  (brand : BrandName) : list ColorInfo :=
  if rowSkipped (hexField line) then []
  else
    match brandCode headers (split 44 line) brand with
    | Some code =>
        let rgb := hexToRgb (hexField line) in
        [mkColorInfo code rgb (rgbToLab (rgb.1.1) (rgb.1.2) (rgb.2)) None]
    | None => []
    end.

(** ** Sampling blocks *)

(** The sixteen pixels of the 4 x 4 block of cell [(r, c)], row by row. *)
Definition blockOf (r c : Z) : list (Z * Z) :=
  flat_map (fun y => map (fun x => (y, x))
                         [4 * c; 4 * c + 1; 4 * c + 2; 4 * c + 3])
           [4 * r; 4 * r + 1; 4 * r + 2; 4 * r + 3].

Section BlockVocabulary.

Variable procData : list Byte.byte.
Variables targetW targetH : Z.
Variable brightness : float.
Variable removeBackground : bool.
Variable backgroundTolerance : float.

(** The brightness-adjusted, clamped channels of one pixel. *)
Definition redAt (p : Z * Z) : float :=
  adjusted procData brightness ((p.1 * procW targetW + p.2) * 4).
Definition greenAt (p : Z * Z) : float :=
  adjusted procData brightness ((p.1 * procW targetW + p.2) * 4 + 1).
Definition blueAt (p : Z * Z) : float :=
  adjusted procData brightness ((p.1 * procW targetW + p.2) * 4 + 2).

(** A pixel the block loops treat as transparent: [alpha < 10]. *)
Definition transparentAt (p : Z * Z) : bool :=
  (byteAt procData ((p.1 * procW targetW + p.2) * 4 + 3) <? 10)%float.

(** The number of pixels of [px] that the mask read by the block loops
    marks as background. *)
Definition maskedCount (px : list (Z * Z)) : Z :=
  Z.of_nat (length (List.filter (fun p => masked procData targetW targetH removeBackground
                              backgroundTolerance p.1 p.2) px)).

(** Left-to-right floating-point sum, from [0]. *)
Definition sumFloats (vals : list float) : float :=
  fold_left PrimFloat.add vals 0%float.

(** The arithmetic mean [sum / count]. *)
Definition meanOf (vals : list float) : float :=
  (sumFloats vals / Z2F (Z.of_nat (length vals)))%float.

End BlockVocabulary.

(** ** The gradient-enhanced pass *)

Section EnhanceVocabulary.

Variables targetW targetH : Z.
Variable g : list (list RawCell).

(** The neighbours of [(r, c)] that exist in the grid: up, down, left,
    right, those outside the grid left out. *)
Definition neighborsOf (r c : Z) : list (Z * Z) :=
  List.filter (fun p => inGrid targetW targetH p.1 p.2)
              (map (fun d => (r + d.1, c + d.2)) dirs).

(** The sum over the three channels of the absolute differences. *)
Definition channelDiff (a b : RawCell) : float :=
  (Math_abs (raw_r a - raw_r b) + Math_abs (raw_g a - raw_g b)
   + Math_abs (raw_b a - raw_b b))%float.

(** The average, over the existing neighbours, of the difference to the
    centre; [0] for a cell without neighbours. *)
Definition averageDiff (r c : Z) : float :=
  let ns := neighborsOf r c in
  if 0 <? Z.of_nat (length ns)
  then (fold_left (fun s p => s + channelDiff (tableAt g r c)
                                              (tableAt g p.1 p.2))%float
                  ns 0%float
        / Z2F (Z.of_nat (length ns)))%float
  else 0%float.

(** [2 * center - 0.1 * n1 - ... - 0.1 * nk - 0.1 * missing * center] on
    one channel, for the existing neighbours [n1 ... nk] and [missing] the
    number of those outside the grid, clamped to [[0, 255]]. *)
Definition sharpened (center : float) (ns : list float) : float :=
  clamp255
    (fold_left (fun s n => s - 0.1 * n)%float ns (2 * center)%float
     - 0.1 * Z2F (4 - Z.of_nat (length ns)) * center)%float.

End EnhanceVocabulary.

(** ** A uniformly coloured, opaque buffer *)

(** The number a byte of pixel data reads as. *)
Definition byteValue (b : Byte.byte) : float := Z2F (Z.of_N (Byte.to_N b)).

(** The cell a strategy produces resolves to [entry]: it is the copy of
    [entry], with or without the background mark. *)
Definition resolvesTo (cell : GridCell) (entry : option ColorInfo) : Prop :=
  cell = spread entry \/ cell = markExternal (spread entry).

(** A copy of the palette entry nearest to the colour [(red, green, blue)],
    marked as background only if background removal is on. *)
Definition uniformCell (red green blue : Byte.byte) (paletteKey : PaletteKey)
  (removeBackground : bool) (cell : GridCell) : Prop :=
  let nearestEntry :=
    findClosestColor (byteValue red) (byteValue green) (byteValue blue)
                     paletteKey in
  exists flag : bool,
    cell = (if flag then markExternal (spread nearestEntry)
            else spread nearestEntry)
    /\ (removeBackground = false -> flag = false).

(** ** The background flood fill *)

(** The number of flags still clear. *)
Definition countClear (a : list bool) : nat := length (List.filter negb a).

(** Two pixels that share an edge. *)
Definition adjacent4 (p q : Z * Z) : Prop :=
  (q.1 = p.1 - 1 /\ q.2 = p.2) \/ (q.1 = p.1 + 1 /\ q.2 = p.2)
  \/ (q.1 = p.1 /\ q.2 = p.2 - 1) \/ (q.1 = p.1 /\ q.2 = p.2 + 1).

Section FillVocabulary.

Variable procData : list Byte.byte.
Variables targetW targetH : Z.
Variable backgroundTolerance : float.

(** The position of pixel [(row, column)] in the two flag tables. *)
Definition pixelIndex (p : Z * Z) : Z := p.1 * procW targetW + p.2.

Definition insideBuffer (p : Z * Z) : Prop :=
  0 <= p.1 < procH targetH /\ 0 <= p.2 < procW targetW.

(** The colour test of the fill at a pixel: the distance to white is below
    twice the tolerance. *)
Definition backgroundColoured (p : Z * Z) : bool :=
  isBgColor procData backgroundTolerance (pixelIndex p * 4).

(** [p] is background-coloured and joined to a corner pixel by a path of
    edge-sharing, background-coloured pixels of the buffer. *)
Inductive cornerReachable : Z * Z -> Prop :=
| reach_corner (p : Z * Z) :
    In p (corners targetW targetH) -> backgroundColoured p = true ->
    cornerReachable p
| reach_step (p q : Z * Z) :
    cornerReachable p -> adjacent4 p q -> insideBuffer q ->
    backgroundColoured q = true -> cornerReachable q.

(** A queue entry is a corner or a neighbour of a masked pixel. *)
Definition onFrontier (q : Z * Z) : Prop :=
  In q (corners targetW targetH)
  \/ exists p, cornerReachable p /\ adjacent4 p q.

(** What holds of the loop variables before and after every iteration. *)
Record fillInv (st : FillState) : Prop := mkFillInv {
  inv_vlen : length (visited st) = pixelCount targetW targetH;
  inv_mlen : length (isBackgroundMask st) = pixelCount targetW targetH;
  inv_head : (head st <= length (queue st))%nat;
  inv_queue : forall q, In q (queue st) -> insideBuffer q /\ onFrontier q;
  inv_sound : forall p,
      insideBuffer p -> getFlag (isBackgroundMask st) (pixelIndex p) = true ->
      cornerReachable p;
  inv_coloured : forall p,
      insideBuffer p -> getFlag (visited st) (pixelIndex p) = true ->
      backgroundColoured p = true ->
      getFlag (isBackgroundMask st) (pixelIndex p) = true;
  inv_corners : forall p,
      In p (corners targetW targetH) ->
      getFlag (visited st) (pixelIndex p) = true
      \/ In p (drop (head st) (queue st));
  inv_neighbors : forall p q,
      insideBuffer p -> getFlag (isBackgroundMask st) (pixelIndex p) = true ->
      adjacent4 p q -> insideBuffer q ->
      getFlag (visited st) (pixelIndex q) = true
      \/ In q (drop (head st) (queue st))
}.

(** The iterations still to come are bounded by this. *)
Definition fillMeasure (st : FillState) : nat :=
  4 * countClear (visited st) + (length (queue st) - head st).

End FillVocabulary.

(** ** The buffer and the grid, in the words of the design *)

(** The definitions of this part are written from the design document,
    not from the program: the properties compare what the generator, the
    matcher and the parser compute with them. Of the program they use the
    colour metric alone ([rgbToLab] and [deltaE]), in which the design
    states what is nearest. *)

(** A channel clamped to [[0, 255]]: a value not above 0 becomes 0, a value
    not below 255 becomes 255, any other value is kept. *)
Definition clampToRange (v : float) : float :=
  if (v <=? 0)%float then 0%float
  else if (255 <=? v)%float then 255%float
  else v.

(** The Euclidean distance of two colours. *)
Definition euclideanDistance (x y : triple) : float :=
  Math_sqrt (Math_pow (x.1.1 - y.1.1) 2 + Math_pow (x.1.2 - y.1.2) 2
             + Math_pow (x.2 - y.2) 2)%float.

Definition pureWhite : triple := (255%float, 255%float, 255%float).

(** A sampled channel after the brightness offset [brightness * 15] and
    the clamp. *)
Definition brightened (brightness v : float) : float :=
  clampToRange (v + brightness * 15)%float.

Section BufferVocabulary.

(** A buffer of [bufferW x bufferH] pixels, four bytes (R, G, B, A) per
    pixel, row by row. *)
Variable buffer : list Byte.byte.
Variables bufferW bufferH : Z.
Variable tolerance : float.

(** The byte of channel [k] of the pixel in row [p.1] and column [p.2]. *)
Definition channelOf (p : Z * Z) (k : Z) : option Byte.byte :=
  buffer !! Z.to_nat (4 * (p.1 * bufferW + p.2) + k).

(** The colour of a pixel, if the buffer holds it. *)
Definition colourOf (p : Z * Z) : option triple :=
  match channelOf p 0, channelOf p 1, channelOf p 2 with
  | Some r, Some g, Some b => Some (byteValue r, byteValue g, byteValue b)
  | _, _, _ => None
  end.

(** A background-coloured pixel: its Euclidean distance to pure white is
    below twice the tolerance. *)
Definition nearWhite (p : Z * Z) : bool :=
  match colourOf p with
  | Some colour => (euclideanDistance pureWhite colour <? 2 * tolerance)%float
  | None => false
  end.

Definition inBuffer (p : Z * Z) : Prop :=
  0 <= p.1 < bufferH /\ 0 <= p.2 < bufferW.

(** The four corner pixels. *)
Definition cornerPixels : list (Z * Z) :=
  [(0, 0); (0, bufferW - 1); (bufferH - 1, 0); (bufferH - 1, bufferW - 1)].

(** [p] is the end of a path that starts at a corner pixel, goes from a
    pixel to one that shares an edge with it, and stays on
    background-coloured pixels of the buffer. *)
Inductive cornerConnected : Z * Z -> Prop :=
| connected_corner (p : Z * Z) :
    In p cornerPixels -> nearWhite p = true -> cornerConnected p
| connected_step (p q : Z * Z) :
    cornerConnected p -> adjacent4 p q -> inBuffer q ->
    nearWhite q = true -> cornerConnected q.

(** The number of pixels of [px] whose flag is set in a mask that holds
    one flag per pixel, row by row. *)
Definition flaggedCount (mask : list bool) (px : list (Z * Z)) : Z :=
  Z.of_nat (length (List.filter (fun p => getFlag mask (p.1 * bufferW + p.2))
                                px)).

End BufferVocabulary.

Section GridVocabulary.

(** A grid of [gridH] rows of [gridW] cells. *)
Variables gridW gridH : Z.

(** The cells next to the cell [(r, c)] of the grid that exist: the one
    above, the one below, the one to the left and the one to the right,
    each left out when the cell is on that border. *)
Definition existingNeighbours (r c : Z) : list (Z * Z) :=
  (if 1 <=? r then [(r - 1, c)] else [])
  ++ (if r + 1 <? gridH then [(r + 1, c)] else [])
  ++ (if 1 <=? c then [(r, c - 1)] else [])
  ++ (if c + 1 <? gridW then [(r, c + 1)] else []).

End GridVocabulary.

(** The average, over the neighbours [ns] of a cell, of the sum over the
    three channels of the absolute difference to the cell; [0] when there
    is no neighbour. *)
Definition meanDifference (center : RawCell) (ns : list RawCell) : float :=
  match ns with
  | [] => 0%float
  | _ => (sumFloats (map (channelDiff center) ns)
          / Z2F (Z.of_nat (length ns)))%float
  end.

(** [2 * center - 0.1 * n1 - ... - 0.1 * nk - 0.1 * missing * center] on
    one channel, for the existing neighbours [n1 ... nk] and [missing] the
    number of the four that do not exist, clamped to [[0, 255]]. *)
Definition unsharp (center : float) (ns : list float) : float :=
  clampToRange
    (fold_left (fun s n => s - 0.1 * n)%float ns (2 * center)%float
     - 0.1 * Z2F (4 - Z.of_nat (length ns)) * center)%float.

(** [entry] is at position [i] of the palette, no entry of the palette is
    nearer to [target], and no entry before it is as near: it is the first
    of the nearest entries. *)
Definition firstNearest (palette : list ColorInfo) (target : triple)
  (i : nat) (entry : ColorInfo) : Prop :=
  palette !! i = Some entry
  /\ (forall e', In e' palette ->
        (deltaE target (lab e') <? deltaE target (lab entry))%float = false)
  /\ forall (j : nat) (e' : ColorInfo),
       (j < i)%nat -> palette !! j = Some e' ->
       (deltaE target (lab e') =? deltaE target (lab entry))%float = false.

(** The field at position [i] of a comma-separated line. *)
Definition fieldAt (line : jsstring) (i : nat) : option jsstring :=
  split 44 line !! i.

(** The column of a brand: the first field of the header line that is the
    brand's label. *)
Definition brandColumn (header : jsstring) (brand : BrandName) (i : nat)
  : Prop :=
  fieldAt header i = Some (brandLabel brand)
  /\ forall j : nat, (j < i)%nat -> fieldAt header j <> Some (brandLabel brand).

(** The palette entry of a row that is read as black. *)
Definition blackEntry (code : jsstring) : ColorInfo :=
  mkColorInfo code (0%float, 0%float, 0%float) (rgbToLab 0 0 0) None.

(** ** Signs of binary64 numbers *)

(** A spec float that is not below zero: [NaN], a zero, or positive. *)
Definition SFnonneg (s : spec_float) : bool :=
  match s with
  | S754_finite true _ _ | S754_infinity true => false
  | _ => true
  end.

(** A spec float that is not above zero: [NaN], a zero, or negative. *)
Definition SFnonpos (s : spec_float) : bool :=
  match s with
  | S754_finite false _ _ | S754_infinity false => false
  | _ => true
  end.

(** A number that [Number.isFinite] accepts. *)
Definition isFiniteNumber (x : float) : bool :=
  match Prim2SF x with
  | S754_zero _ | S754_finite _ _ _ => true
  | _ => false
  end.

(** ** Hex fields *)

(** The match of the six-digit body of a hex field, once the optional [#]
    is gone. *)
Definition sixHexDigits (body : jsstring)
  : option ((char16 * char16) * (char16 * char16) * (char16 * char16)) :=
  match body with
  | [c1; c2; c3; c4; c5; c6] =>
      if forallb isHexDigit body
      then Some ((c1, c2), (c3, c4), (c5, c6))
      else None
  | _ => None
  end.

(** The upper-case form of a lower-case hexadecimal letter. *)
Definition upperHex (c : char16) : char16 :=
  if (97 <=? c) && (c <=? 102) then c - 32 else c.

(** A channel value a hex pair can denote. *)
Definition isByteTriple (t : triple) : Prop :=
  exists r g b : Z,
    t = (Z2F r, Z2F g, Z2F b)
    /\ 0 <= r <= 255 /\ 0 <= g <= 255 /\ 0 <= b <= 255.

(** ** Cells and the palette *)

(** The cell carries the code and colour of an entry of the palette of
    [key]; the empty object stands for the nearest entry of an empty
    palette. *)
Definition fromPalette (key : PaletteKey) (cell : GridCell) : Prop :=
  match cell with
  | CellOf i =>
      exists e, In e (palettes key)
                /\ code i = code e /\ rgb i = rgb e /\ lab i = lab e
  | CellEmpty _ => palettes key = []
  end.

(** ** Colour buckets *)

Section PoolVocabulary.

Variable procData : list Byte.byte.
Variables targetW targetH : Z.
Variable brightness : float.
Variable removeBackground : bool.
Variable backgroundTolerance : float.

(** The bucket a pixel is counted in: its adjusted channels, each rounded
    to the nearest multiple of ten. *)
Definition pixelKey (p : Z * Z) : triple :=
  bucketKey (redAt procData targetW brightness p)
            (greenAt procData targetW brightness p)
            (blueAt procData targetW brightness p).

(** Two pixels are counted in the same bucket. *)
Definition sameBucket (p q : Z * Z) : bool :=
  sameKey (pixelKey p) (pixelKey q).

(** The number of opaque pixels of [px] in the bucket of [p]. *)
Definition bucketSize (px : list (Z * Z)) (p : Z * Z) : Z :=
  Z.of_nat
    (length (List.filter
               (fun q => negb (transparentAt procData targetW q)
                         && sameBucket p q) px)).

(** The number of pixels of [px] that are transparent or masked. *)
Definition backgroundCount (px : list (Z * Z)) : Z :=
  Z.of_nat
    (length (List.filter
               (fun p => transparentAt procData targetW p
                         || masked procData targetW targetH removeBackground
                                   backgroundTolerance p.1 p.2) px)).

(** [p], at position [i] of [px], is opaque and no opaque pixel before it
    is in its bucket. *)
Definition leadsBucket (px : list (Z * Z)) (i : nat) (p : Z * Z) : Prop :=
  px !! i = Some p
  /\ transparentAt procData targetW p = false
  /\ forall (j : nat) (q : Z * Z),
       (j < i)%nat -> px !! j = Some q ->
       transparentAt procData targetW q = false -> sameBucket p q = false.

(** The entry of the frequency table for the bucket that [p] leads: the
    key of [p], the exact adjusted colour of [p], and the size of the
    bucket. *)
Definition bucketEntry (px : list (Z * Z)) (p : Z * Z) : triple * Bucket :=
  (pixelKey p,
   mkBucket (redAt procData targetW brightness p)
            (greenAt procData targetW brightness p)
            (blueAt procData targetW brightness p) (bucketSize px p)).

(** What holds of the positions and pixels [leaders] that lead the buckets
    of [px]: they are in scan order, and every opaque pixel is in the
    bucket of one of them. *)
Definition leadersOf (px : list (Z * Z)) (leaders : list (nat * (Z * Z)))
  : Prop :=
  (forall l, In l leaders -> leadsBucket px l.1 l.2)
  /\ StronglySorted (fun a b : nat * (Z * Z) => (a.1 < b.1)%nat) leaders
  /\ forall q, In q px -> transparentAt procData targetW q = false ->
               exists l, In l leaders /\ sameBucket l.2 q = true.

End PoolVocabulary.

(** ** Bead statistics *)

(** The code a statistics entry stands for. *)
Definition statKey (s : Stat) : option jsstring := cellCode (stat_color s).

(** The cells that are not flagged background. *)
Definition beadCells (cells : list GridCell) : list GridCell :=
  List.filter (fun c => negb (cellIsExternal c)) cells.

(** The number of cells of [cells] that are not flagged background and
    carry the code [key]. *)
Definition beadsOf (cells : list GridCell) (key : option jsstring) : Z :=
  Z.of_nat
    (length (List.filter (fun c => sameCode (cellCode c) key)
                         (beadCells cells))).

(** The sum of the counts of a list of entries. *)
Definition totalOf (l : list Stat) : Z :=
  fold_right (fun s acc => stat_count s + acc) 0 l.


(** A grid of two rows of three cells: two [H1], one [H2], one background
    cell and, twice, the empty object. *)
Definition sampleBeads : Grid :=
  let bead c ext :=
    CellOf (mkColorInfo c (0, 0, 0)%float (0, 0, 0)%float ext) in
  [[bead (text "H2"%string) None; bead (text "H1"%string) None;
    CellEmpty None];
   [bead (text "H1"%string) (Some true); bead (text "H1"%string) None;
    CellEmpty None]].

(** What holds of the map once the cells [cells] are counted. *)
Definition countedCells (cells : list GridCell)
  (m : list (option jsstring * Stat)) : Prop :=
  List.NoDup (map fst m)
  /\ totalOf (map snd m) = Z.of_nat (length (beadCells cells))
  /\ (forall k s, In (k, s) m ->
        statKey s = k /\ stat_count s = beadsOf cells k
        /\ In (stat_color s) cells /\ cellIsExternal (stat_color s) = false)
  /\ forall c, In c cells -> cellIsExternal c = false ->
               statsHas m (cellCode c) = true.

(** ** The colour selection *)

(** What the user can do to the selection: click a cell or a statistics
    entry of some code, press the lock button, clear. *)
Inductive SelectionEvent :=
| Click (code : jsstring)
| LockButton
| Clear.

Definition applyEvent (st : Selection) (ev : SelectionEvent) : Selection :=
  match ev with
  | Click code => toggleColorSelection st code
  | LockButton => toggleLock st
  | Clear => clearSelection st
  end.

(** The state of a freshly mounted component. *)
Definition initialSelection : Selection := mkSelection [] false None.

(** ** The fingerprint hash *)

(** The code units of a string read as the digits of a number in base
    31, the first unit the most significant. *)
Definition base31 (s : jsstring) : Z :=
  fold_left (fun acc c => 31 * acc + c) s 0.

(** The number a string of hexadecimal digits denotes. *)
Definition hexValue (s : jsstring) : Z :=
  fold_left (fun acc c => 16 * acc + hexDigitValue c) s 0.

(** A digit [0-9] or a lower-case letter [a-f]. *)
Definition isLowerHexDigit (c : char16) : bool :=
  ((48 <=? c) && (c <=? 57)) || ((97 <=? c) && (c <=? 102)).

(** ** The licence server *)

(** A request to [POST /api/verify]. *)
Record Request := mkRequest {
  req_key : Field;
  req_fingerprint : Field;
  req_ip : jsstring
}.

(** The server answering a sequence of verification requests: the
    database at the end and the responses, in order; [None] when one of the
    requests is outside the model. *)
Fixpoint verifyAll (db : Db) (reqs : list Request)
  : option (Db * list Response) :=
  match reqs with
  | [] => Some (db, [])
  | req :: reqs' =>
      match verify db (req_key req) (req_fingerprint req) (req_ip req) with
      | Some (db', answer) =>
          match verifyAll db' reqs' with
          | Some (db'', answers) => Some (db'', answer :: answers)
          | None => None
          end
      | None => None
      end
  end.

(** A string without a lone surrogate: the database keeps it as it is. *)
Definition wellFormed (s : jsstring) : Prop := stored s = s.

(** The row of the key holds the fingerprint [f]. *)
Definition boundTo (db : Db) (key f : jsstring) : Prop :=
  selectLicense (licenses db) key = Some (Some f) /\ f <> [].

(** What reaches the server: a verification request, or one of the two
    admin requests that write, each with its [x-admin-key] header. *)
Inductive ServerEvent :=
| Verify (req : Request)
| AddKey (adminKey : option jsstring) (key : Field)
| DeleteKey (adminKey : option jsstring) (key : jsstring).

Definition serverStep (db : Db) (ev : ServerEvent) : option Db :=
  match ev with
  | Verify req =>
      option_map fst
        (verify db (req_key req) (req_fingerprint req) (req_ip req))
  | AddKey adminKey key => option_map fst (addKey db adminKey key)
  | DeleteKey adminKey key => Some (deleteKey db adminKey key).1
  end.

(** The database after a sequence of requests; [None] when one of them is
    outside the model. *)
Fixpoint serverRun (db : Db) (events : list ServerEvent) : option Db :=
  match events with
  | [] => Some db
  | ev :: events' =>
      match serverStep db ev with
      | Some db' => serverRun db' events'
      | None => None
      end
  end.

(** The request carries no admin key in its header. *)
Definition fromOutside (ev : ServerEvent) : Prop :=
  match ev with
  | Verify _ => True
  | AddKey adminKey _ | DeleteKey adminKey _ => isAdmin adminKey = false
  end.

(** What the [licenses] table satisfies: the keys are pairwise distinct
    and not empty, a fingerprint that is there is not empty, and keys and
    fingerprints are text as the database keeps it. *)
Definition wellKept (db : Db) : Prop :=
  List.NoDup (map fst (licenses db))
  /\ (forall k, In k (map fst (licenses db)) -> k <> [] /\ wellFormed k)
  /\ forall k f, In (k, Some f) (licenses db) -> f <> [] /\ wellFormed f.

(* ================================================================== *)
(** * Properties *)
(* ================================================================== *)

(** ** Binary64 arithmetic *)

Lemma binary_round_aux_opp (prec emax : Z) (s : bool) (mx ex : Z) (lx : location) :
  binary_round_aux prec emax (negb s) mx ex lx
  = SFopp (binary_round_aux prec emax s mx ex lx).
Proof.
  unfold binary_round_aux.
  destruct (shr_fexp prec emax mx ex lx) as [mrs e'].
  destruct (shr_fexp prec emax _ e' loc_Exact) as [mrs' e''].
  destruct (shr_m mrs'); [reflexivity | | reflexivity].
  destruct (e'' <=? emax - prec); reflexivity.
Qed.

Lemma SFmul_opp_r (prec emax : Z) (a b : spec_float) :
  SFmul prec emax a (SFopp b) = SFopp (SFmul prec emax a b).
Proof.
  destruct a as [sa|sa| |sa ma ea], b as [sb|sb| |sb mb eb]; cbn [SFmul SFopp];
    rewrite <- ?negb_xorb_r; try reflexivity.
  apply binary_round_aux_opp.
Qed.

Lemma SFadd_opp_r (prec emax : Z) (a b : spec_float) :
  SFadd prec emax a (SFopp b) = SFsub prec emax a b.
Proof.
  destruct a as [[]|[]| |[] ma ea], b as [[]|[]| |[] mb eb]; reflexivity.
Qed.

Lemma SFmul_comm (prec emax : Z) (a b : spec_float) :
  SFmul prec emax a b = SFmul prec emax b a.
Proof.
  destruct a as [sa|sa| |sa ma ea], b as [sb|sb| |sb mb eb]; cbn [SFmul];
    rewrite ?(xorb_comm sa sb); try reflexivity.
  now rewrite Pos.mul_comm, Z.add_comm.
Qed.

Lemma float_add_opp (x y : float) : (x + - y)%float = (x - y)%float.
Proof.
  apply Prim2SF_inj. rewrite FloatAxioms.add_spec, FloatAxioms.sub_spec, FloatAxioms.opp_spec.
   apply SFadd_opp_r.
Qed.

Lemma float_mul_opp (x y : float) : (x * - y)%float = (- (x * y))%float.
Proof.
  apply Prim2SF_inj. rewrite FloatAxioms.mul_spec, !FloatAxioms.opp_spec, FloatAxioms.mul_spec.
   apply SFmul_opp_r.
Qed.

Lemma float_mul_comm (x y : float) : (x * y)%float = (y * x)%float.
Proof. apply Prim2SF_inj. rewrite !FloatAxioms.mul_spec. apply SFmul_comm. Qed.

Lemma add_tenth_neg (s n : float) :
  (s + n * (-0.1))%float = (s - 0.1 * n)%float.
Proof.
  change (-0.1)%float with (PrimFloat.opp 0.1).
  now rewrite float_mul_opp, float_add_opp, (float_mul_comm n).
Qed.

Lemma add_times_tenth_neg (s c m : float) :
  (s + c * (m * (-0.1)))%float = (s - 0.1 * m * c)%float.
Proof.
  change (-0.1)%float with (PrimFloat.opp 0.1).
  rewrite !float_mul_opp, float_add_opp.
  now rewrite (float_mul_comm c), (float_mul_comm m).
Qed.

Lemma fold_tenth_neg (ns : list float) (s : float) :
  fold_left (fun s n => s + n * (-0.1))%float ns s
  = fold_left (fun s n => s - 0.1 * n)%float ns s.
Proof.
  revert s. induction ns as [|n ns IH]; intros s; [reflexivity|].
  cbn [fold_left]. now rewrite add_tenth_neg, IH.
Qed.


Lemma SFltb_trans (x y z : spec_float) :
  SFltb x y = true -> SFltb y z = true -> SFltb x z = true.
Proof.
  unfold SFltb, SFcompare.
  destruct x as [[]|[]| |[] mx ex], y as [[]|[]| |[] my ey],
           z as [[]|[]| |[] mz ez]; simpl; try congruence.
  all: fold (Pos.compare mx my); fold (Pos.compare my mz);
       fold (Pos.compare mx mz).
  all: destruct (Z.compare_spec ex ey), (Z.compare_spec ey ez),
                (Z.compare_spec ex ez); try congruence; try lia; subst.
  all: destruct (Pos.compare_spec mx my), (Pos.compare_spec my mz),
                (Pos.compare_spec mx mz); simpl; try congruence; try lia.
Qed.

Lemma SFeqb_ltb_trans (x y z : spec_float) :
  SFeqb x y = true -> SFltb y z = true -> SFltb x z = true.
Proof.
  unfold SFltb, SFeqb, SFcompare.
  destruct x as [[]|[]| |[] mx ex], y as [[]|[]| |[] my ey],
           z as [[]|[]| |[] mz ez]; simpl; try congruence.
  all: fold (Pos.compare mx my); fold (Pos.compare my mz);
       fold (Pos.compare mx mz).
  all: destruct (Z.compare_spec ex ey), (Z.compare_spec ey ez),
                (Z.compare_spec ex ez); try congruence; try lia; subst.
  all: destruct (Pos.compare_spec mx my), (Pos.compare_spec my mz),
                (Pos.compare_spec mx mz); simpl; try congruence; try lia.
Qed.

Lemma SFltb_irrefl (x : spec_float) : SFltb x x = false.
Proof.
  unfold SFltb, SFcompare.
  destruct x as [[]|[]| |[] mx ex]; simpl; try reflexivity.
  all: rewrite Z.compare_refl; fold (Pos.compare mx mx);
       rewrite Pos.compare_refl; reflexivity.
Qed.

Lemma SFltb_infinity (x y : spec_float) :
  SFltb x y = true -> SFltb x (S754_infinity false) = true.
Proof.
  unfold SFltb, SFcompare.
  destruct x as [[]|[]| |[] mx ex], y as [[]|[]| |[] my ey]; simpl;
    congruence.
Qed.

Lemma ltb_trans (x y z : float) :
  (x <? y)%float = true -> (y <? z)%float = true -> (x <? z)%float = true.
Proof. rewrite !FloatAxioms.ltb_spec. apply SFltb_trans. Qed.

Lemma eqb_ltb_trans (x y z : float) :
  (x =? y)%float = true -> (y <? z)%float = true -> (x <? z)%float = true.
Proof. rewrite !FloatAxioms.ltb_spec, FloatAxioms.eqb_spec. apply SFeqb_ltb_trans. Qed.

Lemma ltb_irrefl (x : float) : (x <? x)%float = false.
Proof. rewrite FloatAxioms.ltb_spec. apply SFltb_irrefl. Qed.

Lemma ltb_infinity (x y : float) :
  (x <? y)%float = true -> (x <? infinity)%float = true.
Proof.
  rewrite !FloatAxioms.ltb_spec. change (Prim2SF infinity) with (S754_infinity false).
  apply SFltb_infinity.
Qed.

(** ** The nearest-colour scan *)

Section Scan.

Variable target : triple.

Local Abbreviation scanInv := (Core.scanInv target).

Lemma scanInv_step (pal pre : list ColorInfo) acc (x : ColorInfo) :
  scanInv pal pre acc -> scanInv pal (pre ++ [x]) (closerOf target acc x).
Proof.
  intros [Hmin Hsel]. unfold closerOf.
  destruct (deltaE target (lab x) <? acc.1)%float eqn:Hlt.
  - split; cbn [fst snd].
    + intros e' Hin. apply in_app_or in Hin as [Hin | [<- | []]].
      * destruct (deltaE target (lab e') <? deltaE target (lab x))%float
          eqn:Hcmp; [|reflexivity].
        rewrite <- (Hmin e' Hin). symmetry. eapply ltb_trans; eassumption.
      * apply ltb_irrefl.
    + right. exists (length pre), x. repeat split.
      * rewrite lookup_app_r by lia. now rewrite Nat.sub_diag.
      * intros j e' Hj He'. rewrite lookup_app_l in He' by lia.
        destruct (deltaE target (lab e') =? deltaE target (lab x))%float
          eqn:Hcmp; [|reflexivity].
        rewrite <- (Hmin e' (proj1 (list_elem_of_In _ _)
                               (list_elem_of_lookup_2 _ _ _ He'))).
        symmetry. eapply eqb_ltb_trans; eassumption.
  - split.
    + intros e' Hin. apply in_app_or in Hin as [Hin | [<- | []]]; auto.
    + destruct Hsel as [Hnone | (i & e & Hc & Hi & Hm & Hties)];
        [now left | right].
      exists i, e. repeat split; auto.
      * apply lookup_app_l_Some; exact Hi.
      * intros j e' Hj He'. apply (Hties j e' Hj).
        apply lookup_lt_Some in Hi.
        rewrite lookup_app_l in He' by lia. exact He'.
Qed.

Lemma scanInv_fold (pal rest pre : list ColorInfo) acc :
  scanInv pal pre acc ->
  scanInv pal (pre ++ rest) (fold_left (closerOf target) rest acc).
Proof.
  revert pre acc. induction rest as [|x rest IH]; intros pre acc Hinv; simpl.
  - now rewrite app_nil_r.
  - replace (pre ++ x :: rest) with ((pre ++ [x]) ++ rest)
      by now rewrite <- app_assoc.
    apply IH, scanInv_step, Hinv.
Qed.

Lemma scanInv_init (pal : list ColorInfo) :
  scanInv pal [] (infinity, List.head pal).
Proof. split; [intros e' [] | now left]. Qed.

End Scan.

(** C1. On a non-empty palette [findClosestColor] returns an entry of that
    palette (the one at some position [i]); no entry of the palette is
    strictly closer, by [deltaE], to the Lab value of the input; and no entry
    before position [i] is at the same distance, so among the entries at the
    minimum distance the first in palette order is the one returned. *)
Theorem findClosestColor_nearest_first (r g b : float) (paletteKey : PaletteKey) :
  palettes paletteKey <> [] ->
  exists (i : nat) (e : ColorInfo),
    findClosestColor r g b paletteKey = Some e
    /\ palettes paletteKey !! i = Some e
    /\ (forall e', In e' (palettes paletteKey) ->
          (deltaE (rgbToLab r g b) (lab e')
           <? deltaE (rgbToLab r g b) (lab e))%float = false)
    /\ (forall (j : nat) (e' : ColorInfo),
          (j < i)%nat -> palettes paletteKey !! j = Some e' ->
          (deltaE (rgbToLab r g b) (lab e')
           =? deltaE (rgbToLab r g b) (lab e))%float = false).
Proof.
  intros Hne. unfold findClosestColor, findClosestIn.
  set (pal := palettes paletteKey) in *. set (t := rgbToLab r g b).
  pose proof (scanInv_fold t pal pal [] _ (scanInv_init t pal)) as Hinv.
  change ([] ++ pal) with pal in Hinv.
  destruct (fold_left (closerOf t) pal (infinity, List.head pal)) as [m c].
  destruct Hinv as [Hmin [[Hm Hc] | (i & e & Hc & Hi & Hm & Hties)]];
    cbn [fst snd] in *.
  - destruct pal as [|e0 pal']; [contradiction|]. subst m c.
    exists 0%nat, e0. repeat split; try reflexivity.
    + intros e' Hin.
      destruct (deltaE t (lab e') <? deltaE t (lab e0))%float eqn:Hcmp;
        [|reflexivity].
      rewrite <- (Hmin e' Hin). symmetry. eapply ltb_infinity; eassumption.
    + intros j e' Hj. lia.
  - subst m c. exists i, e. repeat split; auto.
Qed.

(** ** Palette parsing *)

Lemma parseLine_entries (headers : list jsstring) (p : Palettes)
  (line : jsstring) (brand : BrandName) :
  parseLine headers p line brand = p brand ++ lineEntries headers line brand.
Proof.
  unfold parseLine, lineEntries.
  destruct (rowSkipped (hexField line)); [now rewrite app_nil_r|].
  unfold brandNames, fold_left, pushEntry.
  destruct brand; cbn [BrandName_eqb];
    repeat match goal with
           | |- context [match brandCode ?h ?l ?b with _ => _ end] =>
               destruct (brandCode h l b)
           end;
    cbn [BrandName_eqb]; rewrite ?app_nil_r; reflexivity.
Qed.

Lemma parseLines_entries (headers : list jsstring) (rows : list jsstring)
  (p : Palettes) (brand : BrandName) :
  fold_left (parseLine headers) rows p brand
  = p brand ++ flat_map (fun line => lineEntries headers line brand) rows.
Proof.
  revert p. induction rows as [|line rows IH]; intros p; simpl.
  - now rewrite app_nil_r.
  - rewrite IH, parseLine_entries, <- app_assoc. reflexivity.
Qed.

Lemma hexMatch_nonhex (body : jsstring) :
  forallb isHexDigit body = false -> hexMatch (35 :: body) = None.
Proof.
  intros Hbad. unfold hexMatch.
  destruct body as [|c1 [|c2 [|c3 [|c4 [|c5 [|c6 [|c7 body]]]]]]];
    try reflexivity.
  now rewrite Hbad.
Qed.

(** ** Block geometry *)

Section Geometry.

Variables targetW targetH : Z.
Hypothesis targetW_pos : 1 <= targetW.
Hypothesis targetH_pos : 1 <= targetH.

Lemma blockW_four : (blockW targetW == 4)%Q.
Proof.
  unfold blockW, procW. rewrite inject_Z_mult. field.
  unfold Qeq; simpl; lia.
Qed.

Lemma blockH_four : (blockH targetH == 4)%Q.
Proof.
  unfold blockH, procH. rewrite inject_Z_mult. field.
  unfold Qeq; simpl; lia.
Qed.

Lemma startX_four (c : Z) : startX targetW c = 4 * c.
Proof.
  unfold startX. rewrite blockW_four.
  change 4%Q with (inject_Z 4). rewrite <- inject_Z_mult, Qfloor_Z. lia.
Qed.

Lemma startY_four (r : Z) : startY targetH r = 4 * r.
Proof.
  unfold startY. rewrite blockH_four.
  change 4%Q with (inject_Z 4). rewrite <- inject_Z_mult, Qfloor_Z. lia.
Qed.

Lemma endX_four (c : Z) : c < targetW -> endX targetW c = 4 * c + 4.
Proof.
  intros Hc. unfold endX, procW. rewrite blockW_four.
  change 4%Q with (inject_Z 4). rewrite <- inject_Z_mult, Qfloor_Z. lia.
Qed.

Lemma endY_four (r : Z) : r < targetH -> endY targetH r = 4 * r + 4.
Proof.
  intros Hr. unfold endY, procH. rewrite blockH_four.
  change 4%Q with (inject_Z 4). rewrite <- inject_Z_mult, Qfloor_Z. lia.
Qed.

Lemma centerX_four (c : Z) :
  Qfloor (inject_Z c * blockW targetW + blockW targetW / 2)%Q = 4 * c + 2.
Proof.
  rewrite blockW_four.
  assert (H : (inject_Z c * 4 + 4 / 2 == inject_Z (4 * c + 2))%Q).
  { rewrite inject_Z_plus, inject_Z_mult. simpl inject_Z. field. }
  rewrite H. apply Qfloor_Z.
Qed.

Lemma centerY_four (r : Z) :
  Qfloor (inject_Z r * blockH targetH + blockH targetH / 2)%Q = 4 * r + 2.
Proof.
  rewrite blockH_four.
  assert (H : (inject_Z r * 4 + 4 / 2 == inject_Z (4 * r + 2))%Q).
  { rewrite inject_Z_plus, inject_Z_mult. simpl inject_Z. field. }
  rewrite H. apply Qfloor_Z.
Qed.

End Geometry.

(** ** Counting loops and tables *)

Lemma rangeZ_length (lo hi : Z) : length (rangeZ lo hi) = Z.to_nat (hi - lo).
Proof. unfold rangeZ. now rewrite length_map, length_seq. Qed.

Lemma rangeZ_at (lo hi i : Z) :
  0 <= i < hi - lo -> at_index (rangeZ lo hi) i = Some (lo + i).
Proof.
  intros Hi. unfold at_index, rangeZ.
  destruct (i <? 0) eqn:Hneg; [lia|].
  rewrite nth_error_map, nth_error_seq.
  destruct (Nat.ltb_spec (Z.to_nat i) (Z.to_nat (hi - lo))); [|lia].
  simpl. f_equal. lia.
Qed.

Lemma rangeZ_four (lo : Z) :
  rangeZ lo (lo + 4) = [lo; lo + 1; lo + 2; lo + 3].
Proof.
  unfold rangeZ. replace (lo + 4 - lo) with 4 by lia.
  change (Z.to_nat 4) with 4%nat. cbn [seq map].
  repeat (f_equal; try lia).
Qed.

Lemma at_index_map {A B : Type} (f : A -> B) (l : list A) (i : Z) :
  at_index (map f l) i = option_map f (at_index l i).
Proof.
  unfold at_index. destruct (i <? 0); [reflexivity|].
  apply nth_error_map.
Qed.

Section Tables.

Variables targetW targetH : Z.
Context {A : Type}.
Variable f : Z -> Z -> A.

Lemma tabulate_length : length (tabulate targetW targetH f) = Z.to_nat targetH.
Proof. unfold tabulate. now rewrite length_map, rangeZ_length, Z.sub_0_r. Qed.

Lemma tabulate_rows (row : list A) :
  In row (tabulate targetW targetH f) -> length row = Z.to_nat targetW.
Proof.
  unfold tabulate. rewrite in_map_iff. intros (r & <- & _).
  now rewrite length_map, rangeZ_length, Z.sub_0_r.
Qed.

Lemma tabulate_at (r c : Z) :
  0 <= r < targetH -> 0 <= c < targetW ->
  at_index2 (tabulate targetW targetH f) r c = Some (f r c).
Proof.
  intros Hr Hc. unfold at_index2, tabulate.
  rewrite at_index_map, rangeZ_at by lia. cbn [option_map].
  rewrite at_index_map, rangeZ_at by lia. reflexivity.
Qed.

End Tables.

Lemma tableAt_tabulate (targetW targetH : Z) (f : Z -> Z -> RawCell)
  (r c : Z) :
  0 <= r < targetH -> 0 <= c < targetW ->
  tableAt (tabulate targetW targetH f) r c = f r c.
Proof. intros Hr Hc. unfold tableAt. now rewrite tabulate_at. Qed.

(** ** The size of the grid *)

Section GridSize.

Variable procData : list Byte.byte.
Variables targetW targetH : Z.
Variable algorithm : Algorithm.
Variable paletteKey : PaletteKey.
Variable brightness : float.
Variable removeBackground : bool.
Variable backgroundTolerance : float.

Let grid : Grid :=
  generateGrid procData targetW targetH algorithm paletteKey brightness
               removeBackground backgroundTolerance.

Lemma generateGrid_length : length grid = Z.to_nat targetH.
Proof.
  unfold grid, generateGrid. destruct algorithm; apply tabulate_length.
Qed.

Lemma generateGrid_rows (row : list GridCell) :
  In row grid -> length row = Z.to_nat targetW.
Proof.
  unfold grid, generateGrid. destruct algorithm; apply tabulate_rows.
Qed.

End GridSize.

(** ** Sampling blocks *)

Lemma blockPixels_four (targetW targetH r c : Z) :
  1 <= targetW -> 1 <= targetH -> r < targetH -> c < targetW ->
  blockPixels targetW targetH r c = blockOf r c.
Proof.
  intros Hw Hh Hr Hc. unfold blockPixels, blockOf.
  rewrite startX_four, startY_four, endX_four, endY_four by assumption.
  rewrite !rangeZ_four. reflexivity.
Qed.

Lemma blockOf_length (r c : Z) : length (blockOf r c) = 16%nat.
Proof. reflexivity. Qed.

Section Blocks.

Variable procData : list Byte.byte.
Variables targetW targetH : Z.
Variable brightness : float.
Variable removeBackground : bool.
Variable backgroundTolerance : float.

Let pw := procW targetW.
Let isMasked := masked procData targetW targetH removeBackground
                       backgroundTolerance.
Let stepAvg := avgStep procData targetW targetH brightness removeBackground
                       backgroundTolerance.
Let stepPool := poolStep procData targetW targetH brightness removeBackground
                         backgroundTolerance.

Local Abbreviation redAt := (Core.redAt procData targetW brightness).
Local Abbreviation greenAt := (Core.greenAt procData targetW brightness).
Local Abbreviation blueAt := (Core.blueAt procData targetW brightness).
Local Abbreviation transparentAt := (Core.transparentAt procData targetW).
Local Abbreviation maskedCount :=
  (Core.maskedCount procData targetW targetH removeBackground
                    backgroundTolerance).

Lemma maskedCount_bounds (px : list (Z * Z)) :
  0 <= maskedCount px <= Z.of_nat (length px).
Proof.
  unfold maskedCount. fold isMasked.
  pose proof (List.filter_length_le (fun p => isMasked p.1 p.2) px).
  lia.
Qed.

Lemma avg_fold (px : list (Z * Z)) (st : AvgState) :
  fold_left stepAvg px st
  = mkAvg (fold_left PrimFloat.add (map redAt px) (sumR st))
          (fold_left PrimFloat.add (map greenAt px) (sumG st))
          (fold_left PrimFloat.add (map blueAt px) (sumB st))
          (avg_count st + Z.of_nat (length px))
          (avg_bgCount st + maskedCount px).
Proof.
  revert st. induction px as [|[y x] px IH]; intros st.
  - destruct st; cbn. unfold maskedCount. cbn. f_equal; lia.
  - cbn [fold_left map length]. rewrite IH.
    unfold stepAvg, avgStep, maskedCount, redAt, greenAt, blueAt.
    fold pw. fold isMasked.
    cbn [List.filter sumR sumG sumB avg_count avg_bgCount fst snd].
    destruct (isMasked y x); cbn [length]; f_equal; lia.
Qed.

Lemma freqBump_length (m : ColorFreq) (key : triple) :
  length (freqBump m key) = length m.
Proof.
  induction m as [|[k b] m IH]; [reflexivity|]. cbn [freqBump].
  destruct (sameKey k key); cbn [length]; congruence.
Qed.

Lemma poolStep_total (st : PoolState) (p : Z * Z) :
  pool_totalCount (stepPool st p) = pool_totalCount st + 1.
Proof.
  destruct p as [y x]. unfold stepPool, poolStep.
  destruct (_ <? 10)%float; reflexivity.
Qed.

Lemma poolStep_freq (st : PoolState) (p : Z * Z) :
  length (colorFreq (stepPool st p))
  = if transparentAt p then length (colorFreq st)
    else if freqHas (colorFreq st) (bucketKey (redAt p) (greenAt p) (blueAt p))
         then length (colorFreq st)
         else S (length (colorFreq st)).
Proof.
  destruct p as [y x]. unfold stepPool, poolStep, transparentAt.
  fold pw. cbn [fst snd].
  destruct (_ <? 10)%float; [reflexivity|]. cbn [colorFreq].
  rewrite freqBump_length. unfold redAt, greenAt, blueAt. cbn [fst snd].
  destruct (freqHas _ _); [reflexivity|].
  rewrite length_app. cbn [length]. lia.
Qed.

Lemma freqHas_nonempty (m : ColorFreq) (key : triple) :
  freqHas m key = true -> (1 <= length m)%nat.
Proof. destruct m; [discriminate | cbn [length]; lia]. Qed.

Lemma pool_fold_total (px : list (Z * Z)) (st : PoolState) :
  pool_totalCount (fold_left stepPool px st)
  = pool_totalCount st + Z.of_nat (length px).
Proof.
  revert st. induction px as [|p px IH]; intros st; cbn [fold_left length].
  - lia.
  - rewrite IH, poolStep_total. lia.
Qed.

Lemma pool_fold_empty (px : list (Z * Z)) (st : PoolState) :
  colorFreq (fold_left stepPool px st) = []
  <-> colorFreq st = [] /\ forall p, In p px -> transparentAt p = true.
Proof.
  revert st. induction px as [|p px IH]; intros st; cbn [fold_left].
  - split; [intros H; split; [exact H | intros p []] | now intros [H _]].
  - rewrite IH. pose proof (poolStep_freq st p) as Hlen.
    split.
    + intros [Hnil Hrest]. rewrite Hnil in Hlen. cbn [length] in Hlen.
      destruct (transparentAt p) eqn:Htr.
      * split; [now apply length_zero_iff_nil|].
        intros q [<- | Hq]; auto.
      * destruct (freqHas _ _) eqn:Hhas; [|lia].
        apply freqHas_nonempty in Hhas. lia.
    + intros [Hnil Hall]. split; [|intros q Hq; apply Hall; now right].
      rewrite (Hall p (or_introl eq_refl)), Hnil in Hlen.
      now apply length_zero_iff_nil.
Qed.

End Blocks.

(** C9, as the code has it. For target sizes of at least one cell each way
    the block sizes are exactly 4, every sampling block has exactly 16
    pixels, the averaging loop ends with [count = 16] (so [count = 0] is
    never seen) and the pooling loop with [totalCount = 16]. The table of
    colour buckets of a block is empty, and white is taken, exactly when all
    16 pixels of the block have [alpha < 10]. *)
Theorem blocks_have_sixteen_pixels
  (procData : list Byte.byte) (targetW targetH : Z) (brightness : float)
  (removeBackground : bool) (backgroundTolerance : float) :
  1 <= targetW -> 1 <= targetH ->
  (blockW targetW == 4)%Q /\ (blockH targetH == 4)%Q
  /\ forall r c, 0 <= r < targetH -> 0 <= c < targetW ->
       length (blockPixels targetW targetH r c) = 16%nat
       /\ avg_count (avgBlock procData targetW targetH brightness
                              removeBackground backgroundTolerance r c) = 16
       /\ pool_totalCount (poolBlock procData targetW targetH brightness
                                     removeBackground backgroundTolerance r c)
          = 16
       /\ (colorFreq (poolBlock procData targetW targetH brightness
                                removeBackground backgroundTolerance r c) = []
           <-> forall p, In p (blockPixels targetW targetH r c) ->
                         transparentAt procData targetW p = true).
Proof.
  intros Hw Hh. split; [now apply blockW_four|]. split; [now apply blockH_four|].
  intros r c Hr Hc. unfold avgBlock, poolBlock.
  rewrite blockPixels_four by lia. split; [reflexivity|].
  rewrite avg_fold, pool_fold_total, pool_fold_empty. cbn [avg_count].
  rewrite blockOf_length. repeat split; auto.
  now intros [_ H].
Qed.

(** ** Cells copied from the palette *)

Lemma lineEntries_isExternal (headers : list jsstring) (line : jsstring)
  (brand : BrandName) (e : ColorInfo) :
  In e (lineEntries headers line brand) -> isExternal e = None.
Proof.
  unfold lineEntries. destruct (rowSkipped _); [intros []|].
  destruct (brandCode _ _ _); [|intros []].
  now intros [<- | []].
Qed.

Lemma palettes_isExternal (key : PaletteKey) (e : ColorInfo) :
  In e (palettes key) -> isExternal e = None.
Proof.
  unfold palettes, parsePalettes, parsePalettesOf.
  destruct (split 10 (trim rawPaletteData)) as [|header rows]; [intros []|].
  rewrite parseLines_entries. cbn [emptyPalettes app].
  rewrite in_flat_map. intros (line & _ & He).
  eapply lineEntries_isExternal, He.
Qed.

Lemma findClosestIn_elem (pal : list ColorInfo) (r g b : float)
  (e : ColorInfo) :
  findClosestIn pal r g b = Some e -> In e pal.
Proof.
  unfold findClosestIn. set (t := rgbToLab r g b).
  pose proof (scanInv_fold t pal pal [] _ (scanInv_init t pal)) as Hinv.
  change ([] ++ pal) with pal in Hinv.
  destruct (fold_left (closerOf t) pal (infinity, List.head pal)) as [m c].
  destruct Hinv as [_ [[_ Hc] | (i & e' & Hc & Hi & _)]]; cbn [fst snd] in *;
    intros ->.
  - destruct pal; [discriminate|]. injection Hc as ->. now left.
  - injection Hc as ->. apply list_elem_of_In.
    eapply list_elem_of_lookup_2, Hi.
Qed.

Lemma spread_closest_not_external (r g b : float) (key : PaletteKey) :
  cellIsExternal (spread (findClosestColor r g b key)) = false.
Proof.
  unfold findClosestColor.
  destruct (findClosestIn (palettes key) r g b) as [e|] eqn:He;
    [|reflexivity].
  apply findClosestIn_elem, palettes_isExternal in He.
  cbn. now rewrite He.
Qed.

Lemma markExternal_external (cell : GridCell) :
  cellIsExternal (markExternal cell) = true.
Proof. destruct cell; reflexivity. Qed.

Lemma matchCell_external (key : PaletteKey) (g : list (list RawCell))
  (r c : Z) :
  cellIsExternal (matchCell key g r c) = isBg (tableAt g r c).
Proof.
  unfold matchCell. destruct (isBg (tableAt g r c)).
  - apply markExternal_external.
  - apply spread_closest_not_external.
Qed.

(** ** The average strategy *)

Lemma half_of_sixteen (m : Z) :
  0 <= m <= 16 -> (0.5 <? Z2F m / Z2F 16)%float = (16 <? 2 * m).
Proof.
  intros Hm.
  assert (H : m = 0 \/ m = 1 \/ m = 2 \/ m = 3 \/ m = 4 \/ m = 5 \/ m = 6
              \/ m = 7 \/ m = 8 \/ m = 9 \/ m = 10 \/ m = 11 \/ m = 12
              \/ m = 13 \/ m = 14 \/ m = 15 \/ m = 16) by lia.
  repeat destruct H as [H | H]; subst m; reflexivity.
Qed.

(** ** The gradient-enhanced pass *)

Section Enhance.

Variables targetW targetH : Z.
Variable g : list (list RawCell).

Local Abbreviation neighborsOf := (Core.neighborsOf targetW targetH).
Local Abbreviation averageDiff := (Core.averageDiff targetW targetH g).

Lemma diffStep_fold (r c : Z) :
  fold_left (diffStep targetW targetH g r c (tableAt g r c)) dirs (0%float, 0)
  = (fold_left (fun s p => s + channelDiff (tableAt g r c)
                                           (tableAt g p.1 p.2))%float
               (neighborsOf r c) 0%float,
     Z.of_nat (length (neighborsOf r c))).
Proof.
  unfold neighborsOf, dirs, diffStep, channelDiff.
  cbn [map fold_left List.filter fst snd].
  repeat match goal with
         | |- context [inGrid ?w ?h ?x ?y] => destruct (inGrid w h x y)
         end;
    cbn [fold_left List.filter fst snd]; reflexivity.
Qed.

Lemma sharpStep_fold (r c : Z) (acc : SharpState) :
  fold_left (sharpStep targetW targetH g r c) dirs acc
  = mkSharp
      (fold_left (fun s n => s + n * (-0.1))%float
                 (map (fun p => raw_r (tableAt g p.1 p.2)) (neighborsOf r c))
                 (sh_sumR acc))
      (fold_left (fun s n => s + n * (-0.1))%float
                 (map (fun p => raw_g (tableAt g p.1 p.2)) (neighborsOf r c))
                 (sh_sumG acc))
      (fold_left (fun s n => s + n * (-0.1))%float
                 (map (fun p => raw_b (tableAt g p.1 p.2)) (neighborsOf r c))
                 (sh_sumB acc))
      (validNeighbors acc + Z.of_nat (length (neighborsOf r c))).
Proof.
  unfold neighborsOf, dirs, sharpStep, weightEdge.
  cbn [map fold_left List.filter fst snd].
  repeat match goal with
         | |- context [inGrid ?w ?h ?x ?y] => destruct (inGrid w h x y)
         end;
    cbn [map fold_left List.filter fst snd sh_sumR sh_sumG sh_sumB
         validNeighbors length];
    destruct acc; cbn [sh_sumR sh_sumG sh_sumB validNeighbors];
    f_equal; lia.
Qed.

Lemma enhancedCell_cases (r c : Z) :
  enhancedCell targetW targetH g r c
  = if (averageDiff r c <? 15)%float
    then tableAt g r c
    else
      let ns := neighborsOf r c in
      mkRaw (sharpened (raw_r (tableAt g r c))
                       (map (fun p => raw_r (tableAt g p.1 p.2)) ns))
            (sharpened (raw_g (tableAt g r c))
                       (map (fun p => raw_g (tableAt g p.1 p.2)) ns))
            (sharpened (raw_b (tableAt g r c))
                       (map (fun p => raw_b (tableAt g p.1 p.2)) ns))
            (isBg (tableAt g r c)).
Proof.
  unfold enhancedCell. rewrite diffStep_fold. fold (averageDiff r c).
  destruct (averageDiff r c <? 15)%float; [reflexivity|].
  rewrite sharpStep_fold.
  cbn [sh_sumR sh_sumG sh_sumB validNeighbors Z.add].
  unfold sharpened, weightCenter, weightEdge. rewrite !length_map.
  rewrite !fold_tenth_neg, !add_times_tenth_neg.
  rewrite !(float_mul_comm _ 2). reflexivity.
Qed.

Lemma enhancedCell_isBg (r c : Z) :
  isBg (enhancedCell targetW targetH g r c) = isBg (tableAt g r c).
Proof.
  rewrite enhancedCell_cases. now destruct (_ <? 15)%float.
Qed.

End Enhance.

Section EnhancedGrid.

Variable procData : list Byte.byte.
Variables targetW targetH : Z.
Variable paletteKey : PaletteKey.
Variable brightness : float.
Variable removeBackground : bool.
Variable backgroundTolerance : float.

Let raw : list (list RawCell) :=
  rawGrid procData targetW targetH brightness removeBackground
          backgroundTolerance.
Let enhanced : list (list RawCell) :=
  enhancedGrid procData targetW targetH brightness removeBackground
               backgroundTolerance.
Let averageCell : Z -> Z -> RawCell :=
  rawCell procData targetW targetH brightness removeBackground
          backgroundTolerance.

Lemma raw_at (r c : Z) :
  0 <= r < targetH -> 0 <= c < targetW -> tableAt raw r c = averageCell r c.
Proof. intros Hr Hc. unfold raw, rawGrid. now apply tableAt_tabulate. Qed.

Lemma enhanced_at (r c : Z) :
  0 <= r < targetH -> 0 <= c < targetW ->
  tableAt enhanced r c = enhancedCell targetW targetH raw r c.
Proof.
  intros Hr Hc. unfold enhanced, enhancedGrid. now apply tableAt_tabulate.
Qed.

Lemma neighborsOf_inside (r c : Z) (p : Z * Z) :
  In p (neighborsOf targetW targetH r c) ->
  0 <= p.1 < targetH /\ 0 <= p.2 < targetW.
Proof.
  unfold neighborsOf. rewrite filter_In. intros [_ Hin].
  unfold inGrid in Hin. lia.
Qed.

(** C6. The gradient-enhanced pass keeps the background flag: for every
    cell of the grid the flag of the enhanced cell is the flag of the
    average-strategy cell it was computed from, whichever branch was taken,
    and the cell of the [gradient_enhanced] grid is external exactly when the
    cell of the [average] grid is. *)
Theorem enhancement_keeps_background_flag (r c : Z) :
  0 <= r < targetH -> 0 <= c < targetW ->
  isBg (tableAt enhanced r c) = isBg (tableAt raw r c)
  /\ (isBg (tableAt enhanced r c) = isBg (averageCell r c))
  /\ exists cellE cellA : GridCell,
       at_index2 (generateGrid procData targetW targetH gradient_enhanced
                               paletteKey brightness removeBackground
                               backgroundTolerance) r c = Some cellE
       /\ at_index2 (generateGrid procData targetW targetH average
                                  paletteKey brightness removeBackground
                                  backgroundTolerance) r c = Some cellA
       /\ cellIsExternal cellE = cellIsExternal cellA
       /\ cellIsExternal cellA = isBg (averageCell r c).
Proof.
  intros Hr Hc.
  assert (Hflag : isBg (tableAt enhanced r c) = isBg (tableAt raw r c)).
  { rewrite enhanced_at by assumption. apply enhancedCell_isBg. }
  split; [exact Hflag|]. split; [now rewrite Hflag, raw_at|].
  eexists. eexists. unfold generateGrid.
  rewrite !tabulate_at by assumption.
  split; [reflexivity|]. split; [reflexivity|].
  rewrite !matchCell_external. fold enhanced. fold raw.
  split; [exact Hflag | now rewrite raw_at].
Qed.

End EnhancedGrid.

(** ** A uniformly coloured, opaque buffer *)

Lemma uniform_nth (r g b : Byte.byte) (n p k : nat) :
  (p < n)%nat -> (k < 4)%nat ->
  nth_error (uniformBuffer r g b n) (4 * p + k)
  = nth_error [r; g; b; Byte.xff] k.
Proof.
  revert n. induction p as [|p IH]; intros n Hp Hk.
  - destruct n as [|n]; [lia|]. unfold uniformBuffer. cbn [repeat concat].
    rewrite Nat.mul_0_r, Nat.add_0_l.
    do 4 (destruct k as [|k]; [reflexivity|]). lia.
  - destruct n as [|n]; [lia|].
    replace (4 * S p + k)%nat with (S (S (S (S (4 * p + k))))) by lia.
    unfold uniformBuffer in *. cbn [repeat concat app nth_error].
    apply IH; lia.
Qed.

Lemma byteAt_uniform (r g b : Byte.byte) (n : nat) (p : Z) :
  0 <= p < Z.of_nat n ->
  byteAt (uniformBuffer r g b n) (p * 4) = byteValue r
  /\ byteAt (uniformBuffer r g b n) (p * 4 + 1) = byteValue g
  /\ byteAt (uniformBuffer r g b n) (p * 4 + 2) = byteValue b
  /\ byteAt (uniformBuffer r g b n) (p * 4 + 3) = 255%float.
Proof.
  intros Hp. rewrite <- (Z.add_0_r (p * 4)) at 1. unfold byteAt, at_index.
  assert (H : forall k, 0 <= k < 4 ->
            (if p * 4 + k <? 0 then None
             else nth_error (uniformBuffer r g b n) (Z.to_nat (p * 4 + k)))
            = nth_error [r; g; b; Byte.xff] (Z.to_nat k)).
  { intros k Hk. destruct (p * 4 + k <? 0) eqn:Hneg; [lia|].
    replace (Z.to_nat (p * 4 + k)) with (4 * Z.to_nat p + Z.to_nat k)%nat
      by lia.
    apply uniform_nth; lia. }
  rewrite (H 0), (H 1), (H 2), (H 3) by lia. repeat split; reflexivity.
Qed.

Lemma byte_adjusted (v : Byte.byte) :
  clamp255 (byteValue v + 0 * 15)%float = byteValue v.
Proof. destruct v; reflexivity. Qed.

Lemma byte_mean16 (v : Byte.byte) :
  meanOf (repeat (byteValue v) 16) = byteValue v.
Proof. destruct v; reflexivity. Qed.

Lemma byte_diff_zero (v : Byte.byte) :
  Math_abs (byteValue v - byteValue v)%float = 0%float.
Proof. destruct v; reflexivity. Qed.

Lemma sameText_refl (a : float) : sameText a a = true.
Proof.
  unfold sameText, PrimFloat.is_nan. now destruct (a =? a)%float.
Qed.

Lemma sameKey_refl (k : triple) : sameKey k k = true.
Proof. unfold sameKey. now rewrite !sameText_refl. Qed.

Lemma map_constant {A B : Type} (f : A -> B) (v : B) (l : list A) :
  (forall a, In a l -> f a = v) -> map f l = repeat v (length l).
Proof.
  induction l as [|a l IH]; intros H; [reflexivity|].
  cbn [map length repeat]. rewrite (H a (or_introl eq_refl)), IH; auto.
  intros a' Ha'. apply H. now right.
Qed.

Lemma fold_add_zero {A : Type} (f : A -> float) (l : list A) :
  (forall a, In a l -> f a = 0%float) ->
  fold_left (fun s a => s + f a)%float l 0%float = 0%float.
Proof.
  induction l as [|a l IH]; intros H; [reflexivity|].
  cbn [fold_left]. rewrite (H a (or_introl eq_refl)).
  change (0 + 0)%float with 0%float. apply IH.
  intros a' Ha'. apply H. now right.
Qed.

Lemma blockOf_inside (targetW targetH r c : Z) (p : Z * Z) :
  0 <= r < targetH -> 0 <= c < targetW -> In p (blockOf r c) ->
  0 <= p.1 < procH targetH /\ 0 <= p.2 < procW targetW.
Proof.
  intros Hr Hc. unfold blockOf, procH, procW. rewrite in_flat_map.
  intros (y & Hy & Hp). rewrite in_map_iff in Hp.
  destruct Hp as (x & <- & Hx). cbn [fst snd].
  destruct Hy as [<- | [<- | [<- | [<- | []]]]];
    destruct Hx as [<- | [<- | [<- | [<- | []]]]]; lia.
Qed.

Section Uniform.

Variables red green blue : Byte.byte.
Variables targetW targetH : Z.
Variable paletteKey : PaletteKey.
Variable removeBackground : bool.
Variable backgroundTolerance : float.
Hypothesis targetW_pos : 1 <= targetW.
Hypothesis targetH_pos : 1 <= targetH.

Let procData : list Byte.byte :=
  uniformBuffer red green blue (pixelCount targetW targetH).

Let isMasked : Z -> Z -> bool :=
  masked procData targetW targetH removeBackground backgroundTolerance.

(** The palette entry nearest to the colour of the buffer. *)
Let nearestEntry : option ColorInfo :=
  findClosestColor (byteValue red) (byteValue green) (byteValue blue)
                   paletteKey.

Local Abbreviation uniformCell :=
  (Core.uniformCell red green blue paletteKey removeBackground).

Lemma isMasked_off (y x : Z) : removeBackground = false -> isMasked y x = false.
Proof. intros Hoff. unfold isMasked, masked. now rewrite Hoff. Qed.

Lemma uniform_pixel (p : Z * Z) :
  0 <= p.1 < procH targetH -> 0 <= p.2 < procW targetW ->
  redAt procData targetW 0 p = byteValue red
  /\ greenAt procData targetW 0 p = byteValue green
  /\ blueAt procData targetW 0 p = byteValue blue
  /\ transparentAt procData targetW p = false.
Proof.
  intros Hy Hx.
  assert (Hp : 0 <= p.1 * procW targetW + p.2
               < Z.of_nat (pixelCount targetW targetH)).
  { unfold pixelCount. rewrite Z2Nat.id by (unfold procW, procH in *; nia).
    nia. }
  destruct (byteAt_uniform red green blue _ _ Hp) as (Hr & Hg & Hb & Ha).
  unfold redAt, greenAt, blueAt, transparentAt, adjusted, bOffset, procData.
  rewrite Hr, Hg, Hb, Ha, !byte_adjusted.
  repeat split; reflexivity.
Qed.

Lemma uniform_block (r c : Z) (p : Z * Z) :
  0 <= r < targetH -> 0 <= c < targetW -> In p (blockOf r c) ->
  redAt procData targetW 0 p = byteValue red
  /\ greenAt procData targetW 0 p = byteValue green
  /\ blueAt procData targetW 0 p = byteValue blue
  /\ transparentAt procData targetW p = false.
Proof.
  intros Hr Hc Hp.
  destruct (blockOf_inside targetW targetH r c p Hr Hc Hp).
  now apply uniform_pixel.
Qed.

(** *** nearest *)

Lemma uniform_nearest (r c : Z) :
  0 <= r < targetH -> 0 <= c < targetW ->
  uniformCell (nearestCell procData targetW targetH paletteKey 0
                           removeBackground backgroundTolerance r c).
Proof.
  intros Hr Hc. unfold nearestCell.
  rewrite centerX_four, centerY_four by assumption.
  destruct (uniform_pixel (4 * r + 2, 4 * c + 2)) as (HR & HG & HB & _);
    [cbn [fst]; unfold procH; lia | cbn [snd]; unfold procW; lia |].
  unfold redAt, greenAt, blueAt in HR, HG, HB. cbn [fst snd] in HR, HG, HB.
  rewrite HR, HG, HB. fold nearestEntry. fold isMasked.
  exists (isMasked (4 * r + 2) (4 * c + 2)). split; [reflexivity|].
  apply isMasked_off.
Qed.

(** *** average *)

Lemma uniform_rawCell (r c : Z) :
  0 <= r < targetH -> 0 <= c < targetW ->
  exists flag : bool,
    rawCell procData targetW targetH 0 removeBackground backgroundTolerance
            r c
    = mkRaw (byteValue red) (byteValue green) (byteValue blue) flag
    /\ (removeBackground = false -> flag = false).
Proof.
  intros Hr Hc. unfold rawCell, avgBlock.
  rewrite blockPixels_four by lia. rewrite avg_fold.
  cbn [sumR sumG sumB avg_count avg_bgCount]. rewrite blockOf_length.
  rewrite (map_constant (redAt procData targetW 0) (byteValue red)),
          (map_constant (greenAt procData targetW 0) (byteValue green)),
          (map_constant (blueAt procData targetW 0) (byteValue blue))
    by (intros p Hp; now apply (uniform_block r c p Hr Hc)).
  rewrite blockOf_length.
  change (0 + Z.of_nat 16 =? 0) with false. cbv iota.
  pose proof (byte_mean16 red) as HR. pose proof (byte_mean16 green) as HG.
  pose proof (byte_mean16 blue) as HB.
  unfold meanOf, sumFloats in HR, HG, HB. rewrite repeat_length in HR, HG, HB.
  change (0 + Z.of_nat 16) with (Z.of_nat 16). rewrite HR, HG, HB.
  eexists. split; [reflexivity|]. now intros ->.
Qed.

Let raw : list (list RawCell) :=
  rawGrid procData targetW targetH 0 removeBackground backgroundTolerance.

Lemma uniform_raw_at (r c : Z) :
  0 <= r < targetH -> 0 <= c < targetW ->
  exists flag : bool,
    tableAt raw r c
    = mkRaw (byteValue red) (byteValue green) (byteValue blue) flag
    /\ (removeBackground = false -> flag = false).
Proof.
  intros Hr Hc. unfold raw. rewrite raw_at by assumption.
  now apply uniform_rawCell.
Qed.

Lemma matchCell_uniform (g : list (list RawCell)) (r c : Z) (flag : bool) :
  tableAt g r c
  = mkRaw (byteValue red) (byteValue green) (byteValue blue) flag ->
  (removeBackground = false -> flag = false) ->
  uniformCell (matchCell paletteKey g r c).
Proof.
  intros Hcell Hflag. unfold matchCell. rewrite Hcell.
  cbn [raw_r raw_g raw_b isBg]. fold nearestEntry.
  exists flag. split; [reflexivity | exact Hflag].
Qed.

(** *** gradient_enhanced *)

Lemma uniform_flat (r c : Z) :
  0 <= r < targetH -> 0 <= c < targetW ->
  (averageDiff targetW targetH raw r c <? 15)%float = true.
Proof.
  intros Hr Hc. unfold averageDiff.
  set (ns := neighborsOf targetW targetH r c).
  destruct (uniform_raw_at r c Hr Hc) as (flag & Hcenter & _).
  rewrite fold_add_zero.
  - assert (Hlen : (length ns <= 4)%nat).
    { unfold ns, neighborsOf. etransitivity; [apply List.filter_length_le|].
      reflexivity. }
    destruct (length ns) as [|[|[|[|[|n]]]]]; try reflexivity. lia.
  - intros p Hp. apply neighborsOf_inside in Hp as [Hpr Hpc].
    destruct (uniform_raw_at p.1 p.2 Hpr Hpc) as (flag' & Hnb & _).
    rewrite Hcenter, Hnb. unfold channelDiff. cbn [raw_r raw_g raw_b].
    rewrite !byte_diff_zero. reflexivity.
Qed.

Lemma uniform_enhanced_at (r c : Z) :
  0 <= r < targetH -> 0 <= c < targetW ->
  tableAt (enhancedGrid procData targetW targetH 0 removeBackground
                        backgroundTolerance) r c
  = tableAt raw r c.
Proof.
  intros Hr Hc. rewrite enhanced_at by assumption.
  rewrite enhancedCell_cases. fold raw. now rewrite uniform_flat.
Qed.

(** *** dominant_pooling *)

Let stepPool : PoolState -> Z * Z -> PoolState :=
  poolStep procData targetW targetH 0 removeBackground backgroundTolerance.

Let uniformKey : triple :=
  bucketKey (byteValue red) (byteValue green) (byteValue blue).

Let uniformBucket (n : Z) : Bucket :=
  mkBucket (byteValue red) (byteValue green) (byteValue blue) n.

Lemma uniform_poolStep (st : PoolState) (p : Z * Z) (n : Z) :
  0 <= p.1 < procH targetH -> 0 <= p.2 < procW targetW ->
  colorFreq st = (if n =? 0 then [] else [(uniformKey, uniformBucket n)]) ->
  colorFreq (stepPool st p) = [(uniformKey, uniformBucket (n + 1))].
Proof.
  intros Hy Hx Hst.
  destruct (uniform_pixel p Hy Hx) as (HR & HG & HB & HA).
  destruct p as [y x]. unfold stepPool, poolStep.
  unfold redAt, greenAt, blueAt, transparentAt in HR, HG, HB, HA.
  cbn [fst snd] in HR, HG, HB, HA. rewrite HA, HR, HG, HB.
  fold uniformKey. cbn [colorFreq]. rewrite Hst.
  destruct (n =? 0) eqn:Hn.
  - apply Z.eqb_eq in Hn. subst n.
    cbn [freqHas existsb app freqBump]. rewrite sameKey_refl. reflexivity.
  - cbn [freqHas existsb fst]. rewrite sameKey_refl. cbn [orb freqBump].
    rewrite sameKey_refl. reflexivity.
Qed.

Lemma uniform_pool_fold (px : list (Z * Z)) (st : PoolState) (n : Z) :
  0 <= n ->
  (forall p, In p px -> 0 <= p.1 < procH targetH /\ 0 <= p.2 < procW targetW) ->
  colorFreq st = (if n =? 0 then [] else [(uniformKey, uniformBucket n)]) ->
  colorFreq (fold_left stepPool px st)
  = (if n + Z.of_nat (length px) =? 0 then []
     else [(uniformKey, uniformBucket (n + Z.of_nat (length px)))]).
Proof.
  revert st n. induction px as [|p px IH]; intros st n Hn Hin Hst.
  - cbn [fold_left length Z.of_nat]. now rewrite Z.add_0_r.
  - cbn [fold_left length].
    replace (n + Z.of_nat (S (length px)))
      with ((n + 1) + Z.of_nat (length px)) by lia.
    apply IH; [lia | intros q Hq; apply Hin; now right |].
    destruct (Hin p (or_introl eq_refl)) as [Hy Hx].
    rewrite (uniform_poolStep st p n Hy Hx Hst).
    destruct (n + 1 =? 0) eqn:Hz; [lia | reflexivity].
Qed.

Lemma uniform_dominant (r c : Z) :
  0 <= r < targetH -> 0 <= c < targetW ->
  uniformCell (dominantCell procData targetW targetH paletteKey 0
                            removeBackground backgroundTolerance r c).
Proof.
  intros Hr Hc. unfold dominantCell, poolBlock.
  rewrite blockPixels_four by lia. fold stepPool.
  rewrite (uniform_pool_fold (blockOf r c) (mkPool [] 0 0) 0);
    [| lia | intros p Hp; now apply (blockOf_inside targetW targetH r c)
     | reflexivity].
  rewrite blockOf_length. cbn [Z.add Z.of_nat Pos.of_succ_nat Pos.succ Z.eqb].
  unfold pickDominant, uniformBucket.
  cbn [fold_left fst snd bucket_r bucket_g bucket_b bucket_count Z.ltb
       Z.compare].
  fold nearestEntry. eexists. split; [reflexivity|]. now intros ->.
Qed.

(** *** Every strategy *)

Lemma uniform_generateGrid (algorithm : Algorithm) (r c : Z) :
  0 <= r < targetH -> 0 <= c < targetW ->
  exists cell : GridCell,
    at_index2 (generateGrid procData targetW targetH algorithm paletteKey 0
                            removeBackground backgroundTolerance) r c
    = Some cell
    /\ uniformCell cell.
Proof.
  intros Hr Hc. unfold generateGrid.
  destruct algorithm; rewrite tabulate_at by assumption; eexists;
    (split; [reflexivity|]).
  - destruct (uniform_raw_at r c Hr Hc) as (flag & Hcell & Hflag).
    now apply (matchCell_uniform _ r c flag).
  - now apply uniform_nearest.
  - destruct (uniform_raw_at r c Hr Hc) as (flag & Hcell & Hflag).
    apply (matchCell_uniform _ r c flag); [|exact Hflag].
    now rewrite uniform_enhanced_at.
  - now apply uniform_dominant.
Qed.

Lemma uniformCell_resolves (cell : GridCell) :
  uniformCell cell ->
  resolvesTo cell nearestEntry
  /\ (removeBackground = false ->
      cell = spread nearestEntry /\ cellIsExternal cell = false).
Proof.
  intros (flag & -> & Hflag). split.
  - destruct flag; [now right | now left].
  - intros Hoff. rewrite (Hflag Hoff). split; [reflexivity|].
    apply spread_closest_not_external.
Qed.

End Uniform.

(** ** Flag tables *)

Lemma nth_error_lookup {A : Type} (l : list A) (i : nat) :
  nth_error l i = l !! i.
Proof.
  revert i. induction l as [|a l IH]; intros [|i]; cbn; auto.
Qed.

Lemma setFlag_length (a : list bool) (i : Z) : length (setFlag a i) = length a.
Proof. unfold setFlag. destruct (i <? 0); [reflexivity|]. apply length_insert. Qed.

Lemma getFlag_setFlag_same (a : list bool) (i : Z) :
  0 <= i < Z.of_nat (length a) -> getFlag (setFlag a i) i = true.
Proof.
  intros Hi. unfold getFlag, setFlag, at_index.
  destruct (i <? 0) eqn:Hneg; [lia|].
  rewrite nth_error_lookup, list_lookup_insert_eq by lia. reflexivity.
Qed.

Lemma getFlag_setFlag_other (a : list bool) (i j : Z) :
  i <> j -> getFlag (setFlag a i) j = getFlag a j.
Proof.
  intros Hne. unfold getFlag, setFlag, at_index.
  destruct (j <? 0) eqn:Hj; [reflexivity|].
  destruct (i <? 0) eqn:Hi; [reflexivity|].
  rewrite !nth_error_lookup, list_lookup_insert_ne by lia. reflexivity.
Qed.

Lemma getFlag_setFlag_mono (a : list bool) (i j : Z) :
  getFlag a j = true -> getFlag (setFlag a i) j = true.
Proof.
  intros Hj. destruct (Z.eq_dec i j) as [-> | Hne].
  - apply getFlag_setFlag_same. unfold getFlag, at_index in Hj.
    destruct (j <? 0) eqn:Hneg; [discriminate|].
    destruct (nth_error a (Z.to_nat j)) eqn:Hnth; [|discriminate].
    assert (Z.to_nat j < length a)%nat by (apply nth_error_Some; congruence).
    lia.
  - now rewrite getFlag_setFlag_other.
Qed.

Lemma getFlag_replicate (n : nat) (i : Z) :
  getFlag (replicate n false) i = false.
Proof.
  unfold getFlag, at_index. destruct (i <? 0); [reflexivity|].
  rewrite nth_error_lookup.
  destruct (replicate n false !! Z.to_nat i) as [b|] eqn:Hb; [|reflexivity].
  apply lookup_replicate in Hb as [-> _]. reflexivity.
Qed.

Lemma countClear_replicate (n : nat) : countClear (replicate n false) = n.
Proof.
  unfold countClear. induction n as [|n IH]; [reflexivity|].
  cbn [replicate List.filter negb length]. now rewrite IH.
Qed.

Lemma countClear_insert (a : list bool) (n : nat) :
  a !! n = Some false ->
  (countClear (<[n := true]> a) + 1 = countClear a)%nat.
Proof.
  unfold countClear. revert n.
  induction a as [|b a IH]; intros [|n] Hn; try discriminate.
  - injection Hn as ->. cbn. lia.
  - cbn in Hn. cbn [insert list_insert List.filter].
    change (list_insert n true a) with (<[n := true]> a).
    destruct b; cbn [negb length]; specialize (IH n Hn); [exact IH | cbn [Nat.add]; f_equal; exact IH].
Qed.

Lemma countClear_setFlag (a : list bool) (i : Z) :
  0 <= i < Z.of_nat (length a) -> getFlag a i = false ->
  (countClear (setFlag a i) + 1 = countClear a)%nat.
Proof.
  intros Hi Hclear. unfold getFlag, at_index in Hclear. unfold setFlag.
  destruct (i <? 0) eqn:Hneg; [lia|].
  apply countClear_insert. rewrite <- nth_error_lookup.
  destruct (nth_error a (Z.to_nat i)) as [b|] eqn:Hnth.
  - now subst b.
  - apply nth_error_None in Hnth. lia.
Qed.

(** ** The background flood fill *)

Section Fill.

Variable procData : list Byte.byte.
Variables targetW targetH : Z.
Variable backgroundTolerance : float.

Local Abbreviation pixelIndex := (Core.pixelIndex targetW).
Local Abbreviation insideBuffer := (Core.insideBuffer targetW targetH).
Local Abbreviation backgroundColoured :=
  (Core.backgroundColoured procData targetW backgroundTolerance).
Local Abbreviation cornerReachable :=
  (Core.cornerReachable procData targetW targetH backgroundTolerance).
Local Abbreviation reach_corner :=
  (Core.reach_corner procData targetW targetH backgroundTolerance).
Local Abbreviation reach_step :=
  (Core.reach_step procData targetW targetH backgroundTolerance).
Local Abbreviation onFrontier :=
  (Core.onFrontier procData targetW targetH backgroundTolerance).
Local Abbreviation fillInv :=
  (Core.fillInv procData targetW targetH backgroundTolerance).
Local Abbreviation inv_coloured :=
  (Core.inv_coloured procData targetW targetH backgroundTolerance).
Local Abbreviation inv_corners :=
  (Core.inv_corners procData targetW targetH backgroundTolerance).
Local Abbreviation inv_neighbors :=
  (Core.inv_neighbors procData targetW targetH backgroundTolerance).

Hypothesis targetW_pos : 1 <= targetW.
Hypothesis targetH_pos : 1 <= targetH.

Lemma pixelCount_area :
  Z.of_nat (pixelCount targetW targetH) = procW targetW * procH targetH.
Proof. unfold pixelCount, procW, procH. nia. Qed.

Lemma pixelIndex_range (p : Z * Z) :
  insideBuffer p ->
  0 <= pixelIndex p < Z.of_nat (pixelCount targetW targetH).
Proof.
  rewrite pixelCount_area. unfold insideBuffer, pixelIndex. nia.
Qed.

Lemma pixelIndex_inj (p q : Z * Z) :
  insideBuffer p -> insideBuffer q -> pixelIndex p = pixelIndex q -> p = q.
Proof.
  destruct p as [r c], q as [r' c']. unfold insideBuffer, pixelIndex.
  cbn [fst snd]. intros Hp Hq Heq.
  assert (r = r') by nia. subst r'. f_equal. lia.
Qed.

Lemma corners_inside (p : Z * Z) :
  In p (corners targetW targetH) -> insideBuffer p.
Proof.
  unfold corners, insideBuffer, procW, procH.
  intros [<- | [<- | [<- | [<- | []]]]]; cbn [fst snd]; lia.
Qed.

Lemma pushNeighbors_spec (r c : Z) (q : Z * Z) :
  insideBuffer (r, c) ->
  (In q (pushNeighbors targetW targetH r c)
   <-> adjacent4 (r, c) q /\ insideBuffer q).
Proof.
  unfold insideBuffer, adjacent4, pushNeighbors. cbn [fst snd].
  intros Hin. rewrite !in_app_iff. destruct q as [r' c']. cbn [fst snd].
  destruct (Z.ltb_spec 0 r), (Z.ltb_spec r (procH targetH - 1)),
           (Z.ltb_spec 0 c), (Z.ltb_spec c (procW targetW - 1));
    cbn [In]; split; intros Hgoal;
    repeat match goal with
           | H : _ \/ _ |- _ => destruct H
           | H : _ /\ _ |- _ => destruct H
           | H : (_, _) = (_, _) |- _ => injection H as <- <-
           | H : False |- _ => destruct H
           end;
    try lia; subst; intuition auto.
Qed.

Lemma pushNeighbors_length (r c : Z) :
  (length (pushNeighbors targetW targetH r c) <= 4)%nat.
Proof.
  unfold pushNeighbors. rewrite !length_app.
  destruct (0 <? r), (r <? procH targetH - 1), (0 <? c),
           (c <? procW targetW - 1); cbn [length]; lia.
Qed.

Lemma cornerReachable_inside (p : Z * Z) :
  cornerReachable p -> insideBuffer p.
Proof. intros [q Hq _ | q q' _ _ Hq' _]; [now apply corners_inside | exact Hq']. Qed.

Lemma cornerReachable_coloured (p : Z * Z) :
  cornerReachable p -> backgroundColoured p = true.
Proof. now intros [q _ Hq | q q' _ _ _ Hq']. Qed.

Lemma fillInv_init : fillInv (fillInit targetW targetH).
Proof.
  unfold fillInit. constructor; cbn [visited isBackgroundMask queue head].
  - apply length_replicate.
  - apply length_replicate.
  - lia.
  - intros q Hq. split; [now apply corners_inside | now left].
  - intros p _ Hp. now rewrite getFlag_replicate in Hp.
  - intros p _ Hp. now rewrite getFlag_replicate in Hp.
  - intros p Hp. right. exact Hp.
  - intros p q _ Hp. now rewrite getFlag_replicate in Hp.
Qed.

(** The three ways an iteration can go. *)
Lemma fillStep_cases (st : FillState) (p : Z * Z) :
  queue st !! head st = Some p ->
  (getFlag (visited st) (pixelIndex p) = true
   /\ fillStep procData targetW targetH backgroundTolerance st
      = mkFill (visited st) (isBackgroundMask st) (queue st) (S (head st)))
  \/ (getFlag (visited st) (pixelIndex p) = false
      /\ backgroundColoured p = true
      /\ fillStep procData targetW targetH backgroundTolerance st
         = mkFill (setFlag (visited st) (pixelIndex p))
                  (setFlag (isBackgroundMask st) (pixelIndex p))
                  (queue st ++ pushNeighbors targetW targetH p.1 p.2)
                  (S (head st)))
  \/ (getFlag (visited st) (pixelIndex p) = false
      /\ backgroundColoured p = false
      /\ fillStep procData targetW targetH backgroundTolerance st
         = mkFill (setFlag (visited st) (pixelIndex p))
                  (isBackgroundMask st) (queue st) (S (head st))).
Proof.
  intros Hq. unfold fillStep. rewrite Hq. destruct p as [r c].
  unfold backgroundColoured, pixelIndex. cbn [fst snd].
  destruct (getFlag (visited st) (r * procW targetW + c)); [now left|].
  right. destruct (isBgColor _ _ _); [left | right]; auto.
Qed.

Lemma fillInv_step (st : FillState) :
  fillInv st -> fillDone st = false ->
  fillInv (fillStep procData targetW targetH backgroundTolerance st)
  /\ (fillMeasure (fillStep procData targetW targetH backgroundTolerance st)
      < fillMeasure st)%nat.
Proof.
  intros Hinv Hrun. unfold fillDone in Hrun.
  apply negb_false_iff, Nat.ltb_lt in Hrun.
  destruct (lookup_lt_is_Some_2 (queue st) (head st) Hrun) as [p Hp].
  destruct Hinv as [Hvlen Hmlen Hhead Hqueue Hsound Hcol Hcorn Hnbr].
  assert (Hpin : In p (queue st)).
  { apply list_elem_of_In. eapply list_elem_of_lookup_2, Hp. }
  destruct (Hqueue p Hpin) as [Hpinside Hpfront].
  pose proof (pixelIndex_range p Hpinside) as Hprange.
  pose proof (drop_S _ _ _ Hp) as Hpending.
  (* whatever was pending is now visited or still pending *)
  assert (Hkeep : forall (v' : list bool) (q' : list (Z * Z)),
             (forall j, getFlag (visited st) j = true -> getFlag v' j = true) ->
             getFlag v' (pixelIndex p) = true ->
             (forall q, In q (drop (S (head st)) (queue st)) ->
                        In q (drop (S (head st)) q')) ->
             forall q,
               getFlag (visited st) (pixelIndex q) = true
               \/ In q (drop (head st) (queue st)) ->
               getFlag v' (pixelIndex q) = true
               \/ In q (drop (S (head st)) q')).
  { intros v' q' Hmono Hnow Hsub q [Hv | Hq]; [left; now apply Hmono|].
    rewrite Hpending in Hq. destruct Hq as [<- | Hq]; [now left|].
    right. now apply Hsub. }
  assert (Hgrow : forall extra q,
             In q (drop (S (head st)) (queue st)) ->
             In q (drop (S (head st)) (queue st ++ extra))).
  { intros extra q Hq. rewrite drop_app_le by lia. apply in_or_app. now left. }
  destruct (fillStep_cases st p Hp)
    as [[Hseen ->] | [(Hnew & Hbg & ->) | (Hnew & Hbg & ->)]].
  - (* already visited *)
    split.
    + constructor; cbn [visited isBackgroundMask queue head].
      * exact Hvlen.
      * exact Hmlen.
      * lia.
      * exact Hqueue.
      * exact Hsound.
      * exact Hcol.
      * intros q Hq. apply (Hkeep (visited st) (queue st)); auto.
      * intros q q' Hq Hm Hadj Hq'.
        apply (Hkeep (visited st) (queue st)); eauto.
    + unfold fillMeasure. cbn [visited queue head]. lia.
  - (* a new background pixel *)
    assert (Hreach : cornerReachable p).
    { destruct Hpfront as [Hc | (p0 & Hp0 & Hadj)].
      - now apply reach_corner.
      - now apply (reach_step p0 p). }
    split.
    + constructor; cbn [visited isBackgroundMask queue head].
      * now rewrite setFlag_length.
      * now rewrite setFlag_length.
      * rewrite length_app. lia.
      * intros q Hq. apply in_app_or in Hq as [Hq | Hq]; [now apply Hqueue|].
        destruct p as [r c]. apply pushNeighbors_spec in Hq as [Hadj Hq];
          [|exact Hpinside].
        split; [exact Hq|]. right. now exists (r, c).
      * intros q Hq Hm. destruct (Z.eq_dec (pixelIndex p) (pixelIndex q)) as [He|Hne].
        -- apply pixelIndex_inj in He; auto. now subst q.
        -- rewrite getFlag_setFlag_other in Hm by exact Hne. now apply Hsound.
      * intros q Hq Hv Hc.
        destruct (Z.eq_dec (pixelIndex p) (pixelIndex q)) as [He|Hne].
        -- rewrite <- He. apply getFlag_setFlag_same. lia.
        -- rewrite getFlag_setFlag_other in Hv |- * by exact Hne.
           now apply Hcol.
      * intros q Hq.
        apply (Hkeep _ (queue st ++ pushNeighbors targetW targetH p.1 p.2));
          auto.
        -- intros j. apply getFlag_setFlag_mono.
        -- apply getFlag_setFlag_same. lia.
      * intros q q' Hq Hm Hadj Hq'.
        destruct (Z.eq_dec (pixelIndex p) (pixelIndex q)) as [He|Hne].
        -- apply pixelIndex_inj in He; auto. subst q. right.
           rewrite drop_app_le by lia. apply in_or_app. right.
           destruct p as [r c]. apply pushNeighbors_spec; auto.
        -- rewrite getFlag_setFlag_other in Hm by exact Hne.
           apply (Hkeep _ (queue st ++ pushNeighbors targetW targetH p.1 p.2));
             eauto.
           ++ intros j. apply getFlag_setFlag_mono.
           ++ apply getFlag_setFlag_same. lia.
    + unfold fillMeasure. cbn [visited queue head].
      pose proof (countClear_setFlag (visited st) (pixelIndex p)
                    ltac:(lia) Hnew) as Hcount.
      pose proof (pushNeighbors_length p.1 p.2) as Hpush.
      rewrite length_app. lia.
  - (* a new pixel of another colour *)
    split.
    + constructor; cbn [visited isBackgroundMask queue head].
      * now rewrite setFlag_length.
      * exact Hmlen.
      * lia.
      * exact Hqueue.
      * exact Hsound.
      * intros q Hq Hv Hc.
        destruct (Z.eq_dec (pixelIndex p) (pixelIndex q)) as [He|Hne].
        -- apply pixelIndex_inj in He; auto. subst q. congruence.
        -- rewrite getFlag_setFlag_other in Hv by exact Hne. now apply Hcol.
      * intros q Hq. apply (Hkeep _ (queue st)); auto.
        -- intros j. apply getFlag_setFlag_mono.
        -- apply getFlag_setFlag_same. lia.
      * intros q q' Hq Hm Hadj Hq'. apply (Hkeep _ (queue st)); eauto.
        -- intros j. apply getFlag_setFlag_mono.
        -- apply getFlag_setFlag_same. lia.
    + unfold fillMeasure. cbn [visited queue head].
      pose proof (countClear_setFlag (visited st) (pixelIndex p)
                    ltac:(lia) Hnew) as Hcount.
      lia.
Qed.

Lemma fillLoop_finishes (fuel : nat) (st : FillState) :
  fillInv st -> (fillMeasure st <= fuel)%nat ->
  fillInv (fillLoop procData targetW targetH backgroundTolerance fuel st)
  /\ fillDone (fillLoop procData targetW targetH backgroundTolerance fuel st)
     = true.
Proof.
  revert st. induction fuel as [|fuel IH]; intros st Hinv Hfuel.
  - cbn [fillLoop]. split; [exact Hinv|].
    unfold fillMeasure in Hfuel. unfold fillDone.
    apply negb_true_iff, Nat.ltb_ge. lia.
  - cbn [fillLoop]. destruct (fillDone st) eqn:Hdone; [now split|].
    destruct (fillInv_step st Hinv Hdone) as [Hinv' Hless].
    apply IH; [exact Hinv' | lia].
Qed.

Lemma floodFill_finished :
  fillInv (floodFill procData targetW targetH backgroundTolerance)
  /\ fillDone (floodFill procData targetW targetH backgroundTolerance) = true.
Proof.
  unfold floodFill. apply fillLoop_finishes; [apply fillInv_init|].
  unfold fillMeasure, fillInit, fillFuel, corners.
  cbn [visited queue head length]. rewrite countClear_replicate. lia.
Qed.

Lemma floodFill_complete (p : Z * Z) :
  cornerReachable p ->
  getFlag (isBackgroundMask
             (floodFill procData targetW targetH backgroundTolerance))
          (pixelIndex p) = true.
Proof.
  destruct floodFill_finished as [Hinv Hdone].
  set (st := floodFill procData targetW targetH backgroundTolerance) in *.
  assert (Hempty : drop (head st) (queue st) = []).
  { unfold fillDone in Hdone. apply negb_true_iff, Nat.ltb_ge in Hdone.
    now apply drop_ge. }
  induction 1 as [p Hcorner Hbg | p q Hp IH Hadj Hq Hbg].
  - apply (inv_coloured st Hinv); auto using corners_inside.
    destruct (inv_corners st Hinv p Hcorner) as [Hv | Hin]; [exact Hv|].
    rewrite Hempty in Hin. destruct Hin.
  - apply (inv_coloured st Hinv); auto.
    destruct (inv_neighbors st Hinv p q (cornerReachable_inside p Hp) IH
                            Hadj Hq) as [Hv | Hin]; [exact Hv|].
    rewrite Hempty in Hin. destruct Hin.
Qed.

End Fill.

(** ** Degenerate merge requests *)

Lemma binary_round_aux_nonneg (prec emax mx ex : Z) (lx : location) :
  SFnonneg (binary_round_aux prec emax false mx ex lx) = true.
Proof.
  unfold binary_round_aux.
  destruct (shr_fexp prec emax mx ex lx) as [mrs e'].
  destruct (shr_fexp prec emax _ e' loc_Exact) as [mrs' e''].
  destruct (shr_m mrs'); [reflexivity | | reflexivity].
  destruct (e'' <=? emax - prec); reflexivity.
Qed.

Lemma SFsqrt_nonneg (prec emax : Z) (x : spec_float) :
  SFnonneg (SFsqrt prec emax x) = true.
Proof.
  destruct x as [[]|[]| |[] m e]; try reflexivity.
  unfold SFsqrt. destruct (SFsqrt_core_binary prec emax (Z.pos m) e) as [[mz ez] lz].
  apply binary_round_aux_nonneg.
Qed.

Lemma SFltb_nonneg_nonpos (s t : spec_float) :
  SFnonneg s = true -> SFleb t (S754_zero false) = true -> SFltb s t = false.
Proof.
  unfold SFnonneg, SFleb, SFltb, SFcompare.
  destruct s as [[]|[]| |[] ms es], t as [[]|[]| |[] mt et]; simpl;
    congruence.
Qed.

Lemma sqrt_not_below (x t : float) :
  (t <=? 0)%float = true -> (Math_sqrt x <? t)%float = false.
Proof.
  unfold Math_sqrt.
  rewrite FloatAxioms.leb_spec, FloatAxioms.ltb_spec, FloatAxioms.sqrt_spec.
  change (Prim2SF 0) with (S754_zero false).
  apply SFltb_nonneg_nonpos, SFsqrt_nonneg.
Qed.

Lemma deltaE_not_below (a b : triple) (t : float) :
  (t <=? 0)%float = true -> (deltaE a b <? t)%float = false.
Proof.
  intros Ht. destruct a as [[l1 a1] b1], b as [[l2 a2] b2]. unfold deltaE.
  now apply sqrt_not_below.
Qed.

Lemma mergeable_never (seedLab : triple) (t : float) (cell : GridCell) :
  (t <=? 0)%float = true -> mergeable seedLab t cell = false.
Proof.
  intros Ht. unfold mergeable. destruct (cellLab cell).
  - rewrite deltaE_not_below by exact Ht. apply andb_false_r.
  - apply andb_false_r.
Qed.

Lemma filter_none {A : Type} (P : A -> bool) (l : list A) :
  (forall a, P a = false) -> List.filter P l = [].
Proof.
  intros H. induction l as [|a l IH]; [reflexivity|].
  cbn [List.filter]. now rewrite H.
Qed.

Lemma mergeSearch_alone (fuel : nat) (grid : Grid) (seedLab : triple)
  (t : float) (r c : Z) :
  (t <=? 0)%float = true ->
  mergeSearch (S fuel) grid seedLab t [(r, c)] [] = [(r, c)].
Proof.
  intros Ht. cbn [mergeSearch positionIn existsb].
  rewrite filter_none.
  - cbn [app]. destruct fuel; reflexivity.
  - intros q. destruct (at_index2 grid q.1 q.2); [|reflexivity].
    now apply mergeable_never.
Qed.

Lemma mapRowFrom_id (f : Z -> GridCell -> GridCell) (row : list GridCell)
  (c0 : Z) :
  (forall (j : nat) cell,
      nth_error row j = Some cell -> f (c0 + Z.of_nat j) cell = cell) ->
  mapRowFrom f c0 row = row.
Proof.
  revert c0. induction row as [|cell row IH]; intros c0 H; [reflexivity|].
  cbn [mapRowFrom]. f_equal.
  - rewrite <- (H 0%nat cell eq_refl) at 2. f_equal. lia.
  - apply IH. intros j cell' Hj.
    rewrite <- (H (S j) cell' Hj) at 2. f_equal. lia.
Qed.

Lemma mapGridFrom_id (f : Z -> Z -> GridCell -> GridCell) (grid : Grid)
  (r0 : Z) :
  (forall (i j : nat) row cell,
      nth_error grid i = Some row -> nth_error row j = Some cell ->
      f (r0 + Z.of_nat i) (Z.of_nat j) cell = cell) ->
  mapGridFrom f r0 grid = grid.
Proof.
  revert r0. induction grid as [|row grid IH]; intros r0 H; [reflexivity|].
  cbn [mapGridFrom]. f_equal.
  - apply mapRowFrom_id. intros j cell Hj.
    rewrite <- (H 0%nat j row cell eq_refl Hj) at 2.
    rewrite Z.add_0_r. reflexivity.
  - apply IH. intros i j row' cell Hi Hj.
    rewrite <- (H (S i) j row' cell Hi Hj) at 2. f_equal. lia.
Qed.

Lemma repaint_self (seed : GridCell) : repaint seed seed = seed.
Proof. destruct seed as [[cd rg lb ex]|ext]; reflexivity. Qed.

Lemma at_index2_nth (grid : Grid) (i j : nat) row (cell : GridCell) :
  nth_error grid i = Some row -> nth_error row j = Some cell ->
  at_index2 grid (Z.of_nat i) (Z.of_nat j) = Some cell.
Proof.
  intros Hi Hj. unfold at_index2, at_index.
  destruct (Z.ltb_spec (Z.of_nat i) 0); [lia|].
  destruct (Z.ltb_spec (Z.of_nat j) 0); [lia|].
  now rewrite !Nat2Z.id, Hi, Hj.
Qed.

Lemma mergeRegionWith_nonpositive (grid : Grid) (r c : Z) (t : float) :
  (t <=? 0)%float = true -> (mergeRegionWith grid r c t).1 = grid.
Proof.
  intros Ht. unfold mergeRegionWith.
  destruct (at_index2 grid r c) as [seed|] eqn:Hseed; [|reflexivity].
  destruct (cellIsExternal seed); [reflexivity|].
  destruct (cellLab seed) as [seedLab|]; [|reflexivity].
  cbn [fst]. replace (4 * cellCount grid + 1)%nat with (S (4 * cellCount grid))
    by lia.
  rewrite mergeSearch_alone by exact Ht.
  apply mapGridFrom_id. intros i j row cell Hi Hj.
  cbn [positionIn existsb fst snd]. rewrite Z.add_0_l.
  destruct (r =? Z.of_nat i) eqn:Hr; [|reflexivity].
  destruct (c =? Z.of_nat j) eqn:Hc; [|reflexivity].
  apply Z.eqb_eq in Hr, Hc. subst r c.
  rewrite (at_index2_nth grid i j row cell Hi Hj) in Hseed.
  injection Hseed as ->. cbn [andb orb]. apply repaint_self.
Qed.

Lemma mergeRegionWith_background (grid : Grid) (r c : Z) (t : float)
  (seed : GridCell) :
  at_index2 grid r c = Some seed -> cellIsExternal seed = true ->
  (mergeRegionWith grid r c t).1 = grid.
Proof.
  intros Hseed Hext. unfold mergeRegionWith. now rewrite Hseed, Hext.
Qed.

Lemma sweep_nonpositive (t : float) (ps : list (Z * Z))
  (acc : Grid * list (Z * Z)) :
  (t <=? 0)%float = true ->
  (fold_left (sweepStep t) ps acc).1 = acc.1.
Proof.
  intros Ht. revert acc. induction ps as [|p ps IH]; intros acc;
    [reflexivity|].
  cbn [fold_left]. rewrite IH. unfold sweepStep.
  destruct (positionIn p acc.2); [reflexivity|].
  cbn [fst]. now apply mergeRegionWith_nonpositive.
Qed.

(** C8. [autoMerge] with threshold 0 gives the grid back unchanged, and so
    does every merge request, seeded or whole-grid, with a threshold of 0 or
    less, and every seeded request whose seed is a background cell. *)
Theorem degenerate_merge_is_identity :
  (forall grid : Grid, autoMerge grid 0 = grid)
  /\ (forall (grid : Grid) (threshold : float),
        (threshold <=? 0)%float = true -> autoMerge grid threshold = grid)
  /\ (forall (grid : Grid) (seedRow seedCol : Z) (threshold : float),
        (threshold <=? 0)%float = true ->
        mergeRegion grid seedRow seedCol threshold = grid)
  /\ (forall (grid : Grid) (seedRow seedCol : Z) (threshold : float)
             (seed : GridCell),
        at_index2 grid seedRow seedCol = Some seed ->
        cellIsExternal seed = true ->
        mergeRegion grid seedRow seedCol threshold = grid).
Proof.
  assert (Hauto : forall (grid : Grid) (threshold : float),
             (threshold <=? 0)%float = true -> autoMerge grid threshold = grid).
  { intros grid threshold Ht. unfold autoMerge.
    now rewrite sweep_nonpositive. }
  split; [|split; [|split]].
  - intros grid. now apply Hauto.
  - exact Hauto.
  - intros grid seedRow seedCol threshold Ht.
    now apply mergeRegionWith_nonpositive.
  - intros grid seedRow seedCol threshold seed Hseed Hext.
    now apply (mergeRegionWith_background grid seedRow seedCol threshold seed).
Qed.

(** ** Colour distance *)

Lemma sqrt_nan_or_nonneg (x : float) :
  PrimFloat.is_nan (Math_sqrt x) = true \/ (0 <=? Math_sqrt x)%float = true.
Proof.
  unfold Math_sqrt, PrimFloat.is_nan.
  rewrite FloatAxioms.eqb_spec, FloatAxioms.leb_spec, FloatAxioms.sqrt_spec.
  change (Prim2SF 0) with (S754_zero false).
  set (s := SF64sqrt (Prim2SF x)).
  assert (H : SFnonneg s = true) by apply SFsqrt_nonneg.
  clearbody s. destruct s as [[]|[]| |[] m e]; try discriminate H; auto.
Qed.

(** X1. [deltaE] never returns a negative number: the result is not below
    zero, and it is either [NaN] or at least zero, whatever [Math.pow]
    returns. *)
Theorem deltaE_is_never_negative (lab1 lab2 : triple) :
  (deltaE lab1 lab2 <? 0)%float = false
  /\ (PrimFloat.is_nan (deltaE lab1 lab2) = true
      \/ (0 <=? deltaE lab1 lab2)%float = true).
Proof.
  split; [now apply deltaE_not_below|].
  destruct lab1 as [[l1 a1] b1], lab2 as [[l2 a2] b2]. unfold deltaE.
  apply sqrt_nan_or_nonneg.
Qed.

Lemma binary_normalize_opp (prec emax m e : Z) :
  binary_normalize prec emax (- m) e false
  = if m =? 0 then S754_zero false
    else SFopp (binary_normalize prec emax m e false).
Proof.
  destruct m as [|p|p]; [reflexivity| |].
  - change (- Z.pos p) with (Z.neg p). cbn [Z.eqb binary_normalize].
    unfold binary_round. destruct (shl_align p e _) as [mz ez].
    apply (binary_round_aux_opp prec emax false).
  - change (- Z.neg p) with (Z.pos p). cbn [Z.eqb binary_normalize].
    unfold binary_round. destruct (shl_align p e _) as [mz ez].
    apply (binary_round_aux_opp prec emax true).
Qed.

Lemma SFsub_swap (prec emax : Z) (x y : spec_float) :
  SFsub prec emax y x = SFopp (SFsub prec emax x y)
  \/ (SFsub prec emax x y = S754_zero false
      /\ SFsub prec emax y x = S754_zero false).
Proof.
  destruct x as [[]|[]| |sx mx ex], y as [[]|[]| |sy my ey];
    cbn [SFsub SFopp Bool.eqb negb]; auto;
    try (left; now rewrite ?negb_involutive).
  rewrite (Z.min_comm ey ex).
  set (ez := Z.min ex ey).
  set (a := cond_Zopp sx (Z.pos (shl_align mx ex ez).1)).
  set (b := cond_Zopp sy (Z.pos (shl_align my ey ez).1)).
  replace (b - a) with (- (a - b)) by lia.
  rewrite binary_normalize_opp.
  destruct (Z.eqb_spec (a - b) 0) as [H0|H0]; [right|left; reflexivity].
  rewrite H0. split; reflexivity.
Qed.

Lemma sub_swap (x y : float) :
  (y - x)%float = (- (x - y))%float
  \/ ((x - y)%float = 0%float /\ (y - x)%float = 0%float).
Proof.
  destruct (SFsub_swap prec emax (Prim2SF x) (Prim2SF y)) as [H | [H1 H2]].
  - left. apply Prim2SF_inj.
    now rewrite FloatAxioms.opp_spec, !FloatAxioms.sub_spec.
  - right. split; apply Prim2SF_inj; rewrite FloatAxioms.sub_spec; assumption.
Qed.

(** X2. [deltaE] does not depend on the order of its two arguments,
    provided the engine's [Math.pow(x, 2)] gives the same number for [x]
    and [-x]. *)
Theorem deltaE_is_symmetric (lab1 lab2 : triple) :
  (forall x : float, Math_pow (- x) 2 = Math_pow x 2) ->
  deltaE lab1 lab2 = deltaE lab2 lab1.
Proof.
  intros Heven.
  assert (Hsq : forall x y : float,
             Math_pow (y - x) 2 = Math_pow (x - y) 2).
  { intros x y. destruct (sub_swap x y) as [-> | [-> ->]];
      [apply Heven | reflexivity]. }
  destruct lab1 as [[l1 a1] b1], lab2 as [[l2 a2] b2]. unfold deltaE.
  now rewrite (Hsq l1 l2), (Hsq a1 a2), (Hsq b1 b2).
Qed.

Lemma float_opp_involutive (x : float) : (- - x)%float = x.
Proof.
  apply Prim2SF_inj. rewrite !FloatAxioms.opp_spec.
  destruct (Prim2SF x) as [[]|[]| |[] m e]; reflexivity.
Qed.

Lemma samplePow_even (x : float) : samplePow (- x) 2 = samplePow x 2.
Proof.
  unfold samplePow. change (2 =? 2)%float with true. cbv iota.
  now rewrite float_mul_opp, (float_mul_comm (- x)), float_mul_opp,
    float_opp_involutive.
Qed.

(** ** Hex fields *)

Lemma hexMatch_prefixed (body : jsstring) :
  hexMatch (35 :: body) = sixHexDigits body.
Proof. reflexivity. Qed.

Lemma hexMatch_unprefixed (c : char16) (rest : jsstring) :
  c <> 35 -> hexMatch (c :: rest) = sixHexDigits (c :: rest).
Proof.
  intros Hc. unfold hexMatch.
  destruct c as [|p|p]; try reflexivity.
  repeat (destruct p as [p|p|]; try reflexivity). congruence.
Qed.

Lemma hexDigitValue_range (c : char16) :
  isHexDigit c = true -> 0 <= hexDigitValue c <= 15.
Proof. unfold isHexDigit, hexDigitValue. intros H. repeat case_match; lia. Qed.

Lemma parseHexPair_byte (hi lo : char16) :
  isHexDigit hi = true -> isHexDigit lo = true ->
  exists v : Z, parseHexPair hi lo = Z2F v /\ 0 <= v <= 255.
Proof.
  intros Hh Hl. apply hexDigitValue_range in Hh, Hl.
  exists (16 * hexDigitValue hi + hexDigitValue lo). split; [reflexivity|lia].
Qed.

Lemma sixHexDigits_digits (body : jsstring) r1 r2 g1 g2 b1 b2 :
  sixHexDigits body = Some ((r1, r2), (g1, g2), (b1, b2)) ->
  body = [r1; r2; g1; g2; b1; b2] /\ forallb isHexDigit body = true.
Proof.
  unfold sixHexDigits.
  destruct body as [|c1 [|c2 [|c3 [|c4 [|c5 [|c6 [|c7 body]]]]]]];
    try discriminate.
  destruct (forallb isHexDigit _) eqn:Hd; [|discriminate].
  intros [= <- <- <- <- <- <-]. auto.
Qed.

Lemma hexMatch_six (hex : jsstring) :
  exists body, hexMatch hex = sixHexDigits body.
Proof.
  destruct hex as [|c rest]; [now exists []|].
  destruct (Z.eq_dec c 35) as [->|Hc].
  - exists rest. apply hexMatch_prefixed.
  - exists (c :: rest). now apply hexMatch_unprefixed.
Qed.

Lemma hexToRgb_bytes (hex : jsstring) : isByteTriple (hexToRgb hex).
Proof.
  unfold hexToRgb. destruct (hexMatch_six hex) as [body ->].
  destruct (sixHexDigits body) as [[[[r1 r2] [g1 g2]] [b1 b2]]|] eqn:Hm.
  - apply sixHexDigits_digits in Hm as [-> Hd].
    cbn [forallb] in Hd. repeat (apply andb_prop in Hd as [? Hd]).
    destruct (parseHexPair_byte r1 r2) as (r & -> & ?); auto.
    destruct (parseHexPair_byte g1 g2) as (g & -> & ?); auto.
    destruct (parseHexPair_byte b1 b2) as (b & -> & ?); auto.
    now exists r, g, b.
  - exists 0, 0, 0. repeat split; try reflexivity; lia.
Qed.

(** X3. [hexToRgb] never fails: for every string the three channels it
    returns are integers between 0 and 255, black included for a string the
    pattern rejects. *)
Theorem hexToRgb_channels_are_bytes (hex : jsstring) :
  exists r g b : Z,
    hexToRgb hex = (Z2F r, Z2F g, Z2F b)
    /\ 0 <= r <= 255 /\ 0 <= g <= 255 /\ 0 <= b <= 255.
Proof. apply hexToRgb_bytes. Qed.

Lemma upperHex_digit (c : char16) : isHexDigit (upperHex c) = isHexDigit c.
Proof. unfold isHexDigit, upperHex. repeat case_match; lia. Qed.

Lemma upperHex_value (c : char16) :
  isHexDigit c = true -> hexDigitValue (upperHex c) = hexDigitValue c.
Proof.
  unfold isHexDigit, hexDigitValue, upperHex. intros H.
  repeat case_match; lia.
Qed.

Lemma upperHex_hash (c : char16) : c <> 35 -> upperHex c <> 35.
Proof. unfold upperHex. case_match; lia. Qed.

Lemma sixHexDigits_upper (body : jsstring) :
  match sixHexDigits (map upperHex body), sixHexDigits body with
  | Some ((r1, r2), (g1, g2), (b1, b2)),
    Some ((r1', r2'), (g1', g2'), (b1', b2')) =>
      parseHexPair r1 r2 = parseHexPair r1' r2'
      /\ parseHexPair g1 g2 = parseHexPair g1' g2'
      /\ parseHexPair b1 b2 = parseHexPair b1' b2'
  | None, None => True
  | _, _ => False
  end.
Proof.
  destruct body as [|c1 [|c2 [|c3 [|c4 [|c5 [|c6 [|c7 body]]]]]]];
    try exact I.
  unfold sixHexDigits. cbn [map forallb]. rewrite !upperHex_digit.
  destruct (isHexDigit c1) eqn:H1; [|exact I].
  destruct (isHexDigit c2) eqn:H2; [|exact I].
  destruct (isHexDigit c3) eqn:H3; [|exact I].
  destruct (isHexDigit c4) eqn:H4; [|exact I].
  destruct (isHexDigit c5) eqn:H5; [|exact I].
  destruct (isHexDigit c6) eqn:H6; [|exact I].
  cbn [andb]. unfold parseHexPair. now rewrite !upperHex_value.
Qed.

(** X4. In a hex field the leading [#] is optional and the case of the
    digits does not matter: a six-unit body gives the same colour with and
    without the [#], and replacing the letters [a] to [f] by their capitals
    changes no result. *)
Theorem hexToRgb_ignores_prefix_and_case :
  (forall body : jsstring,
      length body = 6%nat -> hexToRgb (35 :: body) = hexToRgb body)
  /\ (forall hex : jsstring, hexToRgb (map upperHex hex) = hexToRgb hex).
Proof.
  split.
  - intros body Hlen. unfold hexToRgb. rewrite hexMatch_prefixed.
    destruct body as [|c rest]; [discriminate|].
    destruct (Z.eq_dec c 35) as [->|Hc].
    + rewrite hexMatch_prefixed.
      destruct rest as [|c2 [|c3 [|c4 [|c5 [|c6 [|c7 rest]]]]]];
        try discriminate.
      reflexivity.
    + now rewrite hexMatch_unprefixed.
  - intros hex. unfold hexToRgb.
    assert (Hm : exists body,
               hexMatch (map upperHex hex) = sixHexDigits (map upperHex body)
               /\ hexMatch hex = sixHexDigits body).
    { destruct hex as [|c rest]; [now exists []|].
      destruct (Z.eq_dec c 35) as [->|Hc].
      - exists rest. split; apply hexMatch_prefixed.
      - exists (c :: rest). cbn [map]. split; apply hexMatch_unprefixed; auto.
        now apply upperHex_hash. }
    destruct Hm as (body & -> & ->).
    pose proof (sixHexDigits_upper body) as H.
    destruct (sixHexDigits (map upperHex body))
      as [[[[r1 r2] [g1 g2]] [b1 b2]]|],
       (sixHexDigits body) as [[[[r1' r2'] [g1' g2']] [b1' b2']]|];
      try contradiction; [|reflexivity].
    destruct H as (-> & -> & ->). reflexivity.
Qed.

(** ** Palette entries *)

Lemma trimStart_idem (s : jsstring) : trimStart (trimStart s) = trimStart s.
Proof.
  induction s as [|c s IH]; [reflexivity|]. cbn [trimStart].
  destruct (isWhiteSpace c) eqn:Hc; [exact IH|]. cbn [trimStart].
  now rewrite Hc.
Qed.

Lemma trimStart_head (s : jsstring) (c : char16) (t : jsstring) :
  trimStart s = c :: t -> isWhiteSpace c = false.
Proof.
  induction s as [|x s IH]; [discriminate|]. cbn [trimStart].
  destruct (isWhiteSpace x) eqn:Hx; [exact IH|]. now intros [= <- _].
Qed.

Lemma trimStart_suffix (s : jsstring) : exists pre, s = pre ++ trimStart s.
Proof.
  induction s as [|x s [pre IH]]; [now exists []|]. cbn [trimStart].
  destruct (isWhiteSpace x); [|now exists []].
  exists (x :: pre). cbn [app]. now f_equal.
Qed.

Lemma trim_idem (s : jsstring) : trim (trim s) = trim s.
Proof.
  unfold trim. set (t := trimStart s). set (u := trimStart (rev t)).
  assert (Hfix : trimStart (rev u) = rev u).
  { destruct (rev u) as [|h r] eqn:Hr; [reflexivity|].
    destruct (trimStart_suffix (rev t)) as [pre Hpre]. fold u in Hpre.
    apply (f_equal (@rev _)) in Hpre.
    rewrite rev_involutive, rev_app_distr, Hr in Hpre. cbn [app] in Hpre.
    unfold t in Hpre. apply trimStart_head in Hpre.
    cbn [trimStart]. now rewrite Hpre. }
  rewrite Hfix, rev_involutive. unfold u. now rewrite trimStart_idem.
Qed.

Lemma brandCode_trimmed (headers parts : list jsstring) (brand : BrandName)
  (c : jsstring) :
  brandCode headers parts brand = Some c -> c <> [] /\ trim c = c.
Proof.
  unfold brandCode. destruct (at_index parts _) as [cell|]; [|discriminate].
  destruct (trim cell) as [|x t] eqn:Ht; [discriminate|].
  intros [= <-]. split; [discriminate|]. rewrite <- Ht. apply trim_idem.
Qed.

Lemma lineEntries_elem (headers : list jsstring) (line : jsstring)
  (brand : BrandName) (e : ColorInfo) :
  In e (lineEntries headers line brand) ->
  rowSkipped (hexField line) = false
  /\ exists c, brandCode headers (split 44 line) brand = Some c
               /\ e = mkColorInfo c (hexToRgb (hexField line))
                        (rgbToLab (hexToRgb (hexField line)).1.1
                                  (hexToRgb (hexField line)).1.2
                                  (hexToRgb (hexField line)).2) None.
Proof.
  unfold lineEntries. destruct (rowSkipped _); [intros []|].
  destruct (brandCode _ _ _) as [c|]; [|intros []].
  intros [<- | []]. split; [reflexivity|]. now exists c.
Qed.

Lemma lineEntries_length (headers : list jsstring) (line : jsstring)
  (brand : BrandName) :
  (length (lineEntries headers line brand) <= 1)%nat.
Proof.
  unfold lineEntries. destruct (rowSkipped _); [cbn; lia|].
  destruct (brandCode _ _ _); cbn; lia.
Qed.

Lemma palettes_rows (brand : BrandName) (header : jsstring)
  (rows : list jsstring) :
  split 10 (trim rawPaletteData) = header :: rows ->
  palettes brand
  = flat_map (fun line => lineEntries (split 44 header) line brand) rows.
Proof.
  intros Hs. unfold palettes, parsePalettes, parsePalettesOf. rewrite Hs.
  now rewrite parseLines_entries.
Qed.

Lemma split_nonempty (sep : char16) (s : jsstring) : split sep s <> [].
Proof.
  induction s as [|c s IH]; [discriminate|]. cbn [split].
  destruct (c =? sep); [discriminate|].
  destruct (split sep s); [contradiction|discriminate].
Qed.

(** X5. Every entry of every parsed palette is well formed: it carries no
    background flag, its code is a non-empty string without white space at
    either end, its three channels are integers between 0 and 255, and its
    Lab value is [rgbToLab] of those channels. *)
Theorem palette_entries_are_well_formed (key : PaletteKey) (e : ColorInfo) :
  In e (palettes key) ->
  isExternal e = None
  /\ code e <> []
  /\ trim (code e) = code e
  /\ isByteTriple (rgb e)
  /\ lab e = rgbToLab (rgb e).1.1 (rgb e).1.2 (rgb e).2.
Proof.
  intros Hin.
  destruct (split 10 (trim rawPaletteData)) as [|header rows] eqn:Hs;
    [now apply split_nonempty in Hs|].
  rewrite (palettes_rows key header rows Hs), in_flat_map in Hin.
  destruct Hin as (line & _ & Hin).
  apply lineEntries_elem in Hin as (_ & c & Hc & ->).
  apply brandCode_trimmed in Hc as [Hne Htrim]. cbn [isExternal code rgb lab].
  repeat split; auto. apply hexToRgb_bytes.
Qed.

Lemma indexOf_from_absent (a : list jsstring) (name : jsstring) (i : Z) :
  (forall h, In h a -> jsstring_eqb h name = false) ->
  indexOf_from a name i = -1.
Proof.
  revert i. induction a as [|x a IH]; intros i Ha; [reflexivity|].
  cbn [indexOf_from]. rewrite (Ha x (or_introl eq_refl)).
  apply IH. intros h Hh. apply Ha. now right.
Qed.

(** X6. A brand whose label is not, unit for unit, one of the fields of
    the header line gets an empty palette: the header fields are compared
    as they are, and no data row yields a code for the brand. *)
Theorem brand_without_column_has_empty_palette (brand : BrandName)
  (header : jsstring) (rows : list jsstring) :
  split 10 (trim rawPaletteData) = header :: rows ->
  (forall h, In h (split 44 header) ->
             jsstring_eqb h (brandLabel brand) = false) ->
  palettes brand = [].
Proof.
  intros Hs Habs. rewrite (palettes_rows brand header rows Hs).
  induction rows as [|line rows' IH] in |- *; [reflexivity|].
  cbn [flat_map]. rewrite IH, app_nil_r.
  unfold lineEntries, brandCode, indexOf.
  rewrite (indexOf_from_absent _ _ 0 Habs).
  destruct (rowSkipped _); reflexivity.
Qed.

(** X7. The palette of a brand lists, in the order of the data rows, the
    entry of each row that passes the row test and has a non-empty code in
    the brand's column; a row adds at most one entry, so a palette is never
    longer than the table. *)
Theorem palette_follows_row_order (brand : BrandName) (header : jsstring)
  (rows : list jsstring) :
  split 10 (trim rawPaletteData) = header :: rows ->
  palettes brand
  = flat_map (fun line => lineEntries (split 44 header) line brand) rows
  /\ (forall line,
         (length (lineEntries (split 44%Z header) line brand) <= 1)%nat)
  /\ (length (palettes brand) <= length rows)%nat.
Proof.
  intros Hs. split; [now apply palettes_rows|].
  split; [intros line; apply lineEntries_length|].
  rewrite (palettes_rows brand header rows Hs).
  induction rows as [|line rows' IH] in |- *; [cbn; lia|].
  cbn [flat_map length]. rewrite length_app.
  pose proof (lineEntries_length (split 44 header) line brand). lia.
Qed.

Lemma findClosestIn_none (pal : list ColorInfo) (r g b : float) :
  findClosestIn pal r g b = None <-> pal = [].
Proof.
  unfold findClosestIn. set (t := rgbToLab r g b).
  pose proof (scanInv_fold t pal pal [] _ (scanInv_init t pal)) as Hinv.
  change ([] ++ pal) with pal in Hinv.
  destruct (fold_left (closerOf t) pal (infinity, List.head pal)) as [m c].
  destruct Hinv as [_ [[_ Hc] | (i & e & Hc & Hi & _)]]; cbn [fst snd] in *;
    subst c.
  - destruct pal; cbn [List.head]; split; auto; discriminate.
  - split; [discriminate|]. intros Hnil. rewrite Hnil in Hi. discriminate.
Qed.

(** X8. [findClosestColor] returns [undefined] exactly when the palette of
    the key is empty; on any other palette it returns an entry, for every
    colour, [NaN] channels included. *)
Theorem findClosestColor_undefined_iff_empty_palette
  (r g b : float) (key : PaletteKey) :
  findClosestColor r g b key = None <-> palettes key = [].
Proof. apply findClosestIn_none. Qed.

(** ** Cells of the grid *)

Lemma rangeZ_In (lo hi i : Z) : In i (rangeZ lo hi) -> lo <= i < hi.
Proof.
  unfold rangeZ. rewrite in_map_iff. intros (n & <- & Hn).
  apply in_seq in Hn. lia.
Qed.

Lemma tabulate_Forall {A : Type} (targetW targetH : Z) (f : Z -> Z -> A)
  (P : A -> Prop) :
  (forall r c, 0 <= r < targetH -> 0 <= c < targetW -> P (f r c)) ->
  Forall (Forall P) (tabulate targetW targetH f).
Proof.
  intros H. unfold tabulate. apply List.Forall_forall. intros row Hrow.
  apply in_map_iff in Hrow as (r & <- & Hr). apply rangeZ_In in Hr.
  apply List.Forall_forall. intros cell Hcell.
  apply in_map_iff in Hcell as (c & <- & Hc). apply rangeZ_In in Hc.
  now apply H.
Qed.

Section Cells.

Variable procData : list Byte.byte.
Variables targetW targetH : Z.
Variable paletteKey : PaletteKey.
Variable brightness : float.
Variable removeBackground : bool.
Variable backgroundTolerance : float.

(** Every strategy ends on a copy of a nearest palette entry, marked or
    not. *)
Lemma generateGrid_Forall (algorithm : Algorithm) (P : GridCell -> Prop) :
  (forall (x y z : float) (flag : bool),
      (removeBackground = false -> flag = false) ->
      P (if flag
         then markExternal (spread (findClosestColor x y z paletteKey))
         else spread (findClosestColor x y z paletteKey))) ->
  Forall (Forall P)
         (generateGrid procData targetW targetH algorithm paletteKey
                       brightness removeBackground backgroundTolerance).
Proof.
  intros HP. unfold generateGrid.
  destruct algorithm; apply tabulate_Forall; intros r c Hr Hc.
  - unfold matchCell. apply HP. intros Hoff.
    unfold rawGrid. rewrite tableAt_tabulate by assumption.
    unfold rawCell. cbn [isBg]. now rewrite Hoff.
  - unfold nearestCell. apply HP. intros Hoff. unfold masked.
    now rewrite Hoff.
  - unfold matchCell. apply HP. intros Hoff.
    unfold enhancedGrid. rewrite tableAt_tabulate by assumption.
    rewrite enhancedCell_isBg.
    unfold rawGrid. rewrite tableAt_tabulate by assumption.
    unfold rawCell. cbn [isBg]. now rewrite Hoff.
  - unfold dominantCell. apply HP. intros Hoff. now rewrite Hoff.
Qed.

End Cells.

(** X9. With background removal switched off no cell of the grid is
    flagged as background, whatever the strategy, the image, the brightness
    and the tolerance. *)
Theorem no_background_cell_without_removal
  (procData : list Byte.byte) (targetW targetH : Z) (algorithm : Algorithm)
  (paletteKey : PaletteKey) (brightness backgroundTolerance : float) :
  Forall (Forall (fun cell => cellIsExternal cell = false))
         (generateGrid procData targetW targetH algorithm paletteKey
                       brightness false backgroundTolerance).
Proof.
  apply generateGrid_Forall. intros x y z flag Hflag.
  rewrite (Hflag eq_refl). apply spread_closest_not_external.
Qed.

Lemma fromPalette_spread (key : PaletteKey) (x y z : float) :
  fromPalette key (spread (findClosestColor x y z key)).
Proof.
  unfold findClosestColor.
  destruct (findClosestIn (palettes key) x y z) as [e|] eqn:He; cbn.
  - exists e. split; [eapply findClosestIn_elem, He|]. auto.
  - now apply (findClosestIn_none (palettes key) x y z).
Qed.

Lemma fromPalette_markExternal (key : PaletteKey) (cell : GridCell) :
  fromPalette key cell -> fromPalette key (markExternal cell).
Proof. destruct cell; auto. Qed.

(** X10. Every cell of a generated grid carries the code, the RGB value
    and the Lab value of one entry of the selected palette, under every
    strategy; a cell is the empty object only when the palette is empty. *)
Theorem cells_come_from_the_palette
  (procData : list Byte.byte) (targetW targetH : Z) (algorithm : Algorithm)
  (paletteKey : PaletteKey) (brightness : float) (removeBackground : bool)
  (backgroundTolerance : float) :
  Forall (Forall (fromPalette paletteKey))
         (generateGrid procData targetW targetH algorithm paletteKey
                       brightness removeBackground backgroundTolerance).
Proof.
  apply generateGrid_Forall. intros x y z flag _.
  destruct flag; [apply fromPalette_markExternal|]; apply fromPalette_spread.
Qed.

(** ** A fill that finds no background *)

Lemma binary_round_aux_nonpos (prec emax mx ex : Z) (lx : location) :
  SFnonpos (binary_round_aux prec emax true mx ex lx) = true.
Proof.
  unfold binary_round_aux.
  destruct (shr_fexp prec emax mx ex lx) as [mrs e'].
  destruct (shr_fexp prec emax _ e' loc_Exact) as [mrs' e''].
  destruct (shr_m mrs'); [reflexivity | | reflexivity].
  destruct (e'' <=? emax - prec); reflexivity.
Qed.

Lemma SFltb_nonneg_nonpos_nan (s t : spec_float) :
  SFnonneg s = true -> SFnonpos t = true -> SFltb s t = false.
Proof.
  unfold SFnonneg, SFnonpos, SFltb, SFcompare.
  destruct s as [[]|[]| |[] ms es], t as [[]|[]| |[] mt et]; simpl;
    congruence.
Qed.

Lemma mul_two_nonpos (t : float) :
  (t <=? 0)%float = true -> SFnonpos (Prim2SF (t * 2)) = true.
Proof.
  rewrite FloatAxioms.leb_spec, FloatAxioms.mul_spec.
  change (Prim2SF 0) with (S754_zero false).
  change (Prim2SF 2) with (S754_finite false 4503599627370496 (-51)).
  destruct (Prim2SF t) as [[]|[]| |[] m e]; try discriminate;
    try reflexivity.
  intros _. unfold SF64mul, SFmul. cbn [xorb].
  apply binary_round_aux_nonpos.
Qed.

Lemma isBgColor_nonpositive (procData : list Byte.byte) (t : float)
  (idx : Z) :
  (t <=? 0)%float = true -> isBgColor procData t idx = false.
Proof.
  intros Ht. unfold isBgColor, Math_sqrt.
  rewrite FloatAxioms.ltb_spec, FloatAxioms.sqrt_spec.
  apply SFltb_nonneg_nonpos_nan; [apply SFsqrt_nonneg|].
  now apply mul_two_nonpos.
Qed.

Lemma zero_ratio_not_above (y : float) : (0.5 <? 0 / y)%float = false.
Proof.
  rewrite FloatAxioms.ltb_spec, FloatAxioms.div_spec.
  change (Prim2SF 0) with (S754_zero false).
  destruct (Prim2SF y) as [[]|[]| |[] m e]; reflexivity.
Qed.

Section Unmasked.

Variable procData : list Byte.byte.
Variables targetW targetH : Z.
Variable backgroundTolerance : float.

Local Abbreviation pixelIndex := (Core.pixelIndex targetW).
Local Abbreviation backgroundColoured :=
  (Core.backgroundColoured procData targetW backgroundTolerance).

Hypothesis corners_coloured :
  forall p, In p (corners targetW targetH) -> backgroundColoured p = false.

Lemma fillStep_unmasked (st : FillState) :
  (forall p, In p (queue st) -> backgroundColoured p = false) ->
  isBackgroundMask (fillStep procData targetW targetH backgroundTolerance st)
  = isBackgroundMask st
  /\ queue (fillStep procData targetW targetH backgroundTolerance st)
     = queue st.
Proof.
  intros Hq. unfold fillStep.
  destruct (queue st !! head st) as [[r c]|] eqn:Hhd; [|now split].
  destruct (getFlag (visited st) (r * procW targetW + c)); [now split|].
  assert (Hin : In (r, c) (queue st)).
  { apply list_elem_of_In. eapply list_elem_of_lookup_2, Hhd. }
  apply Hq in Hin. unfold backgroundColoured, pixelIndex in Hin.
  cbn [fst snd] in Hin. rewrite Hin. now split.
Qed.

Lemma fillLoop_unmasked (fuel : nat) (st : FillState) :
  (forall p, In p (queue st) -> backgroundColoured p = false) ->
  isBackgroundMask
    (fillLoop procData targetW targetH backgroundTolerance fuel st)
  = isBackgroundMask st.
Proof.
  revert st. induction fuel as [|fuel IH]; intros st Hq; [reflexivity|].
  cbn [fillLoop]. destruct (fillDone st); [reflexivity|].
  destruct (fillStep_unmasked st Hq) as [Hm Hqueue].
  rewrite IH; [exact Hm|]. now rewrite Hqueue.
Qed.

Lemma backgroundMask_unmasked (removeBackground : bool) :
  backgroundMask procData targetW targetH removeBackground
                 backgroundTolerance
  = replicate (pixelCount targetW targetH) false.
Proof.
  unfold backgroundMask. destruct removeBackground; [|reflexivity].
  unfold floodFill. now rewrite fillLoop_unmasked.
Qed.

Variable paletteKey : PaletteKey.
Variable brightness : float.
Variable removeBackground : bool.

Lemma masked_unmasked (y x : Z) :
  masked procData targetW targetH removeBackground backgroundTolerance y x
  = false.
Proof.
  unfold masked. rewrite backgroundMask_unmasked, getFlag_replicate.
  apply andb_false_r.
Qed.

Lemma rawCell_unmasked (r c : Z) :
  isBg (rawCell procData targetW targetH brightness removeBackground
                backgroundTolerance r c) = false.
Proof.
  unfold rawCell, avgBlock. rewrite avg_fold. cbn [isBg avg_bgCount].
  unfold maskedCount. rewrite filter_none.
  - cbn [length Z.of_nat Z.add]. change (Z2F 0) with 0%float.
    rewrite zero_ratio_not_above. apply andb_false_r.
  - intros p. apply masked_unmasked.
Qed.

Lemma unmasked_cells (algorithm : Algorithm) :
  algorithm <> dominant_pooling ->
  Forall (Forall (fun cell => cellIsExternal cell = false))
         (generateGrid procData targetW targetH algorithm paletteKey
                       brightness removeBackground backgroundTolerance).
Proof.
  intros Halg. unfold generateGrid.
  destruct algorithm; [| | |contradiction]; apply tabulate_Forall;
    intros r c Hr Hc.
  - rewrite matchCell_external. unfold rawGrid.
    rewrite tableAt_tabulate by assumption. apply rawCell_unmasked.
  - unfold nearestCell. rewrite masked_unmasked.
    apply spread_closest_not_external.
  - rewrite matchCell_external. unfold enhancedGrid.
    rewrite tableAt_tabulate by assumption. rewrite enhancedCell_isBg.
    unfold rawGrid. rewrite tableAt_tabulate by assumption.
    apply rawCell_unmasked.
Qed.

End Unmasked.

(** X11. When none of the four corner pixels of the buffer passes the
    colour test of the fill, background removal finds nothing: no pixel is
    masked, and the [nearest], [average] and [gradient_enhanced] strategies
    flag no cell as background. *)
Theorem fill_without_background_corner_masks_nothing
  (procData : list Byte.byte) (targetW targetH : Z) (paletteKey : PaletteKey)
  (brightness : float) (removeBackground : bool)
  (backgroundTolerance : float) :
  (forall p, In p (corners targetW targetH) ->
             isBgColor procData backgroundTolerance
                       (pixelIndex targetW p * 4) = false) ->
  backgroundMask procData targetW targetH removeBackground backgroundTolerance
  = replicate (pixelCount targetW targetH) false
  /\ forall algorithm : Algorithm,
       algorithm <> dominant_pooling ->
       Forall (Forall (fun cell => cellIsExternal cell = false))
              (generateGrid procData targetW targetH algorithm paletteKey
                            brightness removeBackground backgroundTolerance).
Proof.
  intros Hcorners. split.
  - now apply backgroundMask_unmasked.
  - intros algorithm. now apply unmasked_cells.
Qed.

(** X12. With a background tolerance of zero, or below, background
    removal is a no-op: no pixel is closer to white than the tolerance, so
    nothing is masked and the [nearest], [average] and [gradient_enhanced]
    strategies flag no cell, for every image. *)
Theorem nonpositive_tolerance_masks_nothing
  (procData : list Byte.byte) (targetW targetH : Z) (paletteKey : PaletteKey)
  (brightness : float) (removeBackground : bool)
  (backgroundTolerance : float) :
  (backgroundTolerance <=? 0)%float = true ->
  (forall idx, isBgColor procData backgroundTolerance idx = false)
  /\ backgroundMask procData targetW targetH removeBackground
                    backgroundTolerance
     = replicate (pixelCount targetW targetH) false
  /\ forall algorithm : Algorithm,
       algorithm <> dominant_pooling ->
       Forall (Forall (fun cell => cellIsExternal cell = false))
              (generateGrid procData targetW targetH algorithm paletteKey
                            brightness removeBackground backgroundTolerance).
Proof.
  intros Ht.
  assert (Hnone : forall idx,
             isBgColor procData backgroundTolerance idx = false)
    by (intros idx; now apply isBgColor_nonpositive).
  split; [exact Hnone|]. split.
  - apply backgroundMask_unmasked. intros p _. apply Hnone.
  - intros algorithm. apply unmasked_cells. intros p _. apply Hnone.
Qed.

(** X13. Under the [nearest] strategy the cell [(r, c)] is decided by one
    pixel, the one at row [4r + 2] and column [4c + 2] of its block: the
    cell is the palette entry nearest to that pixel's adjusted colour, and
    it is flagged background exactly when removal is on and that pixel is
    masked. The alpha channel is not read. *)
Theorem nearest_cell_samples_block_centre
  (procData : list Byte.byte) (targetW targetH : Z) (paletteKey : PaletteKey)
  (brightness : float) (removeBackground : bool)
  (backgroundTolerance : float) (r c : Z) :
  1 <= targetW -> 1 <= targetH -> 0 <= r < targetH -> 0 <= c < targetW ->
  let p := (4 * r + 2, 4 * c + 2) in
  In p (blockPixels targetW targetH r c)
  /\ at_index2 (generateGrid procData targetW targetH nearest paletteKey
                             brightness removeBackground backgroundTolerance)
               r c
     = Some (let info :=
               spread (findClosestColor (redAt procData targetW brightness p)
                                        (greenAt procData targetW brightness p)
                                        (blueAt procData targetW brightness p)
                                        paletteKey) in
             if removeBackground
                && getFlag (backgroundMask procData targetW targetH
                                           removeBackground
                                           backgroundTolerance)
                           (pixelIndex targetW p)
             then markExternal info else info).
Proof.
  intros Hw Hh Hr Hc p. split.
  - rewrite blockPixels_four by lia. unfold blockOf, p. cbn.
    do 10 right. left. reflexivity.
  - unfold generateGrid. rewrite tabulate_at by assumption. f_equal.
    unfold nearestCell. rewrite centerX_four, centerY_four by assumption.
    reflexivity.
Qed.

(** ** The channel clamp *)

Lemma SFcompare_swap (x y : spec_float) :
  SFcompare y x = option_map CompOpp (SFcompare x y).
Proof.
  unfold SFcompare.
  destruct x as [[]|[]| |[] mx ex], y as [[]|[]| |[] my ey]; try reflexivity;
    cbn [option_map]; f_equal; rewrite (Z.compare_antisym ex ey);
    destruct (ex ?= ey); cbn [CompOpp]; try reflexivity;
    fold (Pos.compare mx my); fold (Pos.compare my mx);
    rewrite (Pos.compare_antisym mx my); destruct (mx ?= my)%positive;
    reflexivity.
Qed.

Lemma SFcompare_defined (x y : spec_float) :
  SFeqb x x = true -> SFeqb y y = true -> SFcompare x y <> None.
Proof.
  unfold SFeqb, SFcompare.
  destruct x as [[]|[]| |[] mx ex], y as [[]|[]| |[] my ey]; simpl;
    congruence.
Qed.

Lemma ltb_leb (x y : float) :
  (x <? y)%float = true -> (x <=? y)%float = true.
Proof.
  rewrite FloatAxioms.ltb_spec, FloatAxioms.leb_spec. unfold SFltb, SFleb.
  destruct (SFcompare _ _) as [[]|]; congruence.
Qed.

Lemma not_ltb_leb (x y : float) :
  PrimFloat.is_nan x = false -> PrimFloat.is_nan y = false ->
  (x <? y)%float = false -> (y <=? x)%float = true.
Proof.
  unfold PrimFloat.is_nan.
  rewrite !FloatAxioms.eqb_spec, FloatAxioms.ltb_spec, FloatAxioms.leb_spec.
  intros Hx%negb_false_iff Hy%negb_false_iff.
  pose proof (SFcompare_defined _ _ Hx Hy) as Hd.
  unfold SFltb, SFleb. rewrite (SFcompare_swap (Prim2SF x) (Prim2SF y)).
  destruct (SFcompare (Prim2SF x) (Prim2SF y)) as [[]|]; cbn; congruence.
Qed.

Lemma leb_not_nan (x y : float) :
  (x <=? y)%float = true ->
  PrimFloat.is_nan x = false /\ PrimFloat.is_nan y = false.
Proof.
  unfold PrimFloat.is_nan.
  rewrite !FloatAxioms.eqb_spec, FloatAxioms.leb_spec.
  unfold SFleb, SFeqb, SFcompare.
  destruct (Prim2SF x) as [[]|[]| |[] mx ex],
           (Prim2SF y) as [[]|[]| |[] my ey]; try discriminate; intros _;
    cbn [negb]; rewrite ?Z.compare_refl;
    try fold (Pos.compare mx mx); try fold (Pos.compare my my);
    rewrite ?Pos.compare_refl; auto.
Qed.

Lemma leb_not_ltb (x y : float) :
  (x <=? y)%float = true -> (y <? x)%float = false.
Proof.
  rewrite FloatAxioms.ltb_spec, FloatAxioms.leb_spec. unfold SFltb, SFleb.
  rewrite (SFcompare_swap (Prim2SF x) (Prim2SF y)).
  destruct (SFcompare (Prim2SF x) (Prim2SF y)) as [[]|]; cbn; congruence.
Qed.

Lemma leb_not_ltb_eqb (x y : float) :
  (x <=? y)%float = true -> (x <? y)%float = false -> (x =? y)%float = true.
Proof.
  rewrite FloatAxioms.ltb_spec, FloatAxioms.leb_spec, FloatAxioms.eqb_spec.
  unfold SFltb, SFleb, SFeqb.
  destruct (SFcompare (Prim2SF x) (Prim2SF y)) as [[]|]; congruence.
Qed.

Lemma eqb_swap (x y : float) : (x =? y)%float = (y =? x)%float.
Proof.
  rewrite !FloatAxioms.eqb_spec. unfold SFeqb.
  rewrite (SFcompare_swap (Prim2SF x) (Prim2SF y)).
  destruct (SFcompare (Prim2SF x) (Prim2SF y)) as [[]|]; reflexivity.
Qed.

Lemma Math_max_zero (v : float) :
  PrimFloat.is_nan v = false ->
  Math_max 0 v = if (0 <? v)%float then v else 0%float.
Proof.
  intros Hv. unfold Math_max. rewrite Hv.
  change (PrimFloat.is_nan 0) with false. cbn [orb].
  change (is_neg_zero 0) with false.
  destruct (0 <? v)%float; [reflexivity|].
  destruct (v <? 0)%float; reflexivity.
Qed.

Lemma Math_min_255 (m : float) :
  PrimFloat.is_nan m = false ->
  Math_min 255 m = if (255 <? m)%float then 255%float else m.
Proof.
  intros Hm. unfold Math_min. rewrite Hm.
  change (PrimFloat.is_nan 255) with false. cbn [orb].
  change (is_neg_zero 255) with false.
  destruct (255 <? m)%float; [reflexivity|].
  destruct (m <? 255)%float; reflexivity.
Qed.

Lemma clamp255_cases (v : float) :
  PrimFloat.is_nan v = false ->
  clamp255 v
  = if (0 <? v)%float then (if (255 <? v)%float then 255%float else v)
    else 0%float.
Proof.
  intros Hv. unfold clamp255. rewrite (Math_max_zero v Hv).
  destruct (0 <? v)%float.
  - now apply Math_min_255.
  - reflexivity.
Qed.

(** X14. The channel clamp [Math.min(255, Math.max(0, v))] gives [NaN]
    for [NaN] and otherwise a number between 0 and 255; a number already
    between 0 and 255 comes back equal to itself. *)
Theorem clamp255_stays_in_range (v : float) :
  (PrimFloat.is_nan v = true -> PrimFloat.is_nan (clamp255 v) = true)
  /\ (PrimFloat.is_nan v = false ->
      (0 <=? clamp255 v)%float = true /\ (clamp255 v <=? 255)%float = true)
  /\ ((0 <=? v)%float = true -> (v <=? 255)%float = true ->
      (clamp255 v =? v)%float = true).
Proof.
  split; [|split].
  - intros Hv. unfold clamp255, Math_max. rewrite Hv, orb_true_r.
    reflexivity.
  - intros Hv. rewrite (clamp255_cases v Hv).
    destruct (0 <? v)%float eqn:H0; [|split; reflexivity].
    destruct (255 <? v)%float eqn:H255; [split; reflexivity|].
    split; [now apply ltb_leb|]. now apply not_ltb_leb.
  - intros H0 H255. destruct (leb_not_nan _ _ H0) as [_ Hv].
    rewrite (clamp255_cases v Hv), (leb_not_ltb _ _ H255).
    destruct (0 <? v)%float eqn:Hlt.
    + unfold PrimFloat.is_nan in Hv. now apply negb_false_iff in Hv.
    + now apply leb_not_ltb_eqb.
Qed.

(** ** Dominant pooling *)

Lemma SFeqb_trans (x y z : spec_float) :
  SFeqb x y = true -> SFeqb y z = true -> SFeqb x z = true.
Proof.
  unfold SFeqb, SFcompare.
  destruct x as [[]|[]| |[] mx ex], y as [[]|[]| |[] my ey],
           z as [[]|[]| |[] mz ez]; simpl; try congruence.
  all: fold (Pos.compare mx my); fold (Pos.compare my mz);
       fold (Pos.compare mx mz).
  all: destruct (Z.compare_spec ex ey), (Z.compare_spec ey ez),
                (Z.compare_spec ex ez); try congruence; try lia; subst.
  all: destruct (Pos.compare_spec mx my), (Pos.compare_spec my mz),
                (Pos.compare_spec mx mz); simpl; try congruence; try lia.
Qed.

Lemma eqb_trans (x y z : float) :
  (x =? y)%float = true -> (y =? z)%float = true -> (x =? z)%float = true.
Proof. rewrite !FloatAxioms.eqb_spec. apply SFeqb_trans. Qed.

Lemma eqb_not_nan (x y : float) :
  (x =? y)%float = true ->
  PrimFloat.is_nan x = false /\ PrimFloat.is_nan y = false.
Proof.
  intros H. apply leb_not_nan.
  rewrite FloatAxioms.leb_spec. rewrite FloatAxioms.eqb_spec in H.
  unfold SFleb. unfold SFeqb in H.
  destruct (SFcompare _ _) as [[]|]; congruence.
Qed.

Lemma sameText_sym (a b : float) : sameText a b = sameText b a.
Proof. unfold sameText. now rewrite eqb_swap, andb_comm. Qed.

Lemma sameText_trans (a b c : float) :
  sameText a b = true -> sameText b c = true -> sameText a c = true.
Proof.
  unfold sameText. intros Hab Hbc.
  apply orb_true_iff in Hab as [Hab | Hab], Hbc as [Hbc | Hbc].
  - now rewrite (eqb_trans a b c).
  - apply eqb_not_nan in Hab as [_ Hb]. rewrite Hb in Hbc. discriminate.
  - apply eqb_not_nan in Hbc as [Hb _]. rewrite Hb, andb_false_r in Hab.
    discriminate.
  - apply andb_prop in Hab as [-> _], Hbc as [_ ->]. apply orb_true_r.
Qed.

Lemma sameKey_sym (k1 k2 : triple) : sameKey k1 k2 = sameKey k2 k1.
Proof.
  unfold sameKey.
  now rewrite (sameText_sym k1.1.1), (sameText_sym k1.1.2),
    (sameText_sym k1.2).
Qed.

Lemma sameKey_trans (k1 k2 k3 : triple) :
  sameKey k1 k2 = true -> sameKey k2 k3 = true -> sameKey k1 k3 = true.
Proof.
  unfold sameKey. intros H12 H23.
  apply andb_prop in H12 as [H12 Hc], H23 as [H23 Hc'].
  apply andb_prop in H12 as [Ha Hb], H23 as [Ha' Hb'].
  now rewrite (sameText_trans _ _ _ Ha Ha'), (sameText_trans _ _ _ Hb Hb'),
    (sameText_trans _ _ _ Hc Hc').
Qed.

Lemma StronglySorted_snoc {A : Type} (R : A -> A -> Prop) (l : list A)
  (x : A) :
  StronglySorted R l -> (forall a, In a l -> R a x) ->
  StronglySorted R (l ++ [x]).
Proof.
  induction 1 as [|a l Hl IH Ha]; intros Hx; cbn [app].
  - repeat constructor.
  - constructor.
    + apply IH. intros b Hb. apply Hx. now right.
    + apply List.Forall_app. split; [exact Ha|].
      constructor; [|constructor]. apply Hx. now left.
Qed.

(** The first bucket of highest count, over the table scanned from
    [acc]. *)
Lemma pickDominant_fold (m : list (triple * Bucket)) (acc : triple * Z) :
  let step :=
    fun (acc : triple * Z) (e : triple * Bucket) =>
      let val := e.2 in
      if acc.2 <? bucket_count val
      then ((bucket_r val, bucket_g val, bucket_b val), bucket_count val)
      else acc in
  (fold_left step m acc = acc
   /\ forall e, In e m -> bucket_count e.2 <= acc.2)
  \/ exists (k : nat) (e : triple * Bucket),
       m !! k = Some e
       /\ fold_left step m acc
          = ((bucket_r e.2, bucket_g e.2, bucket_b e.2), bucket_count e.2)
       /\ acc.2 < bucket_count e.2
       /\ (forall e', In e' m -> bucket_count e'.2 <= bucket_count e.2)
       /\ forall (k' : nat) (e' : triple * Bucket),
            (k' < k)%nat -> m !! k' = Some e' ->
            bucket_count e'.2 < bucket_count e.2.
Proof.
  intros step. revert acc.
  induction m as [|e m IH]; intros acc; [left; split; [reflexivity|]|].
  { intros e []. }
  cbn [fold_left]. unfold step at 2 4.
  destruct (Z.ltb_spec acc.2 (bucket_count e.2)) as [Hlt | Hge].
  - right.
    destruct (IH ((bucket_r e.2, bucket_g e.2, bucket_b e.2),
                  bucket_count e.2))
      as [[Heq Hall] | (k & e2 & Hk & Heq & Hacc & Hall & Hbefore)];
      cbn [fst snd] in *.
    + exists 0%nat, e. repeat split; auto.
      * intros e' [<- | He']; [lia | now apply Hall].
      * intros k' e' Hk'. lia.
    + exists (S k), e2. repeat split; auto; try lia.
      * intros e' [<- | He']; [lia | now apply Hall].
      * intros [|k'] e' Hk' He'; cbn in He'.
        -- injection He' as <-. lia.
        -- apply (Hbefore k'); [lia | exact He'].
  - destruct (IH acc)
      as [[Heq Hall] | (k & e2 & Hk & Heq & Hacc & Hall & Hbefore)].
    + left. split; [exact Heq|].
      intros e' [<- | He']; [lia | now apply Hall].
    + right. exists (S k), e2. repeat split; auto.
      * intros e' [<- | He']; [lia | now apply Hall].
      * intros [|k'] e' Hk' He'; cbn in He'.
        -- injection He' as <-. lia.
        -- apply (Hbefore k'); [lia | exact He'].
Qed.

Lemma StronglySorted_lookup {A : Type} (R : A -> A -> Prop) (l : list A) :
  StronglySorted R l ->
  forall (i j : nat) (a b : A),
    (i < j)%nat -> l !! i = Some a -> l !! j = Some b -> R a b.
Proof.
  induction 1 as [|x l Hl IH Hx]; intros i j a b Hij Ha Hb;
    [discriminate|].
  destruct j as [|j]; [lia|]. cbn in Hb.
  destruct i as [|i]; cbn in Ha.
  - injection Ha as <-. rewrite List.Forall_forall in Hx. apply Hx.
    apply list_elem_of_In. eapply list_elem_of_lookup_2, Hb.
  - apply (IH i j); [lia | exact Ha | exact Hb].
Qed.

Lemma lookup_map {A B : Type} (f : A -> B) (l : list A) (i : nat) :
  map f l !! i = option_map f (l !! i).
Proof.
  revert i. induction l as [|a l IH]; intros [|i]; try reflexivity.
  apply IH.
Qed.

Lemma filter_none_in {A : Type} (P : A -> bool) (l : list A) :
  (forall a, In a l -> P a = false) -> List.filter P l = [].
Proof.
  induction l as [|a l IH]; intros H; [reflexivity|]. cbn [List.filter].
  rewrite (H a (or_introl eq_refl)). apply IH. intros b Hb. apply H.
  now right.
Qed.

Section Pool.

Variable procData : list Byte.byte.
Variables targetW targetH : Z.
Variable brightness : float.
Variable removeBackground : bool.
Variable backgroundTolerance : float.

Let stepPool := poolStep procData targetW targetH brightness removeBackground
                         backgroundTolerance.
Let isMasked := masked procData targetW targetH removeBackground
                       backgroundTolerance.

Local Abbreviation redAt := (Core.redAt procData targetW brightness).
Local Abbreviation greenAt := (Core.greenAt procData targetW brightness).
Local Abbreviation blueAt := (Core.blueAt procData targetW brightness).
Local Abbreviation transparentAt := (Core.transparentAt procData targetW).
Local Abbreviation pixelKey := (Core.pixelKey procData targetW brightness).
Local Abbreviation sameBucket :=
  (Core.sameBucket procData targetW brightness).
Local Abbreviation bucketSize :=
  (Core.bucketSize procData targetW brightness).
Local Abbreviation backgroundCount :=
  (Core.backgroundCount procData targetW targetH removeBackground
                        backgroundTolerance).
Local Abbreviation leadsBucket :=
  (Core.leadsBucket procData targetW brightness).
Local Abbreviation bucketEntry :=
  (Core.bucketEntry procData targetW brightness).
Local Abbreviation leadersOf := (Core.leadersOf procData targetW brightness).

Lemma poolStep_cases (st : PoolState) (p : Z * Z) :
  stepPool st p
  = if transparentAt p
    then mkPool (colorFreq st) (pool_bgCount st + 1) (pool_totalCount st + 1)
    else mkPool
           (freqBump
              (if freqHas (colorFreq st) (pixelKey p) then colorFreq st
               else colorFreq st
                    ++ [(pixelKey p,
                         mkBucket (redAt p) (greenAt p) (blueAt p) 0)])
              (pixelKey p))
           (if isMasked p.1 p.2 then pool_bgCount st + 1
            else pool_bgCount st)
           (pool_totalCount st + 1).
Proof. destruct p as [y x]. reflexivity. Qed.

Lemma pool_fold_bg (px : list (Z * Z)) (st : PoolState) :
  pool_bgCount (fold_left stepPool px st)
  = pool_bgCount st + backgroundCount px.
Proof.
  revert st. induction px as [|p px IH]; intros st.
  - unfold backgroundCount. cbn. lia.
  - cbn [fold_left]. rewrite IH, poolStep_cases. unfold backgroundCount.
    cbn [List.filter]. fold isMasked.
    destruct (transparentAt p), (isMasked p.1 p.2);
      cbn [orb length pool_bgCount]; lia.
Qed.

Lemma sameBucket_refl (p : Z * Z) : sameBucket p p = true.
Proof. apply sameKey_refl. Qed.

Lemma sameBucket_sym (p q : Z * Z) : sameBucket p q = sameBucket q p.
Proof. apply sameKey_sym. Qed.

Lemma sameBucket_trans (p q s : Z * Z) :
  sameBucket p q = true -> sameBucket q s = true -> sameBucket p s = true.
Proof. apply sameKey_trans. Qed.

Lemma bucketSize_snoc (px : list (Z * Z)) (p l : Z * Z) :
  bucketSize (px ++ [p]) l
  = bucketSize px l
    + (if negb (transparentAt p) && sameBucket l p then 1 else 0).
Proof.
  unfold bucketSize. rewrite List.filter_app, length_app. cbn [List.filter].
  destruct (negb (transparentAt p) && sameBucket l p); cbn [length]; lia.
Qed.

Lemma bucketSize_same (px : list (Z * Z)) (p q : Z * Z) :
  sameBucket p q = true -> bucketSize px p = bucketSize px q.
Proof.
  intros Hpq. unfold bucketSize. do 2 f_equal. apply List.filter_ext.
  intros x. f_equal.
  destruct (sameBucket q x) eqn:Hq.
  - now apply (sameBucket_trans p q x).
  - destruct (sameBucket p x) eqn:Hp; [|reflexivity].
    rewrite <- Hq. symmetry. apply (sameBucket_trans q p x); [|exact Hp].
    now rewrite sameBucket_sym.
Qed.

Lemma bucketSize_nonneg (px : list (Z * Z)) (p : Z * Z) :
  0 <= bucketSize px p.
Proof. unfold bucketSize. lia. Qed.

(** [count++] on the table of the buckets led by [ps], for the opaque
    pixel [p]. *)
Lemma bump_leaders (px ps : list (Z * Z)) (p : Z * Z)
  (rest : ColorFreq) :
  StronglySorted (fun a b => sameBucket a b = false) ps ->
  transparentAt p = false ->
  freqBump (map (bucketEntry px) ps ++ rest) (pixelKey p)
  = map (bucketEntry (px ++ [p])) ps
    ++ (if existsb (fun l => sameBucket l p) ps then rest
        else freqBump rest (pixelKey p)).
Proof.
  intros Hs Hop. induction Hs as [|l ps Hs IH Hl]; [reflexivity|].
  cbn [map app existsb]. unfold bucketEntry at 1 3. cbn [freqBump].
  change (sameKey (pixelKey l) (pixelKey p)) with (sameBucket l p).
  rewrite bucketSize_snoc, Hop. cbn [negb andb].
  destruct (sameBucket l p) eqn:Hlp; cbn [orb].
  - f_equal. f_equal. apply map_ext_in. intros l' Hl'.
    unfold bucketEntry. rewrite bucketSize_snoc, Hop. cbn [negb andb].
    rewrite List.Forall_forall in Hl.
    destruct (sameBucket l' p) eqn:Hl'p; [|now rewrite Z.add_0_r].
    exfalso. rewrite sameBucket_sym in Hl'p.
    pose proof (sameBucket_trans l p l' Hlp Hl'p) as Hll'.
    rewrite (Hl l' Hl') in Hll'. discriminate.
  - rewrite Z.add_0_r. f_equal. exact IH.
Qed.

Lemma freqHas_leaders (px ps : list (Z * Z)) (p : Z * Z) :
  freqHas (map (bucketEntry px) ps) (pixelKey p)
  = existsb (fun l => sameBucket l p) ps.
Proof.
  unfold freqHas. induction ps as [|l ps IH]; [reflexivity|].
  cbn [map existsb]. now rewrite IH.
Qed.

Lemma leaders_distinct (px : list (Z * Z)) (leaders : list (nat * (Z * Z))) :
  (forall l, In l leaders -> leadsBucket px l.1 l.2) ->
  StronglySorted (fun a b : nat * (Z * Z) => (a.1 < b.1)%nat) leaders ->
  StronglySorted (fun a b => sameBucket a b = false) (map snd leaders).
Proof.
  intros Hlead Hs. induction Hs as [|a ls Hs IH Ha]; [constructor|].
  cbn [map]. constructor.
  - apply IH. intros l Hl. apply Hlead. now right.
  - apply List.Forall_forall. intros q Hq.
    apply in_map_iff in Hq as (b & <- & Hb).
    rewrite List.Forall_forall in Ha.
    destruct (Hlead a (or_introl eq_refl)) as (Ha1 & Ha2 & _).
    destruct (Hlead b (or_intror Hb)) as (_ & _ & Hb3).
    rewrite sameBucket_sym. apply (Hb3 a.1 a.2); auto.
Qed.

Lemma leadsBucket_snoc (px : list (Z * Z)) (p : Z * Z) (i : nat)
  (l : Z * Z) :
  leadsBucket px i l -> leadsBucket (px ++ [p]) i l.
Proof.
  intros (Hi & Hop & Hfirst).
  pose proof (lookup_lt_Some _ _ _ Hi) as Hlt.
  split; [|split; [exact Hop|]].
  - rewrite lookup_app_l by exact Hlt. exact Hi.
  - intros j q Hj Hq. rewrite lookup_app_l in Hq by lia.
    now apply (Hfirst j q).
Qed.

Lemma pool_step_leaders (px : list (Z * Z)) (p : Z * Z) (st : PoolState)
  (leaders : list (nat * (Z * Z))) :
  leadersOf px leaders ->
  colorFreq st = map (fun l => bucketEntry px l.2) leaders ->
  exists leaders',
    leadersOf (px ++ [p]) leaders'
    /\ colorFreq (stepPool st p)
       = map (fun l => bucketEntry (px ++ [p]) l.2) leaders'.
Proof.
  intros (Hlead & Hsorted & Hcover) Hm.
  pose proof (leaders_distinct px leaders Hlead Hsorted) as Hdist.
  rewrite poolStep_cases.
  destruct (transparentAt p) eqn:Hop.
  - exists leaders. split; [split; [|split]|].
    + intros l Hl. now apply leadsBucket_snoc, Hlead.
    + exact Hsorted.
    + intros q Hq Hq'. apply in_app_iff in Hq as [Hq | [<- | []]];
        [now apply Hcover | congruence].
    + cbn [colorFreq]. rewrite Hm. apply map_ext. intros l.
      unfold bucketEntry. rewrite bucketSize_snoc, Hop. cbn [negb andb].
      now rewrite Z.add_0_r.
  - cbn [colorFreq]. rewrite Hm, <- (map_map snd (bucketEntry px)).
    assert (Hhas : freqHas (map (bucketEntry px) (map snd leaders))
                           (pixelKey p)
                   = existsb (fun l => sameBucket l p) (map snd leaders)).
    { apply freqHas_leaders. }
    rewrite Hhas.
    destruct (existsb (fun l => sameBucket l p) (map snd leaders)) eqn:Hex.
    + exists leaders. split; [split; [|split]|].
      * intros l Hl. now apply leadsBucket_snoc, Hlead.
      * exact Hsorted.
      * intros q Hq Hq'. apply in_app_iff in Hq as [Hq | [<- | []]];
          [now apply Hcover|].
        apply existsb_exists in Hex as (x & Hx & Hxp).
        apply in_map_iff in Hx as (l & <- & Hl). now exists l.
      * rewrite <- (app_nil_r (map (bucketEntry px) (map snd leaders))).
        rewrite (bump_leaders px _ p [] Hdist Hop), Hex, app_nil_r.
        now rewrite map_map.
    + assert (Hnone : forall l, In l leaders -> sameBucket l.2 p = false).
      { intros l Hl.
        destruct (sameBucket l.2 p) eqn:Hlp; [|reflexivity].
        rewrite <- Hex. symmetry. apply existsb_exists.
        exists l.2. split; [now apply in_map|exact Hlp]. }
      assert (Hnew : forall q, In q px -> transparentAt q = false ->
                               sameBucket p q = false).
      { intros q Hq Hq'. destruct (Hcover q Hq Hq') as (l & Hl & Hlq).
        destruct (sameBucket p q) eqn:Hpq; [|reflexivity].
        rewrite <- (Hnone l Hl). symmetry.
        apply (sameBucket_trans l.2 q p); [exact Hlq|].
        now rewrite sameBucket_sym. }
      exists (leaders ++ [(length px, p)]). split; [split; [|split]|].
      * intros l Hl. apply in_app_iff in Hl as [Hl | [<- | []]];
          [now apply leadsBucket_snoc, Hlead|].
        cbn [fst snd]. split; [|split; [exact Hop|]].
        -- rewrite lookup_app_r by lia. now rewrite Nat.sub_diag.
        -- intros j q Hj Hq Hq'. rewrite lookup_app_l in Hq by exact Hj.
           apply Hnew; [|exact Hq'].
           apply list_elem_of_In. eapply list_elem_of_lookup_2, Hq.
      * apply StronglySorted_snoc; [exact Hsorted|].
        intros a Ha. cbn [fst]. destruct (Hlead a Ha) as (Hi & _).
        apply (lookup_lt_Some _ _ _ Hi).
      * intros q Hq Hq'. apply in_app_iff in Hq as [Hq | [<- | []]].
        -- destruct (Hcover q Hq Hq') as (l & Hl & Hlq).
           exists l. split; [apply in_app_iff; now left | exact Hlq].
        -- exists (length px, p). split; [apply in_app_iff; right; now left|].
           apply sameBucket_refl.
      * rewrite (bump_leaders px _ p _ Hdist Hop), Hex.
        cbn [freqBump]. rewrite sameKey_refl.
        rewrite map_app, map_map. cbn [map snd bucket_r bucket_g bucket_b
                                          bucket_count].
        f_equal. unfold bucketEntry. rewrite bucketSize_snoc, Hop.
        rewrite sameBucket_refl. cbn [negb andb].
        assert (H0 : bucketSize px p = 0).
        { unfold bucketSize. rewrite filter_none_in; [reflexivity|].
          intros q Hq. destruct (transparentAt q) eqn:Hq'; [reflexivity|].
          cbn [negb andb]. now apply Hnew. }
        now rewrite H0.
Qed.

Lemma pool_fold_leaders (px : list (Z * Z)) :
  exists leaders,
    leadersOf px leaders
    /\ colorFreq (fold_left stepPool px (mkPool [] 0 0))
       = map (fun l => bucketEntry px l.2) leaders.
Proof.
  induction px as [|p px (leaders & Hl & Hm)] using rev_ind.
  - exists []. split; [|reflexivity]. split; [|split].
    + intros l [].
    + constructor.
    + intros q [].
  - rewrite fold_left_app. cbn [fold_left].
    now apply (pool_step_leaders px p _ leaders).
Qed.

Lemma backgroundCount_bounds (px : list (Z * Z)) :
  0 <= backgroundCount px <= Z.of_nat (length px).
Proof.
  unfold backgroundCount.
  pose proof (List.filter_length_le
                (fun p => transparentAt p || isMasked p.1 p.2) px).
  fold isMasked. lia.
Qed.

(** The swatch of a block with an opaque pixel. *)
Lemma pool_fold_dominant (px : list (Z * Z)) :
  (exists p, In p px /\ transparentAt p = false) ->
  exists (i0 : nat) (p0 : Z * Z),
    leadsBucket px i0 p0
    /\ pickDominant (colorFreq (fold_left stepPool px (mkPool [] 0 0)))
       = (redAt p0, greenAt p0, blueAt p0)
    /\ (forall q, In q px -> transparentAt q = false ->
                  bucketSize px q <= bucketSize px p0)
    /\ (forall (j : nat) (q : Z * Z),
          (j < i0)%nat -> px !! j = Some q -> transparentAt q = false ->
          bucketSize px q < bucketSize px p0).
Proof.
  intros (p & Hp & Hop).
  destruct (pool_fold_leaders px)
    as (leaders & (Hlead & Hsorted & Hcover) & ->).
  unfold pickDominant.
  destruct (pickDominant_fold (map (fun l => bucketEntry px l.2) leaders)
              ((255%float, 255%float, 255%float), -1))
    as [[_ Hall] | (k & e & Hk & Heq & _ & Hall & Hbefore)];
    cbn [fst snd] in Hall.
  - exfalso. destruct (Hcover p Hp Hop) as (l & Hl & _).
    pose proof (Hall (bucketEntry px l.2)
                     (in_map (fun l => bucketEntry px l.2) _ l Hl)) as Hle.
    cbn [snd bucketEntry bucket_count] in Hle.
    pose proof (bucketSize_nonneg px l.2). unfold bucketEntry in Hle.
    cbn [snd bucket_count] in Hle. lia.
  - rewrite lookup_map in Hk.
    destruct (leaders !! k) as [l0|] eqn:Hl0; [|discriminate].
    cbn [option_map] in Hk. injection Hk as <-.
    assert (Hin0 : In l0 leaders).
    { apply list_elem_of_In. eapply list_elem_of_lookup_2, Hl0. }
    exists l0.1, l0.2. split; [now apply Hlead|].
    split; [exact (f_equal fst Heq)|]. unfold bucketEntry in Hall, Hbefore.
    cbn [snd bucket_count] in Hall, Hbefore. split.
    + intros q Hq Hq'. destruct (Hcover q Hq Hq') as (l & Hl & Hlq).
      rewrite <- (bucketSize_same px l.2 q Hlq).
      apply (Hall (bucketEntry px l.2)).
      now apply (in_map (fun l => bucketEntry px l.2)).
    + intros j q Hj Hq Hq'.
      assert (Hqin : In q px).
      { apply list_elem_of_In. eapply list_elem_of_lookup_2, Hq. }
      destruct (Hcover q Hqin Hq') as (l & Hl & Hlq).
      rewrite <- (bucketSize_same px l.2 q Hlq).
      destruct (Hlead l Hl) as (_ & _ & Hfirst).
      assert (Hlj : (l.1 <= j)%nat).
      { destruct (Nat.le_gt_cases l.1 j) as [Hle | Hgt]; [exact Hle|].
        rewrite (Hfirst j q Hgt Hq Hq') in Hlq. discriminate. }
      apply list_elem_of_In, list_elem_of_lookup_1 in Hl as [k' Hk'].
      destruct (Nat.lt_trichotomy k' k) as [Hlt | [-> | Hgt]].
      * apply (Hbefore k' (bucketEntry px l.2) Hlt).
        rewrite lookup_map, Hk'. reflexivity.
      * rewrite Hl0 in Hk'. injection Hk' as <-. lia.
      * pose proof (StronglySorted_lookup _ _ Hsorted k k' l0 l Hgt Hl0 Hk').
        cbn beta in *. lia.
Qed.

End Pool.

(** X15. [pickDominant] returns the colour of the first bucket, in
    insertion order, whose count is the highest: no bucket has a higher
    count and every bucket before it has a lower one. On an empty table it
    returns white. *)
Theorem pickDominant_takes_first_highest_count
  (m : list (triple * Bucket)) :
  (forall e, In e m -> 0 <= bucket_count e.2) ->
  (m = [] /\ pickDominant m = (255%float, 255%float, 255%float))
  \/ exists (k : nat) (e : triple * Bucket),
       m !! k = Some e
       /\ pickDominant m = (bucket_r e.2, bucket_g e.2, bucket_b e.2)
       /\ (forall e', In e' m -> bucket_count e'.2 <= bucket_count e.2)
       /\ forall (k' : nat) (e' : triple * Bucket),
            (k' < k)%nat -> m !! k' = Some e' ->
            bucket_count e'.2 < bucket_count e.2.
Proof.
  intros Hpos. unfold pickDominant.
  destruct (pickDominant_fold m ((255%float, 255%float, 255%float), -1))
    as [[Heq Hall] | (k & e & Hk & Heq & _ & Hall & Hbefore)];
    cbn [fst snd] in Hall.
  - left. destruct m as [|e m]; [split; reflexivity|].
    pose proof (Hall e (or_introl eq_refl)).
    pose proof (Hpos e (or_introl eq_refl)). lia.
  - right. exists k, e. split; [exact Hk|].
    split; [exact (f_equal fst Heq)|]. auto.
Qed.

(** X16. Under the [dominant_pooling] strategy the swatch of a cell is
    white when all 16 pixels of its block are transparent. Otherwise it is
    the exact adjusted colour of an opaque pixel of the block, the first
    one of its bucket in scan order; no bucket of the block holds more
    opaque pixels than that pixel's bucket, and every opaque pixel scanned
    before it is in a bucket that holds fewer. The cell is the palette entry
    nearest to the swatch, flagged background exactly when removal is on and
    more than half of the 16 pixels are transparent or masked. *)
Theorem dominant_cell_is_most_frequent_bucket
  (procData : list Byte.byte) (targetW targetH : Z) (paletteKey : PaletteKey)
  (brightness : float) (removeBackground : bool)
  (backgroundTolerance : float) (r c : Z) :
  1 <= targetW -> 1 <= targetH -> 0 <= r < targetH -> 0 <= c < targetW ->
  let px := blockPixels targetW targetH r c in
  let opaque p := transparentAt procData targetW p = false in
  let size := bucketSize procData targetW brightness px in
  let bgCount :=
    backgroundCount procData targetW targetH removeBackground
                    backgroundTolerance px in
  exists swatch : triple,
    at_index2 (generateGrid procData targetW targetH dominant_pooling
                            paletteKey brightness removeBackground
                            backgroundTolerance) r c
    = Some (let info :=
              spread (findClosestColor swatch.1.1 swatch.1.2 swatch.2
                                       paletteKey) in
            if removeBackground && (16 <? 2 * bgCount)
            then markExternal info else info)
    /\ ((forall p, In p px -> transparentAt procData targetW p = true) ->
        swatch = (255%float, 255%float, 255%float))
    /\ ((exists p, In p px /\ opaque p) ->
        exists (i0 : nat) (p0 : Z * Z),
          px !! i0 = Some p0 /\ opaque p0
          /\ swatch = (redAt procData targetW brightness p0,
                       greenAt procData targetW brightness p0,
                       blueAt procData targetW brightness p0)
          /\ (forall q, In q px -> opaque q -> size q <= size p0)
          /\ (forall (j : nat) (q : Z * Z),
                (j < i0)%nat -> px !! j = Some q -> opaque q ->
                size q < size p0)).
Proof.
  intros Hw Hh Hr Hc px opaque size bgCount.
  set (st := poolBlock procData targetW targetH brightness removeBackground
                       backgroundTolerance r c).
  exists (pickDominant (colorFreq st)).
  assert (Hlen : length px = 16%nat).
  { unfold px. rewrite blockPixels_four by lia. apply blockOf_length. }
  split; [|split].
  - unfold generateGrid. rewrite tabulate_at by assumption. f_equal.
    unfold dominantCell. fold st.
    assert (Hbg : pool_bgCount st = bgCount).
    { unfold st, poolBlock. fold px. now rewrite pool_fold_bg. }
    assert (Htot : pool_totalCount st = 16).
    { unfold st, poolBlock. fold px. rewrite pool_fold_total, Hlen.
      reflexivity. }
    rewrite Hbg, Htot, half_of_sixteen; [reflexivity|].
    pose proof (backgroundCount_bounds procData targetW targetH
                  removeBackground backgroundTolerance px) as Hb.
    fold bgCount in Hb. rewrite Hlen in Hb. lia.
  - intros Hall.
    assert (Hnil : colorFreq st = []).
    { unfold st, poolBlock. fold px. apply pool_fold_empty. now split. }
    now rewrite Hnil.
  - intros Hex. unfold st, poolBlock. fold px.
    destruct (pool_fold_dominant procData targetW targetH brightness
                removeBackground backgroundTolerance px Hex)
      as (i0 & p0 & (Hi0 & Hop0 & _) & Hsw & Hmax & Hties).
    exists i0, p0. auto.
Qed.


(** ** Bead statistics *)

Lemma jsstring_eqb_eq (a b : jsstring) : jsstring_eqb a b = true <-> a = b.
Proof.
  revert b. induction a as [|x a IH]; intros [|y b]; cbn [jsstring_eqb];
    try (split; [discriminate|discriminate]); [tauto|].
  rewrite andb_true_iff, Z.eqb_eq, IH. split; [intros [-> ->]; reflexivity|].
  intros [= -> ->]. auto.
Qed.

Lemma sameCode_eq (a b : option jsstring) : sameCode a b = true <-> a = b.
Proof.
  destruct a as [x|], b as [y|]; cbn [sameCode];
    try (split; [discriminate|discriminate]); [|tauto].
  rewrite jsstring_eqb_eq. split; [now intros ->|now intros [= ->]].
Qed.

Lemma sameCode_refl (a : option jsstring) : sameCode a a = true.
Proof. now apply sameCode_eq. Qed.

Lemma sameCode_sym (a b : option jsstring) : sameCode a b = sameCode b a.
Proof.
  destruct (sameCode a b) eqn:E, (sameCode b a) eqn:E'; try reflexivity.
  - apply sameCode_eq in E. subst b. now rewrite sameCode_refl in E'.
  - apply sameCode_eq in E'. subst b. now rewrite sameCode_refl in E.
Qed.

Lemma sameCode_neq (a b : option jsstring) : a <> b -> sameCode a b = false.
Proof.
  intros H. destruct (sameCode a b) eqn:E; [|reflexivity].
  now apply sameCode_eq in E.
Qed.

Lemma statsHas_In (m : list (option jsstring * Stat))
  (key : option jsstring) :
  statsHas m key = true <-> In key (map fst m).
Proof.
  unfold statsHas. rewrite existsb_exists, in_map_iff. split.
  - intros (e & He & Hk). apply sameCode_eq in Hk. now exists e.
  - intros (e & Hk & He). exists e. split; [exact He|]. now apply sameCode_eq.
Qed.

Lemma statsBump_keys (m : list (option jsstring * Stat))
  (key : option jsstring) :
  map fst (statsBump m key) = map fst m.
Proof.
  induction m as [|[k s] m IH]; [reflexivity|]. cbn [statsBump].
  destruct (sameCode k key); cbn [map fst]; congruence.
Qed.

Lemma statsBump_total (m : list (option jsstring * Stat))
  (key : option jsstring) :
  statsHas m key = true ->
  totalOf (map snd (statsBump m key)) = totalOf (map snd m) + 1.
Proof.
  induction m as [|[k s] m IH]; [discriminate|].
  cbn [statsHas existsb fst statsBump]. destruct (sameCode k key).
  - intros _. cbn [map snd totalOf fold_right stat_count]. unfold totalOf. lia.
  - cbn [orb]. intros H. cbn [map snd totalOf fold_right].
    unfold totalOf in IH |- *. cbn [fold_right]. rewrite (IH H). lia.
Qed.

(** With distinct keys, [count++] changes the entry of the key and no
    other. *)
Lemma statsBump_In (m : list (option jsstring * Stat))
  (key k : option jsstring) (s : Stat) :
  List.NoDup (map fst m) ->
  In (k, s) (statsBump m key) ->
  exists s0, In (k, s0) m
             /\ stat_color s = stat_color s0
             /\ stat_count s
                = stat_count s0 + (if sameCode k key then 1 else 0).
Proof.
  induction m as [|[k0 s0] m IH]; [intros _ []|].
  cbn [map fst statsBump]. intros Hnd.
  apply List.NoDup_cons_iff in Hnd as [Hk0 Hnd].
  destruct (sameCode k0 key) eqn:Hkey.
  - apply sameCode_eq in Hkey. subst key. intros [[= <- <-] | Hin].
    + exists s0. rewrite sameCode_refl. cbn. auto.
    + exists s. split; [now right|].
      rewrite sameCode_neq; [split; [reflexivity|lia]|].
      intros ->. apply Hk0. now apply (in_map fst _ (k0, s)).
  - intros [[= <- <-] | Hin].
    + exists s0. rewrite Hkey. split; [now left|]. split; [reflexivity|lia].
    + destruct (IH Hnd Hin) as (s1 & H1 & H2 & H3).
      exists s1. split; [now right|]. auto.
Qed.

Lemma beadCells_snoc (cells : list GridCell) (c : GridCell) :
  beadCells (cells ++ [c])
  = beadCells cells ++ (if cellIsExternal c then [] else [c]).
Proof.
  unfold beadCells. rewrite List.filter_app. cbn [List.filter].
  now destruct (cellIsExternal c).
Qed.

Lemma beadsOf_snoc (cells : list GridCell) (c : GridCell)
  (k : option jsstring) :
  beadsOf (cells ++ [c]) k
  = beadsOf cells k
    + (if negb (cellIsExternal c) && sameCode (cellCode c) k then 1 else 0).
Proof.
  unfold beadsOf. rewrite beadCells_snoc, List.filter_app, length_app.
  destruct (cellIsExternal c); cbn [negb andb List.filter length];
    [lia|].
  destruct (sameCode (cellCode c) k); cbn [length]; lia.
Qed.

Lemma beadsOf_absent (cells : list GridCell) (k : option jsstring) :
  (forall c, In c cells -> cellIsExternal c = false -> cellCode c <> k) ->
  beadsOf cells k = 0.
Proof.
  intros H. unfold beadsOf. rewrite filter_none_in; [reflexivity|].
  intros c Hc. unfold beadCells in Hc. apply filter_In in Hc as [Hc Hext].
  apply negb_true_iff in Hext. apply sameCode_neq. now apply H.
Qed.

Lemma countCell_counted (cells : list GridCell) (c : GridCell)
  (m : list (option jsstring * Stat)) :
  countedCells cells m -> countedCells (cells ++ [c]) (countCell m c).
Proof.
  intros (Hnd & Htot & Hent & Hcov). unfold countCell.
  destruct (cellIsExternal c) eqn:Hext.
  - split; [exact Hnd|]. split; [|split].
    + rewrite beadCells_snoc, Hext, app_nil_r. exact Htot.
    + intros k s Hks. destruct (Hent k s Hks) as (H1 & H2 & H3 & H4).
      rewrite beadsOf_snoc, Hext. cbn [negb andb].
      repeat split; auto; [lia | apply in_app_iff; now left].
    + intros c' Hc' Hext'. apply in_app_iff in Hc' as [Hc' | [<- | []]];
        [now apply Hcov | congruence].
  - cbv zeta. set (key := cellCode c).
    set (m1 := if statsHas m key then m else m ++ [(key, mkStat c 0)]).
    assert (Hhas1 : statsHas m1 key = true).
    { unfold m1. destruct (statsHas m key) eqn:Hhas; [exact Hhas|].
      apply statsHas_In. rewrite map_app. apply in_app_iff. right. now left. }
    assert (Hnd1 : List.NoDup (map fst m1)).
    { unfold m1. destruct (statsHas m key) eqn:Hhas; [exact Hnd|].
      rewrite map_app. cbn [map fst]. apply List.NoDup_app.
      - exact Hnd.
      - constructor; [intros []|constructor].
      - intros k Hk [<- | []]. apply statsHas_In in Hk. congruence. }
    assert (Htot1 : totalOf (map snd m1) = totalOf (map snd m)).
    { unfold m1. destruct (statsHas m key); [reflexivity|].
      rewrite map_app. unfold totalOf. rewrite fold_right_app.
      cbn [map snd fold_right stat_count]. reflexivity. }
    assert (Hent1 : forall k s, In (k, s) m1 ->
               statKey s = k /\ stat_count s = beadsOf cells k
               /\ In (stat_color s) (cells ++ [c])
               /\ cellIsExternal (stat_color s) = false).
    { intros k s Hks. unfold m1 in Hks.
      assert (Hold : In (k, s) m ->
                 statKey s = k /\ stat_count s = beadsOf cells k
                 /\ In (stat_color s) (cells ++ [c])
                 /\ cellIsExternal (stat_color s) = false).
      { intros H. destruct (Hent k s H) as (H1 & H2 & H3 & H4).
        repeat split; auto. apply in_app_iff. now left. }
      destruct (statsHas m key) eqn:Hhas; [now apply Hold|].
      apply in_app_iff in Hks as [Hks | [[= <- <-] | []]]; [now apply Hold|].
      cbn [stat_color stat_count]. repeat split; auto.
      - symmetry. apply beadsOf_absent. intros c' Hc' Hext' Hcode.
        pose proof (Hcov c' Hc' Hext') as Hc''. rewrite Hcode in Hc''.
        congruence.
      - apply in_app_iff. right. now left. }
    split; [now rewrite statsBump_keys|]. split; [|split].
    + rewrite statsBump_total by exact Hhas1.
      rewrite Htot1, Htot, beadCells_snoc, Hext, length_app. cbn [length]. lia.
    + intros k s Hks.
      destruct (statsBump_In m1 key k s Hnd1 Hks) as (s0 & Hs0 & Hcol & Hcnt).
      destruct (Hent1 k s0 Hs0) as (H1 & H2 & H3 & H4).
      unfold statKey in *. rewrite Hcol. repeat split; auto.
      rewrite Hcnt, H2, beadsOf_snoc, Hext. cbn [negb andb]. fold key.
      now rewrite (sameCode_sym key k).
    + intros c' Hc' Hext'. apply statsHas_In. rewrite statsBump_keys.
      apply statsHas_In.
      apply in_app_iff in Hc' as [Hc' | [<- | []]]; [|exact Hhas1].
      unfold m1. destruct (statsHas m key); [now apply Hcov|].
      apply statsHas_In. rewrite map_app. apply in_app_iff. left.
      apply statsHas_In. now apply Hcov.
Qed.

Lemma statsMap_counted (cells : list GridCell) :
  countedCells cells (statsMap cells).
Proof.
  unfold statsMap. induction cells as [|c cells IH] using rev_ind.
  - split; [constructor|]. split; [reflexivity|]. split.
    + intros k s [].
    + intros c [].
  - rewrite fold_left_app. cbn [fold_left]. now apply countCell_counted.
Qed.

(** *** The sort *)

Lemma insertStat_perm (s : Stat) (l : list Stat) :
  Permutation (insertStat s l) (s :: l).
Proof.
  induction l as [|x l IH]; [reflexivity|]. cbn [insertStat].
  destruct (stat_count s <? stat_count x); [|reflexivity].
  rewrite IH. apply perm_swap.
Qed.

Lemma sortStats_perm (l : list Stat) : Permutation (sortStats l) l.
Proof.
  induction l as [|s l IH]; [reflexivity|]. cbn [sortStats fold_right].
  fold (sortStats l). rewrite insertStat_perm. now constructor.
Qed.





Lemma totalOf_perm (l l' : list Stat) :
  Permutation l l' -> totalOf l = totalOf l'.
Proof.
  unfold totalOf. induction 1; cbn [fold_right]; lia.
Qed.

Lemma beadsOf_member (cells : list GridCell) (c : GridCell) :
  In c cells -> cellIsExternal c = false -> 1 <= beadsOf cells (cellCode c).
Proof.
  intros Hin Hext. unfold beadsOf.
  assert (H : In c (List.filter (fun c' => sameCode (cellCode c') (cellCode c))
                                (beadCells cells))).
  { apply filter_In. split; [|apply sameCode_refl].
    unfold beadCells. apply filter_In. split; [exact Hin|].
    now rewrite Hext. }
  destruct (List.filter _ (beadCells cells)); [destruct H | cbn [length]; lia].
Qed.

Lemma statsMap_keys (cells : list GridCell) :
  map statKey (map snd (statsMap cells)) = map fst (statsMap cells).
Proof.
  destruct (statsMap_counted cells) as (_ & _ & Hent & _).
  rewrite map_map. apply map_ext_in. intros [k s] Hks.
  now destruct (Hent k s Hks) as (H & _).
Qed.

(** X17. The statistics of [drawPattern] count the beads: on a grid whose
    rows are all as long as the first, there is one entry per code that
    occurs on a cell not flagged background, its count is the number of
    such cells with that code, its colour is one of them, and the counts add
    up to the number of cells not flagged background. *)
Theorem statistics_count_the_beads (grid : Grid) (cells : list GridCell) :
  scannedCells grid = Some cells ->
  exists l : list Stat,
    stats grid = Some l
    /\ totalOf l = Z.of_nat (length (beadCells cells))
    /\ List.NoDup (map statKey l)
    /\ (forall s, In s l ->
          stat_count s = beadsOf cells (statKey s) /\ 1 <= stat_count s
          /\ In (stat_color s) cells
          /\ cellIsExternal (stat_color s) = false)
    /\ forall c, In c cells -> cellIsExternal c = false ->
                 exists s, In s l /\ statKey s = cellCode c.
Proof.
  intros Hscan. unfold stats. rewrite Hscan.
  set (m := statsMap cells).
  destruct (statsMap_counted cells) as (Hnd & Htot & Hent & Hcov).
  fold m in Hnd, Htot, Hent, Hcov.
  pose proof (sortStats_perm (map snd m)) as Hperm.
  exists (sortStats (map snd m)). split; [reflexivity|].
  split; [|split; [|split]].
  - now rewrite (totalOf_perm _ _ Hperm).
  - apply (Permutation_NoDup (l := map statKey (map snd m))).
    + apply Permutation_map. now apply Permutation_sym.
    + unfold m. now rewrite statsMap_keys.
  - intros s Hs. apply (Permutation_in _ Hperm) in Hs.
    apply in_map_iff in Hs as ([k s'] & <- & Hks). cbn [snd].
    destruct (Hent k s' Hks) as (H1 & H2 & H3 & H4).
    rewrite H1. repeat split; auto.
    rewrite H2, <- H1. now apply beadsOf_member.
  - intros c Hc Hext. pose proof (Hcov c Hc Hext) as Hhas.
    apply statsHas_In, in_map_iff in Hhas as ([k s] & Hk & Hks).
    cbn [fst] in Hk. subst k. exists s. split.
    + apply (Permutation_in _ (Permutation_sym Hperm)).
      now apply (in_map snd _ (cellCode c, s)).
    + now destruct (Hent _ s Hks) as (H & _).
Qed.


Lemma sortStats_total (cells : list GridCell) :
  totalOf (sortStats (map snd (statsMap cells)))
  = Z.of_nat (length (beadCells cells)).
Proof.
  rewrite (totalOf_perm _ _ (sortStats_perm _)).
  now destruct (statsMap_counted cells) as (_ & Htot & _).
Qed.

Lemma scannedCells_rect (grid : Grid) (n : nat) :
  grid <> [] -> (forall row, In row grid -> length row = n) ->
  scannedCells grid = Some (concat grid).
Proof.
  destruct grid as [|first rest]; [contradiction|]. intros _ Hrows.
  unfold scannedCells.
  assert (Hall : forallb (fun row => (length first <=? length row)%nat)
                         (first :: rest) = true).
  { apply forallb_forall. intros row Hrow.
    rewrite (Hrows row Hrow), (Hrows first (or_introl eq_refl)).
    apply Nat.leb_refl. }
  rewrite Hall. f_equal. rewrite flat_map_concat_map. f_equal.
  transitivity (map id (first :: rest)); [|apply map_id].
  apply map_ext_in. intros row Hrow. apply firstn_all2. unfold id.
  rewrite (Hrows row Hrow), (Hrows first (or_introl eq_refl)). lia.
Qed.

Lemma length_concat_rect {A : Type} (g : list (list A)) (n : nat) :
  (forall row, In row g -> length row = n) ->
  length (concat g) = (length g * n)%nat.
Proof.
  induction g as [|row g IH]; intros H; [reflexivity|].
  cbn [concat length]. rewrite length_app, (H row (or_introl eq_refl)), IH.
  - lia.
  - intros r Hr. apply H. now right.
Qed.

Lemma paintable_fromPalette (key : PaletteKey) (cell : GridCell) :
  palettes key <> [] -> fromPalette key cell -> paintable cell = true.
Proof.
  intros Hne. unfold paintable. destruct cell as [i|e]; cbn [fromPalette].
  - intros _. apply orb_true_r.
  - contradiction.
Qed.

(** X19. [generate] hands its grid to [drawPattern]. For a target of at
    least one cell each way and a non-empty palette the call runs to its
    end, and the counts of its statistics, together with the cells flagged
    background, add up to [targetW * targetH]; with background removal off
    the counts alone do. On an empty palette, with removal off, the call
    throws: the cells are empty objects, which have no [rgb] to paint. *)
Theorem drawPattern_on_a_generated_grid
  (procData : list Byte.byte) (targetW targetH : Z) (algorithm : Algorithm)
  (paletteKey : PaletteKey) (brightness : float) (removeBackground : bool)
  (backgroundTolerance : float) :
  1 <= targetW -> 1 <= targetH ->
  let grid :=
    generateGrid procData targetW targetH algorithm paletteKey brightness
                 removeBackground backgroundTolerance in
  let background :=
    Z.of_nat (length (List.filter cellIsExternal (concat grid))) in
  (palettes paletteKey <> [] ->
   exists l : list Stat,
     drawPattern grid = Some l /\ stats grid = Some l
     /\ totalOf l + background = targetW * targetH
     /\ (removeBackground = false -> totalOf l = targetW * targetH))
  /\ (palettes paletteKey = [] -> removeBackground = false ->
      drawPattern grid = None).
Proof.
  intros Hw Hh grid background.
  pose proof (generateGrid_length procData targetW targetH algorithm
                paletteKey brightness removeBackground backgroundTolerance)
    as Hlen.
  pose proof (generateGrid_rows procData targetW targetH algorithm
                paletteKey brightness removeBackground backgroundTolerance)
    as Hrows.
  fold grid in Hlen, Hrows.
  assert (Hne : grid <> []).
  { intros Hnil. rewrite Hnil in Hlen. cbn [length] in Hlen. lia. }
  pose proof (scannedCells_rect grid _ Hne Hrows) as Hscan.
  pose proof (length_concat_rect grid _ Hrows) as Hcells.
  rewrite Hlen in Hcells.
  assert (Hfrom : Forall (fromPalette paletteKey) (concat grid)).
  { apply Forall_concat. apply generateGrid_Forall. intros x y z flag _.
    destruct flag; [apply fromPalette_markExternal|];
      apply fromPalette_spread. }
  assert (Hoff : removeBackground = false ->
                 Forall (fun cell => cellIsExternal cell = false)
                        (concat grid)).
  { intros Hrb. apply Forall_concat. apply generateGrid_Forall.
    intros x y z flag Hflag. rewrite (Hflag Hrb).
    apply spread_closest_not_external. }
  split.
  - intros Hpal. exists (sortStats (map snd (statsMap (concat grid)))).
    assert (Htot : totalOf (sortStats (map snd (statsMap (concat grid))))
                   + background = targetW * targetH).
    { rewrite sortStats_total. unfold background, beadCells.
      pose proof (List.filter_length cellIsExternal (concat grid)). nia. }
    split; [|split; [|split]].
    + unfold drawPattern. rewrite Hscan.
      replace (forallb paintable (concat grid)) with true; [reflexivity|].
      symmetry. apply forallb_forall. intros cell Hcell.
      rewrite List.Forall_forall in Hfrom.
      now apply (paintable_fromPalette paletteKey), Hfrom.
    + unfold stats. now rewrite Hscan.
    + exact Htot.
    + intros Hrb. rewrite <- Htot. unfold background.
      rewrite filter_none_in; [cbn [length]; lia|].
      apply List.Forall_forall. now apply Hoff.
  - intros Hpal Hrb. unfold drawPattern. rewrite Hscan.
    destruct (concat grid) as [|cell cells] eqn:Hc;
      [cbn [length] in Hcells; lia|].
    apply List.Forall_cons_iff in Hfrom as [Hcell _].
    specialize (Hoff Hrb). apply List.Forall_cons_iff in Hoff as [Hext _].
    cbn [forallb]. unfold paintable at 1. rewrite Hext.
    destruct cell as [i|e]; cbn [fromPalette] in Hcell; [|reflexivity].
    destruct Hcell as (e & He & _). rewrite Hpal in He. destruct He.
Qed.

(** ** The program against the words of the design *)

Lemma is_nan_nan (v : float) : PrimFloat.is_nan v = true -> v = nan.
Proof.
  unfold PrimFloat.is_nan. rewrite FloatAxioms.eqb_spec. intros H.
  apply Prim2SF_inj. change (Prim2SF nan) with S754_nan.
  destruct (Prim2SF v) as [[]|[]| |[] m e]; try reflexivity; exfalso;
    revert H; unfold SFeqb, SFcompare; cbn [negb];
    rewrite ?Z.compare_refl; try fold (Pos.compare m m);
    rewrite ?Pos.compare_refl; discriminate.
Qed.

Lemma SFcompare_finite_Eq (s1 s2 : bool) (m1 m2 : positive) (e1 e2 : Z) :
  SFcompare (S754_finite s1 m1 e1) (S754_finite s2 m2 e2) = Some Eq ->
  s1 = s2 /\ m1 = m2 /\ e1 = e2.
Proof.
  unfold SFcompare. fold (Pos.compare m1 m2).
  destruct s1, s2; try discriminate;
    destruct (Z.compare_spec e1 e2) as [-> | |]; try discriminate;
    destruct (Pos.compare_spec m1 m2) as [-> | |]; try discriminate; auto.
Qed.

Lemma eqb_255 (v : float) : (255 =? v)%float = true -> v = 255%float.
Proof.
  rewrite FloatAxioms.eqb_spec. unfold SFeqb. intros H. apply Prim2SF_inj.
  remember (Prim2SF 255) as x eqn:Ex. vm_compute in Ex. subst x.
  destruct (Prim2SF v) as [[]|[]| |s m e]; try discriminate H.
  destruct (SFcompare _ _) as [[]|] eqn:E; try discriminate H.
  apply SFcompare_finite_Eq in E as (<- & <- & <-). reflexivity.
Qed.

Lemma clamp255_clampToRange (v : float) : clamp255 v = clampToRange v.
Proof.
  destruct (PrimFloat.is_nan v) eqn:Hv.
  - apply is_nan_nan in Hv. subst v. reflexivity.
  - rewrite (clamp255_cases v Hv). unfold clampToRange.
    destruct (0 <? v)%float eqn:H0.
    + destruct (v <=? 0)%float eqn:Hle.
      * apply leb_not_ltb in Hle. congruence.
      * destruct (255 <? v)%float eqn:H255.
        -- now rewrite (ltb_leb _ _ H255).
        -- destruct (255 <=? v)%float eqn:Hge; [|reflexivity].
           now apply eqb_255, leb_not_ltb_eqb.
    + now rewrite (not_ltb_leb 0 v eq_refl Hv H0).
Qed.

Lemma fold_add_map {A : Type} (f : A -> float) (l : list A) (s : float) :
  fold_left (fun s a => s + f a)%float l s
  = fold_left PrimFloat.add (map f l) s.
Proof.
  revert s. induction l as [|a l IH]; intros s; [reflexivity|].
  cbn [fold_left map]. apply IH.
Qed.

Lemma sharpened_unsharp (center : float) (ns : list float) :
  sharpened center ns = unsharp center ns.
Proof. unfold sharpened, unsharp. apply clamp255_clampToRange. Qed.

Lemma adjusted_brightened (procData : list Byte.byte) (brightness : float)
  (idx : Z) :
  adjusted procData brightness idx
  = brightened brightness (byteAt procData idx).
Proof. unfold adjusted, brightened, bOffset. apply clamp255_clampToRange. Qed.

Lemma byteAt_lookup (data : list Byte.byte) (i : Z) :
  0 <= i < Z.of_nat (length data) ->
  exists b : Byte.byte,
    data !! Z.to_nat i = Some b /\ byteAt data i = byteValue b.
Proof.
  intros Hi. destruct (lookup_lt_is_Some_2 data (Z.to_nat i)) as [b Hb];
    [lia|].
  exists b. split; [exact Hb|]. unfold byteAt, at_index.
  destruct (Z.ltb_spec i 0); [lia|]. now rewrite nth_error_lookup, Hb.
Qed.

Section Buffer.

Variable procData : list Byte.byte.
Variables targetW targetH : Z.
Hypothesis targetW_pos : 1 <= targetW.
Hypothesis targetH_pos : 1 <= targetH.
Hypothesis buffer_holds :
  Z.of_nat (length procData) = 4 * (4 * targetW) * (4 * targetH).

Local Abbreviation pixelIndex := (Core.pixelIndex targetW).
Local Abbreviation insideBuffer := (Core.insideBuffer targetW targetH).
Local Abbreviation inBuffer := (Core.inBuffer (4 * targetW) (4 * targetH)).
Local Abbreviation colourOf := (Core.colourOf procData (4 * targetW)).

Lemma inBuffer_inside (p : Z * Z) : inBuffer p <-> insideBuffer p.
Proof. unfold inBuffer, insideBuffer, procW, procH. lia. Qed.

Lemma cornerPixels_corners :
  cornerPixels (4 * targetW) (4 * targetH) = corners targetW targetH.
Proof.
  unfold cornerPixels, corners, procW, procH.
  now rewrite (Z.mul_comm 4 targetW), (Z.mul_comm 4 targetH).
Qed.

Lemma colourOf_byteAt (p : Z * Z) :
  inBuffer p ->
  colourOf p
  = Some (byteAt procData (pixelIndex p * 4),
          byteAt procData (pixelIndex p * 4 + 1),
          byteAt procData (pixelIndex p * 4 + 2)).
Proof.
  intros [Hr Hc]. unfold colourOf, channelOf, pixelIndex, procW.
  set (i := (p.1 * (targetW * 4) + p.2) * 4).
  assert (Hi : 0 <= i /\ i + 3 < Z.of_nat (length procData))
    by (unfold i; nia).
  replace (4 * (p.1 * (4 * targetW) + p.2) + 0) with i by (unfold i; lia).
  replace (4 * (p.1 * (4 * targetW) + p.2) + 1) with (i + 1)
    by (unfold i; lia).
  replace (4 * (p.1 * (4 * targetW) + p.2) + 2) with (i + 2)
    by (unfold i; lia).
  destruct (byteAt_lookup procData i ltac:(lia)) as (r & -> & ->).
  destruct (byteAt_lookup procData (i + 1) ltac:(lia)) as (g & -> & ->).
  destruct (byteAt_lookup procData (i + 2) ltac:(lia)) as (b & -> & ->).
  reflexivity.
Qed.

(** *** The mask *)

Section Mask.

Variable backgroundTolerance : float.

Local Abbreviation nearWhite :=
  (Core.nearWhite procData (4 * targetW) backgroundTolerance).
Local Abbreviation cornerConnected :=
  (Core.cornerConnected procData (4 * targetW) (4 * targetH)
                        backgroundTolerance).
Local Abbreviation cornerReachable :=
  (Core.cornerReachable procData targetW targetH backgroundTolerance).

Lemma nearWhite_isBgColor (p : Z * Z) :
  inBuffer p ->
  nearWhite p = isBgColor procData backgroundTolerance (pixelIndex p * 4).
Proof.
  intros Hp. unfold nearWhite. rewrite (colourOf_byteAt p Hp).
  unfold isBgColor, euclideanDistance, pureWhite. cbn [fst snd].
  now rewrite (float_mul_comm 2).
Qed.

Lemma cornerConnected_reachable (p : Z * Z) :
  cornerConnected p <-> cornerReachable p.
Proof.
  split.
  - induction 1 as [p Hcorner Hbg | p q _ IH Hadj Hq Hbg].
    + rewrite cornerPixels_corners in Hcorner.
      apply reach_corner; [exact Hcorner|].
      unfold backgroundColoured. rewrite <- nearWhite_isBgColor; [exact Hbg|].
      now apply inBuffer_inside, corners_inside.
    + apply (reach_step _ _ _ _ p q IH Hadj);
        [now apply inBuffer_inside|].
      unfold backgroundColoured. now rewrite <- nearWhite_isBgColor.
  - induction 1 as [p Hcorner Hbg | p q _ IH Hadj Hq Hbg].
    + apply connected_corner; [now rewrite cornerPixels_corners|].
      rewrite nearWhite_isBgColor; [exact Hbg|].
      now apply inBuffer_inside, corners_inside.
    + apply (connected_step _ _ _ _ p q IH Hadj);
        [now apply inBuffer_inside|].
      rewrite nearWhite_isBgColor; [exact Hbg | now apply inBuffer_inside].
Qed.

End Mask.

(** *** The blocks *)

Lemma masked_flag (removeBackground : bool) (backgroundTolerance : float)
  (y x : Z) :
  masked procData targetW targetH removeBackground backgroundTolerance y x
  = getFlag (backgroundMask procData targetW targetH removeBackground
                            backgroundTolerance)
            (y * (4 * targetW) + x).
Proof.
  unfold masked, procW. rewrite (Z.mul_comm targetW 4).
  destruct removeBackground; [reflexivity|].
  unfold backgroundMask. now rewrite getFlag_replicate.
Qed.

Lemma maskedCount_flagged (removeBackground : bool)
  (backgroundTolerance : float) (px : list (Z * Z)) :
  maskedCount procData targetW targetH removeBackground backgroundTolerance px
  = flaggedCount (4 * targetW)
      (backgroundMask procData targetW targetH removeBackground
                      backgroundTolerance) px.
Proof.
  unfold maskedCount, flaggedCount. do 2 f_equal.
  apply List.filter_ext. intros p. apply masked_flag.
Qed.

Lemma blockOf_inBuffer (r c : Z) (p : Z * Z) :
  0 <= r < targetH -> 0 <= c < targetW -> In p (blockOf r c) -> inBuffer p.
Proof.
  intros Hr Hc Hp. apply inBuffer_inside.
  now apply (blockOf_inside targetW targetH r c).
Qed.

End Buffer.

(** C2. With background removal on, on a target of at least one cell each
    way and the buffer [getImageData] returns for it ([4 * targetW] by
    [4 * targetH] pixels), the loop of the fill runs to its end, and a pixel
    of the buffer is in the mask exactly when its Euclidean distance to pure
    white is below twice the tolerance and a path of edge-sharing pixels of
    the buffer, all of them that near to white, joins it to one of the four
    corner pixels. A pixel that near to white without such a path is not in
    the mask. *)
Theorem mask_is_corner_connected_background
  (procData : list Byte.byte) (targetW targetH : Z)
  (backgroundTolerance : float) :
  1 <= targetW -> 1 <= targetH ->
  Z.of_nat (length procData) = 4 * (4 * targetW) * (4 * targetH) ->
  fillDone (floodFill procData targetW targetH backgroundTolerance) = true
  /\ (forall r c : Z,
        0 <= r < 4 * targetH -> 0 <= c < 4 * targetW ->
        (getFlag (backgroundMask procData targetW targetH true
                                 backgroundTolerance)
                 (r * (4 * targetW) + c) = true
         <-> nearWhite procData (4 * targetW) backgroundTolerance (r, c)
             = true
             /\ cornerConnected procData (4 * targetW) (4 * targetH)
                                backgroundTolerance (r, c)))
  /\ forall r c : Z,
       0 <= r < 4 * targetH -> 0 <= c < 4 * targetW ->
       ~ cornerConnected procData (4 * targetW) (4 * targetH)
                         backgroundTolerance (r, c) ->
       getFlag (backgroundMask procData targetW targetH true
                               backgroundTolerance)
               (r * (4 * targetW) + c) = false.
Proof.
  intros Hw Hh Hlen.
  destruct (floodFill_finished procData targetW targetH backgroundTolerance
                               Hw Hh) as [Hinv Hdone].
  assert (Hiff : forall r c : Z,
             0 <= r < 4 * targetH -> 0 <= c < 4 * targetW ->
             (getFlag (backgroundMask procData targetW targetH true
                                      backgroundTolerance)
                      (r * (4 * targetW) + c) = true
              <-> nearWhite procData (4 * targetW) backgroundTolerance (r, c)
                  = true
                  /\ cornerConnected procData (4 * targetW) (4 * targetH)
                                     backgroundTolerance (r, c))).
  { intros r c Hr Hc. unfold backgroundMask.
    replace (r * (4 * targetW) + c) with (pixelIndex targetW (r, c))
      by (unfold pixelIndex, procW; cbn [fst snd]; lia).
    assert (Hin : inBuffer (4 * targetW) (4 * targetH) (r, c))
      by (split; assumption).
    rewrite (cornerConnected_reachable procData targetW targetH)
      by assumption.
    rewrite (nearWhite_isBgColor procData targetW targetH) by assumption.
    split.
    - intros Hmask.
      assert (Hreach : cornerReachable procData targetW targetH
                                       backgroundTolerance (r, c)).
      { apply (inv_sound _ _ _ _ _ Hinv); [|exact Hmask].
        now apply inBuffer_inside. }
      split; [|exact Hreach].
      now apply cornerReachable_coloured in Hreach.
    - intros [_ Hreach]. now apply floodFill_complete. }
  split; [exact Hdone|]. split; [exact Hiff|].
  intros r c Hr Hc Hnot.
  destruct (getFlag _ _) eqn:Hflag; [|reflexivity].
  apply (Hiff r c Hr Hc) in Hflag as [_ Hconn]. contradiction.
Qed.

(** C4. Under the [average] strategy, for every cell of the grid: each
    channel handed to the colour matcher is the arithmetic mean, over the 16
    pixels of the cell's 4 x 4 block, of the pixel's channel after the
    brightness offset [brightness * 15] and the clamp to [[0, 255]]; and
    the cell is flagged background exactly when background removal is on
    and more than half of the block's 16 pixels are in the mask. *)
Theorem average_cell_is_block_mean
  (procData : list Byte.byte) (targetW targetH : Z) (paletteKey : PaletteKey)
  (brightness : float) (removeBackground : bool)
  (backgroundTolerance : float) (r c : Z) :
  1 <= targetW -> 1 <= targetH -> 0 <= r < targetH -> 0 <= c < targetW ->
  Z.of_nat (length procData) = 4 * (4 * targetW) * (4 * targetH) ->
  let bgCount :=
    flaggedCount (4 * targetW)
      (backgroundMask procData targetW targetH removeBackground
                      backgroundTolerance)
      (blockOf r c) in
  exists (colours : list triple) (raw : RawCell),
    map (colourOf procData (4 * targetW)) (blockOf r c) = map Some colours
    /\ at_index2 (generateGrid procData targetW targetH average paletteKey
                               brightness removeBackground
                               backgroundTolerance) r c
       = Some (let info :=
                 spread (findClosestColor (raw_r raw) (raw_g raw) (raw_b raw)
                                          paletteKey) in
               if isBg raw then markExternal info else info)
    /\ raw_r raw
       = meanOf (map (fun colour => brightened brightness colour.1.1) colours)
    /\ raw_g raw
       = meanOf (map (fun colour => brightened brightness colour.1.2) colours)
    /\ raw_b raw
       = meanOf (map (fun colour => brightened brightness colour.2) colours)
    /\ isBg raw = removeBackground && (16 <? 2 * bgCount)
    /\ forall cell,
         at_index2 (generateGrid procData targetW targetH average paletteKey
                                 brightness removeBackground
                                 backgroundTolerance) r c = Some cell ->
         cellIsExternal cell = removeBackground && (16 <? 2 * bgCount).
Proof.
  intros Hw Hh Hr Hc Hlen bgCount.
  set (px := blockPixels targetW targetH r c).
  assert (Hpx : px = blockOf r c)
    by (unfold px; apply blockPixels_four; lia).
  assert (Hraw : tableAt (rawGrid procData targetW targetH brightness
                                  removeBackground backgroundTolerance) r c
                 = rawCell procData targetW targetH brightness
                           removeBackground backgroundTolerance r c).
  { unfold rawGrid. now apply tableAt_tabulate. }
  assert (Hcount : length px = 16%nat)
    by (rewrite Hpx; apply blockOf_length).
  assert (Hbg : isBg (rawCell procData targetW targetH brightness
                              removeBackground backgroundTolerance r c)
                = removeBackground && (16 <? 2 * bgCount)).
  { unfold rawCell, avgBlock. fold px. rewrite avg_fold.
    cbn [isBg avg_count avg_bgCount]. rewrite Hcount.
    cbn [Z.add Z.of_nat Pos.of_succ_nat Pos.succ Z.eqb].
    pose proof (maskedCount_bounds procData targetW targetH removeBackground
                                   backgroundTolerance px) as Hb.
    rewrite Hcount in Hb.
    rewrite half_of_sixteen by lia.
    now rewrite (maskedCount_flagged procData targetW targetH), Hpx. }
  set (colourAt := fun p : Z * Z =>
         (byteAt procData (pixelIndex targetW p * 4),
          byteAt procData (pixelIndex targetW p * 4 + 1),
          byteAt procData (pixelIndex targetW p * 4 + 2))).
  exists (map colourAt (blockOf r c)),
         (rawCell procData targetW targetH brightness removeBackground
                  backgroundTolerance r c).
  assert (Hcell : at_index2 (generateGrid procData targetW targetH average
                                          paletteKey brightness
                                          removeBackground
                                          backgroundTolerance) r c
                  = Some (matchCell paletteKey
                            (rawGrid procData targetW targetH brightness
                                     removeBackground backgroundTolerance)
                            r c)).
  { unfold generateGrid. now apply tabulate_at. }
  split; [|split; [|split; [|split; [|split; [|split]]]]].
  - rewrite map_map. apply map_ext_in. intros p Hp.
    apply (colourOf_byteAt procData targetW targetH); try assumption.
    eapply blockOf_inBuffer; eassumption.
  - rewrite Hcell. unfold matchCell. rewrite Hraw. reflexivity.
  - transitivity (meanOf (map (redAt procData targetW brightness) px)).
    + unfold rawCell, avgBlock, meanOf, sumFloats. fold px. rewrite avg_fold.
      cbn [raw_r avg_count sumR]. rewrite length_map, Hcount. reflexivity.
    + rewrite Hpx, map_map. f_equal. apply map_ext. intros p.
      apply adjusted_brightened.
  - transitivity (meanOf (map (greenAt procData targetW brightness) px)).
    + unfold rawCell, avgBlock, meanOf, sumFloats. fold px. rewrite avg_fold.
      cbn [raw_g avg_count sumG]. rewrite length_map, Hcount. reflexivity.
    + rewrite Hpx, map_map. f_equal. apply map_ext. intros p.
      apply adjusted_brightened.
  - transitivity (meanOf (map (blueAt procData targetW brightness) px)).
    + unfold rawCell, avgBlock, meanOf, sumFloats. fold px. rewrite avg_fold.
      cbn [raw_b avg_count sumB]. rewrite length_map, Hcount. reflexivity.
    + rewrite Hpx, map_map. f_equal. apply map_ext. intros p.
      apply adjusted_brightened.
  - exact Hbg.
  - intros cell Hsome. rewrite Hcell in Hsome. injection Hsome as <-.
    rewrite matchCell_external, Hraw. exact Hbg.
Qed.

(** *** The gradient-enhanced pass *)

Section Sharpening.

Variable procData : list Byte.byte.
Variables targetW targetH : Z.
Variable paletteKey : PaletteKey.
Variable brightness : float.
Variable removeBackground : bool.
Variable backgroundTolerance : float.

Let raw : list (list RawCell) :=
  rawGrid procData targetW targetH brightness removeBackground
          backgroundTolerance.
Let averageCell : Z -> Z -> RawCell :=
  rawCell procData targetW targetH brightness removeBackground
          backgroundTolerance.

Lemma neighborsOf_existing (r c : Z) :
  0 <= r < targetH -> 0 <= c < targetW ->
  neighborsOf targetW targetH r c = existingNeighbours targetW targetH r c.
Proof.
  intros Hr Hc. unfold neighborsOf, existingNeighbours, dirs, inGrid.
  cbn [map List.filter fst snd].
  change (r + -1) with (r - 1). change (c + -1) with (c - 1).
  rewrite !Z.add_0_r.
  destruct (Z.leb_spec 1 r), (Z.ltb_spec (r + 1) targetH),
           (Z.leb_spec 1 c), (Z.ltb_spec (c + 1) targetW);
    repeat match goal with
           | |- context [?a <=? ?b] => destruct (Z.leb_spec a b); try lia
           | |- context [?a <? ?b] => destruct (Z.ltb_spec a b); try lia
           end;
    reflexivity.
Qed.

Lemma averageDiff_meanDifference (r c : Z) :
  0 <= r < targetH -> 0 <= c < targetW ->
  averageDiff targetW targetH raw r c
  = meanDifference (averageCell r c)
      (map (fun p => averageCell p.1 p.2)
           (existingNeighbours targetW targetH r c)).
Proof.
  intros Hr Hc. unfold averageDiff.
  assert (Hins : forall p, In p (existingNeighbours targetW targetH r c) ->
                           tableAt raw p.1 p.2 = averageCell p.1 p.2).
  { intros p Hp. rewrite <- neighborsOf_existing in Hp by assumption.
    apply neighborsOf_inside in Hp. now apply raw_at. }
  rewrite neighborsOf_existing by assumption. unfold raw in *.
  rewrite (raw_at procData targetW targetH brightness removeBackground
                  backgroundTolerance r c Hr Hc).
  fold averageCell.
  set (l := existingNeighbours targetW targetH r c) in *.
  destruct l as [|n l]; [reflexivity|].
  destruct (Z.ltb_spec 0 (Z.of_nat (length (n :: l))));
    [|cbn [length] in *; lia].
  unfold meanDifference, sumFloats.
  destruct (map (fun p => averageCell p.1 p.2) (n :: l)) as [|x xs] eqn:E;
    [discriminate|].
  rewrite <- E, length_map, map_map, fold_add_map. do 2 f_equal.
  apply map_ext_in. intros p Hp. now rewrite Hins.
Qed.

End Sharpening.

(** C5. Under [gradient_enhanced], for every cell of the grid, with the
    cells the average strategy computes as input: when the average, over
    the neighbours that exist (above, below, left, right), of the absolute
    difference to the cell is below 15, the three channels are those of the
    average-strategy cell, unchanged; otherwise each channel is
    [2 * center - 0.1 * (each existing neighbour) - 0.1 * (number of missing
    neighbours) * center], the terms subtracted one after the other in
    binary64 arithmetic, clamped to [[0, 255]]. *)
Theorem gradient_enhanced_cell
  (procData : list Byte.byte) (targetW targetH : Z) (paletteKey : PaletteKey)
  (brightness : float) (removeBackground : bool)
  (backgroundTolerance : float) (r c : Z) :
  1 <= targetW -> 1 <= targetH -> 0 <= r < targetH -> 0 <= c < targetW ->
  let averageCell :=
    rawCell procData targetW targetH brightness removeBackground
            backgroundTolerance in
  let center := averageCell r c in
  let ns := map (fun p => averageCell p.1 p.2)
                (existingNeighbours targetW targetH r c) in
  let out :=
    tableAt (enhancedGrid procData targetW targetH brightness
                          removeBackground backgroundTolerance) r c in
  ((meanDifference center ns <? 15)%float = true ->
   raw_r out = raw_r center /\ raw_g out = raw_g center
   /\ raw_b out = raw_b center)
  /\ ((meanDifference center ns <? 15)%float = false ->
      raw_r out = unsharp (raw_r center) (map raw_r ns)
      /\ raw_g out = unsharp (raw_g center) (map raw_g ns)
      /\ raw_b out = unsharp (raw_b center) (map raw_b ns))
  /\ at_index2 (generateGrid procData targetW targetH gradient_enhanced
                             paletteKey brightness removeBackground
                             backgroundTolerance) r c
     = Some (let info :=
               spread (findClosestColor (raw_r out) (raw_g out) (raw_b out)
                                        paletteKey) in
             if isBg out then markExternal info else info).
Proof.
  intros Hw Hh Hr Hc averageCell center ns out.
  pose proof (averageDiff_meanDifference procData targetW targetH brightness
                removeBackground backgroundTolerance r c Hr Hc) as Hdiff.
  fold averageCell in Hdiff. fold center in Hdiff. fold ns in Hdiff.
  pose proof (raw_at procData targetW targetH brightness removeBackground
                     backgroundTolerance r c Hr Hc) as Hcenter.
  fold averageCell in Hcenter. fold center in Hcenter.
  assert (Hns : forall f : RawCell -> float,
             map (fun p => f (tableAt
                                (rawGrid procData targetW targetH brightness
                                         removeBackground backgroundTolerance)
                                p.1 p.2))
                 (neighborsOf targetW targetH r c)
             = map f ns).
  { intros f. unfold ns. rewrite map_map.
    rewrite (neighborsOf_existing targetW targetH r c Hr Hc).
    apply map_ext_in. intros p Hp.
    rewrite <- (neighborsOf_existing targetW targetH r c Hr Hc) in Hp.
    apply neighborsOf_inside in Hp as [Hpr Hpc].
    now rewrite (raw_at procData targetW targetH brightness removeBackground
                        backgroundTolerance p.1 p.2 Hpr Hpc). }
  assert (Hout : out
                 = if (meanDifference center ns <? 15)%float
                   then center
                   else mkRaw (unsharp (raw_r center) (map raw_r ns))
                              (unsharp (raw_g center) (map raw_g ns))
                              (unsharp (raw_b center) (map raw_b ns))
                              (isBg center)).
  { unfold out.
    rewrite (enhanced_at procData targetW targetH brightness removeBackground
                         backgroundTolerance r c Hr Hc).
    rewrite enhancedCell_cases, Hdiff, Hcenter. cbv zeta.
    rewrite (Hns raw_r), (Hns raw_g), (Hns raw_b), !sharpened_unsharp.
    reflexivity. }
  split; [|split].
  - intros Hflat. rewrite Hout, Hflat. auto.
  - intros Hsharp. rewrite Hout, Hsharp. cbn [raw_r raw_g raw_b]. auto.
  - unfold generateGrid. rewrite tabulate_at by assumption.
    unfold matchCell. reflexivity.
Qed.

(** *** The nearest entry *)

Lemma findClosestColor_firstNearest (r g b : float)
  (paletteKey : PaletteKey) :
  palettes paletteKey <> [] ->
  exists (i : nat) (e : ColorInfo),
    findClosestColor r g b paletteKey = Some e
    /\ firstNearest (palettes paletteKey) (rgbToLab r g b) i e.
Proof.
  intros Hne. unfold findClosestColor, findClosestIn, firstNearest.
  set (pal := palettes paletteKey) in *. set (t := rgbToLab r g b).
  pose proof (scanInv_fold t pal pal [] _ (scanInv_init t pal)) as Hinv.
  change ([] ++ pal) with pal in Hinv.
  destruct (fold_left (closerOf t) pal (infinity, List.head pal)) as [m c].
  destruct Hinv as [Hmin [[Hm Hc] | (i & e & Hc & Hi & Hm & Hties)]];
    cbn [fst snd] in *.
  - destruct pal as [|e0 pal']; [contradiction|]. subst m c.
    exists 0%nat, e0. repeat split; try reflexivity.
    + intros e' Hin.
      destruct (deltaE t (lab e') <? deltaE t (lab e0))%float eqn:Hcmp;
        [|reflexivity].
      rewrite <- (Hmin e' Hin). symmetry. eapply ltb_infinity; eassumption.
    + intros j e' Hj. lia.
  - subst m c. exists i, e. repeat split; auto.
Qed.

(** *** What [generate] returns *)

Section Returns.

Variable procData : list Byte.byte.
Variables targetW targetH : Z.
Variable algorithm : Algorithm.
Variable paletteKey : PaletteKey.
Variable brightness : float.
Variable removeBackground : bool.
Variable backgroundTolerance : float.

Let grid : Grid :=
  generateGrid procData targetW targetH algorithm paletteKey brightness
               removeBackground backgroundTolerance.

Lemma generateGrid_fromPalette : Forall (fromPalette paletteKey) (concat grid).
Proof.
  apply Forall_concat. apply generateGrid_Forall. intros x y z flag _.
  destruct flag; [apply fromPalette_markExternal|]; apply fromPalette_spread.
Qed.

Lemma generateGrid_scanned :
  1 <= targetH -> scannedCells grid = Some (concat grid).
Proof.
  intros Hh. apply (scannedCells_rect grid (Z.to_nat targetW)).
  - intros Hnil.
    pose proof (generateGrid_length procData targetW targetH algorithm
                  paletteKey brightness removeBackground backgroundTolerance)
      as Hlen.
    fold grid in Hlen. rewrite Hnil in Hlen. cbn [length] in Hlen. lia.
  - apply generateGrid_rows.
Qed.

Lemma generate_returns :
  1 <= targetW -> 1 <= targetH -> palettes paletteKey <> [] ->
  generate procData targetW targetH algorithm paletteKey brightness
           removeBackground backgroundTolerance = Some grid.
Proof.
  intros Hw Hh Hpal. unfold generate. fold grid.
  destruct (Z.eqb_spec (procW targetW) 0); [unfold procW in *; lia|].
  destruct (Z.eqb_spec (procH targetH) 0); [unfold procH in *; lia|].
  cbn [orb].
  destruct (Z.ltb_spec (procW targetW * procH targetH) 0);
    [unfold procW, procH in *; nia|].
  unfold drawPattern. rewrite (generateGrid_scanned Hh).
  replace (forallb paintable (concat grid)) with true; [reflexivity|].
  symmetry. apply forallb_forall. intros cell Hcell.
  pose proof generateGrid_fromPalette as Hfrom.
  rewrite List.Forall_forall in Hfrom.
  now apply (paintable_fromPalette paletteKey), Hfrom.
Qed.



End Returns.


(** C7. On a buffer of one opaque colour and a 10 x 10 target, with the
    brightness at its default of 0 and a palette that is not empty, every
    strategy returns a 10 x 10 grid whose every cell resolves to one and
    the same entry of the palette: the first of the entries nearest to that
    colour; and without background removal every cell is exactly the copy
    of that entry, none of them external. *)
Theorem uniform_image_resolves_to_nearest
  (red green blue : Byte.byte) (algorithm : Algorithm)
  (paletteKey : PaletteKey) (removeBackground : bool)
  (backgroundTolerance : float) :
  palettes paletteKey <> [] ->
  exists (i : nat) (entry : ColorInfo) (grid : Grid),
    firstNearest (palettes paletteKey)
                 (rgbToLab (byteValue red) (byteValue green)
                           (byteValue blue))
                 i entry
    /\ generate (uniformBuffer red green blue 1600) 10 10 algorithm
                paletteKey 0 removeBackground backgroundTolerance
       = Some grid
    /\ length grid = 10%nat
    /\ (forall row, In row grid -> length row = 10%nat)
    /\ forall r c, 0 <= r < 10 -> 0 <= c < 10 ->
         exists cell : GridCell,
           at_index2 grid r c = Some cell
           /\ resolvesTo cell (Some entry)
           /\ (removeBackground = false ->
               cell = CellOf entry /\ cellIsExternal cell = false).
Proof.
  intros Hpal.
  destruct (findClosestColor_firstNearest (byteValue red) (byteValue green)
              (byteValue blue) paletteKey Hpal) as (i & entry & Hfind & Hnear).
  exists i, entry. eexists. split; [exact Hnear|].
  change 1600%nat with (pixelCount 10 10).
  split; [apply generate_returns; [lia | lia | exact Hpal]|].
  split; [apply generateGrid_length|].
  split; [intros row Hrow; apply (generateGrid_rows _ _ _ _ _ _ _ _ _ Hrow)|].
  intros r c Hr Hc.
  destruct (uniform_generateGrid red green blue 10 10 paletteKey
              removeBackground backgroundTolerance ltac:(lia) ltac:(lia)
              algorithm r c Hr Hc) as (cell & Hcell & Hshape).
  exists cell. split; [exact Hcell|].
  apply uniformCell_resolves in Hshape. rewrite Hfind in Hshape.
  exact Hshape.
Qed.

(** *** A row that is not hexadecimal *)

Lemma indexOf_from_first (a : list jsstring) (name : jsstring) (i : nat)
  (k : Z) :
  a !! i = Some name ->
  (forall j : nat, (j < i)%nat -> a !! j <> Some name) ->
  indexOf_from a name k = k + Z.of_nat i.
Proof.
  revert i k. induction a as [|x a IH]; intros i k Hi Hfirst;
    [discriminate|].
  cbn [indexOf_from]. destruct i as [|i].
  - injection Hi as ->.
    rewrite (proj2 (jsstring_eqb_eq name name) eq_refl). lia.
  - destruct (jsstring_eqb x name) eqn:E.
    + apply jsstring_eqb_eq in E. subst x.
      exfalso. apply (Hfirst 0%nat); [lia | reflexivity].
    + rewrite (IH i (k + 1)); [lia | exact Hi |].
      intros j Hj. apply (Hfirst (S j)). lia.
Qed.

Lemma brandCode_field (header line : jsstring) (brand : BrandName)
  (i : nat) (cell : jsstring) :
  brandColumn header brand i -> fieldAt line i = Some cell ->
  brandCode (split 44 header) (split 44 line) brand
  = match trim cell with
    | [] => None
    | code => Some code
    end.
Proof.
  intros [Hlabel Hfirst] Hcell. unfold brandCode, indexOf, fieldAt in *.
  rewrite (indexOf_from_first _ _ i 0 Hlabel Hfirst).
  unfold at_index. destruct (Z.ltb_spec (0 + Z.of_nat i) 0); [lia|].
  replace (Z.to_nat (0 + Z.of_nat i)) with i by lia.
  now rewrite nth_error_lookup, Hcell.
Qed.

(** C10. A data line whose first field, trimmed, is ['#'] followed by six
    code units, not all of them hexadecimal digits, is not skipped: for
    every brand that has a column in the header, if the field of the line
    in that column holds more than white space, the line adds one entry to
    the palette of the brand, with the trimmed field as its code, [rgb]
    [(0, 0, 0)] and the Lab value of black; and that entry is in the parsed
    palette of the brand. *)
Theorem nonhex_row_becomes_black
  (header line : jsstring) (rows : list jsstring) (first body : jsstring)
  (brand : BrandName) (i : nat) (cell : jsstring) :
  split 10 (trim rawPaletteData) = header :: rows ->
  In line rows ->
  fieldAt line 0 = Some first ->
  trim first = 35 :: body ->
  length body = 6%nat ->
  forallb isHexDigit body = false ->
  brandColumn header brand i ->
  fieldAt line i = Some cell ->
  trim cell <> [] ->
  (forall p : Palettes,
     parseLine (split 44 header) p line brand
     = p brand ++ [blackEntry (trim cell)])
  /\ In (blackEntry (trim cell)) (palettes brand).
Proof.
  intros Hlines Hin Hfirst Hhex Hlen Hbad Hcol Hcell Hcode.
  assert (Hfield : hexField line = 35 :: body).
  { unfold hexField. unfold fieldAt in Hfirst.
    destruct (split 44 line) as [|x l]; [discriminate|].
    injection Hfirst as ->. exact Hhex. }
  assert (Hskip : rowSkipped (hexField line) = false).
  { rewrite Hfield. unfold rowSkipped. cbn [startsWith length].
    rewrite Hlen. reflexivity. }
  assert (Hrgb : hexToRgb (hexField line) = (0%float, 0%float, 0%float)).
  { rewrite Hfield. unfold hexToRgb. now rewrite hexMatch_nonhex. }
  assert (Hentries : lineEntries (split 44 header) line brand
                     = [blackEntry (trim cell)]).
  { unfold lineEntries. rewrite Hskip, Hrgb.
    rewrite (brandCode_field header line brand i cell Hcol Hcell).
    destruct (trim cell); [contradiction | reflexivity]. }
  split.
  - intros p. now rewrite parseLine_entries, Hentries.
  - unfold palettes, parsePalettes, parsePalettesOf.
    rewrite Hlines, parseLines_entries. cbn [emptyPalettes app].
    apply in_flat_map. exists line. split; [exact Hin|].
    rewrite Hentries. now left.
Qed.

(** ** The statistics panel *)

(** X20. The panel of [drawPattern] has room for every entry. At least
    one entry goes on a row; with [count] entries, entry [i] is drawn on a
    row before [statsRows] and in a column before [maxStatsPerRow], two
    entries never share a place, and no row but the last is left partly
    empty: [statsRows] is the least number of rows that holds them all. *)
Theorem statistics_panel_holds_every_entry (count cols cellSize i : Z) :
  0 <= i < count ->
  let per := maxStatsPerRow cols cellSize in
  let rows := statsRows count cols cellSize in
  let place := statPosition i cols cellSize in
  1 <= per
  /\ 0 <= place.1 < rows
  /\ 0 <= place.2 < per
  /\ i = place.1 * per + place.2
  /\ (rows - 1) * per < count <= rows * per.
Proof.
  intros Hi per rows place. unfold rows, place, statsRows, statPosition.
  fold per. cbn [fst snd].
  assert (Hper : 1 <= per) by (unfold per, maxStatsPerRow; lia).
  pose proof (Z.div_mod i per ltac:(lia)) as Hdm.
  pose proof (Z.mod_pos_bound i per ltac:(lia)) as Hmod.
  pose proof (Z.div_mod (- count) per ltac:(lia)) as Hdm'.
  pose proof (Z.mod_pos_bound (- count) per ltac:(lia)) as Hmod'.
  repeat split; try lia; try nia.
Qed.

(** ** The colour selection *)

Lemma includes_In (l : list jsstring) (s : jsstring) :
  includes l s = true <-> In s l.
Proof.
  unfold includes. rewrite existsb_exists. split.
  - intros (x & Hx & Heq). apply jsstring_eqb_eq in Heq. now subst.
  - intros H. exists s. split; [exact H|]. now apply jsstring_eqb_eq.
Qed.

Lemma includes_false (l : list jsstring) (s : jsstring) :
  includes l s = false <-> ~ In s l.
Proof.
  rewrite <- includes_In. destruct (includes l s); split; congruence.
Qed.

Lemma filter_other_absent (l : list jsstring) (s : jsstring) :
  ~ In s l -> List.filter (fun c => negb (jsstring_eqb c s)) l = l.
Proof.
  induction l as [|x l IH]; [reflexivity|]. intros Hs. cbn [List.filter].
  destruct (jsstring_eqb x s) eqn:E.
  - apply jsstring_eqb_eq in E. subst x. exfalso. apply Hs. now left.
  - cbn [negb]. f_equal. apply IH. intros H. apply Hs. now right.
Qed.

Lemma toggle_keeps_bound (st : Selection) (code : jsstring) :
  (length (selectedColorCodes st) <= 3)%nat ->
  List.NoDup (selectedColorCodes st) ->
  (length (selectedColorCodes (toggleColorSelection st code)) <= 3)%nat
  /\ List.NoDup (selectedColorCodes (toggleColorSelection st code)).
Proof.
  intros Hlen Hnd. unfold toggleColorSelection. cbn [selectedColorCodes].
  set (prev := selectedColorCodes st) in *.
  destruct (isLocked st).
  - destruct (includes prev code) eqn:Hin.
    + split; [|now apply List.NoDup_filter].
      pose proof (List.filter_length_le
                    (fun c => negb (jsstring_eqb c code)) prev). lia.
    + destruct (Z.leb_spec 3 (Z.of_nat (length prev))); [now split|].
      split; [rewrite length_app; cbn [length]; lia|].
      apply includes_false in Hin. apply List.NoDup_app; auto.
      * constructor; [intros []|constructor].
      * intros a Ha [<- | []]. contradiction.
  - destruct (includes prev code && (Z.of_nat (length prev) =? 1)).
    + split; [cbn; lia | constructor].
    + split; [cbn; lia|]. constructor; [intros []|constructor].
Qed.

(** X21. However the user clicks, locks, unlocks and clears, at most
    three colours are selected and no colour is selected twice. *)
Theorem selection_holds_at_most_three_colours (events : list SelectionEvent) :
  let st := fold_left applyEvent events initialSelection in
  (length (selectedColorCodes st) <= 3)%nat
  /\ List.NoDup (selectedColorCodes st).
Proof.
  cbv zeta.
  assert (H : forall st,
             (length (selectedColorCodes st) <= 3)%nat ->
             List.NoDup (selectedColorCodes st) ->
             (length (selectedColorCodes (fold_left applyEvent events st))
              <= 3)%nat
             /\ List.NoDup
                  (selectedColorCodes (fold_left applyEvent events st))).
  { induction events as [|ev events IH]; intros st Hlen Hnd; [now split|].
    cbn [fold_left]. destruct ev as [code | |]; cbn [applyEvent].
    - destruct (toggle_keeps_bound st code Hlen Hnd). now apply IH.
    - now apply IH.
    - apply IH; [cbn; lia | constructor]. }
  apply H; [cbn; lia | constructor].
Qed.

(** X22. Clicking a colour twice undoes the first click. In multi-select
    mode, a colour that was not selected, clicked while fewer than three
    are, is added at the end and then taken out again, which gives back the
    selection as it was. In single mode the second click clears the
    selection, unless the colour was the only one selected before. Either
    way the clicked colour becomes the one shown in the missing-bead
    guide. *)
Theorem clicking_twice_undoes_a_selection (st : Selection)
  (code : jsstring) :
  let twice := toggleColorSelection (toggleColorSelection st code) code in
  (isLocked st = true ->
   includes (selectedColorCodes st) code = false ->
   (length (selectedColorCodes st) < 3)%nat ->
   selectedColorCodes twice = selectedColorCodes st)
  /\ (isLocked st = false ->
      selectedColorCodes st <> [code] ->
      selectedColorCodes (toggleColorSelection st code) = [code]
      /\ selectedColorCodes twice = [])
  /\ missingColorCode (toggleColorSelection st code) = Some code
  /\ isLocked twice = isLocked st.
Proof.
  cbv zeta. unfold toggleColorSelection.
  cbn [selectedColorCodes isLocked missingColorCode].
  set (prev := selectedColorCodes st). split; [|split; [|split]];
    try reflexivity.
  - intros -> Hin Hlen. rewrite Hin.
    destruct (Z.leb_spec 3 (Z.of_nat (length prev))); [lia|].
    assert (Hin' : includes (prev ++ [code]) code = true).
    { apply includes_In, in_app_iff. right. now left. }
    rewrite Hin'. rewrite List.filter_app. cbn [List.filter].
    assert (Hrefl : jsstring_eqb code code = true)
      by now apply jsstring_eqb_eq.
    rewrite Hrefl. cbn [negb]. rewrite app_nil_r.
    apply filter_other_absent. now apply includes_false.
  - intros -> Hne.
    assert (Hfirst : includes prev code && (Z.of_nat (length prev) =? 1)
                     = false).
    { destruct (includes prev code) eqn:Hin; [|reflexivity]. cbn [andb].
      destruct (Z.eqb_spec (Z.of_nat (length prev)) 1) as [Hone|];
        [|reflexivity].
      exfalso. apply Hne. destruct prev as [|x [|y prev']];
        cbn [length] in Hone; try lia.
      apply includes_In in Hin as [-> | []]. reflexivity. }
    rewrite Hfirst. split; [reflexivity|].
    assert (Hrefl : jsstring_eqb code code = true)
      by now apply jsstring_eqb_eq.
    cbn [includes existsb length]. rewrite Hrefl. reflexivity.
Qed.

(** ** The fingerprint hash *)

Lemma ToInt32_range (z : Z) : -2147483648 <= ToInt32 z < 2147483648.
Proof.
  unfold ToInt32.
  pose proof (Z.mod_pos_bound (z + 2147483648) 4294967296). lia.
Qed.

Lemma ToInt32_mod (z : Z) : ToInt32 z mod 4294967296 = z mod 4294967296.
Proof.
  unfold ToInt32.
  rewrite <- (Z.add_opp_r _ 2147483648), <- Zplus_mod_idemp_l,
    Z.mod_mod by lia.
  rewrite Zplus_mod_idemp_l. f_equal. lia.
Qed.

Lemma ToInt32_congr (a b : Z) :
  a mod 4294967296 = b mod 4294967296 -> ToInt32 a = ToInt32 b.
Proof.
  intros H. unfold ToInt32.
  rewrite <- (Zplus_mod_idemp_l a), <- (Zplus_mod_idemp_l b), H.
  reflexivity.
Qed.

Lemma hashStep_polynomial (hash : Z) (char : char16) :
  hashStep hash char = ToInt32 (31 * hash + char).
Proof.
  unfold hashStep. apply ToInt32_congr.
  rewrite <- Zplus_mod_idemp_l, <- Zminus_mod_idemp_l, ToInt32_mod.
  rewrite <- Zmult_mod_idemp_l, ToInt32_mod, Zmult_mod_idemp_l.
  rewrite Zminus_mod_idemp_l, Zplus_mod_idemp_l. f_equal. lia.
Qed.

Lemma hash_fold_polynomial (s : jsstring) (h a : Z) :
  h = ToInt32 a ->
  fold_left hashStep s h
  = ToInt32 (fold_left (fun acc c => 31 * acc + c) s a).
Proof.
  revert h a. induction s as [|c s IH]; intros h a Hh; [exact Hh|].
  cbn [fold_left]. apply IH. rewrite hashStep_polynomial, Hh.
  apply ToInt32_congr.
  rewrite <- Zplus_mod_idemp_l, <- Zmult_mod_idemp_r, ToInt32_mod.
  now rewrite Zmult_mod_idemp_r, Zplus_mod_idemp_l.
Qed.

(** X23. The hash loop of the fingerprint computes the polynomial hash of
    base 31: the hash of a string is the number its code units denote in
    base 31, wrapped into the signed 32-bit range; appending a unit [c] to
    a string of hash [h] gives the hash [31 * h + c], wrapped. *)
Theorem fingerprint_hash_is_base_31 (rawString : jsstring) :
  hashOf rawString = ToInt32 (base31 rawString)
  /\ -2147483648 <= hashOf rawString < 2147483648
  /\ forall c : char16,
       hashOf (rawString ++ [c]) = ToInt32 (31 * hashOf rawString + c).
Proof.
  assert (H : hashOf rawString = ToInt32 (base31 rawString)).
  { unfold hashOf, base31. now apply hash_fold_polynomial. }
  split; [exact H|]. split; [rewrite H; apply ToInt32_range|].
  intros c. unfold hashOf. rewrite fold_left_app. cbn [fold_left].
  apply hashStep_polynomial.
Qed.

Lemma hexDigit_value (d : Z) :
  0 <= d < 16 ->
  hexDigitValue (hexDigit d) = d /\ isLowerHexDigit (hexDigit d) = true.
Proof.
  intros Hd. unfold hexDigitValue, hexDigit, isLowerHexDigit.
  destruct (Z.ltb_spec d 10).
  - assert (H1 : (48 <=? 48 + d) && (48 + d <=? 57) = true)
      by (apply andb_true_intro; split; apply Z.leb_le; lia).
    rewrite H1. cbv iota. split; [lia | reflexivity].
  - assert (H1 : (48 <=? 87 + d) && (87 + d <=? 57) = false)
      by (apply andb_false_intro2, Z.leb_gt; lia).
    assert (H2 : (97 <=? 87 + d) && (87 + d <=? 102) = true)
      by (apply andb_true_intro; split; apply Z.leb_le; lia).
    rewrite H1, H2. cbv iota. split; [lia | reflexivity].
Qed.

Lemma hexValue_snoc (s : jsstring) (c : char16) :
  hexValue (s ++ [c]) = 16 * hexValue s + hexDigitValue c.
Proof. unfold hexValue. now rewrite fold_left_app. Qed.

Lemma hexDigits_spec (fuel : nat) (n : Z) :
  (1 <= fuel)%nat -> 0 <= n < 16 ^ Z.of_nat fuel ->
  hexValue (hexDigits fuel n) = n
  /\ (1 <= length (hexDigits fuel n) <= fuel)%nat
  /\ forallb isLowerHexDigit (hexDigits fuel n) = true.
Proof.
  revert n. induction fuel as [|fuel IH]; intros n Hfuel Hn; [lia|].
  cbn [hexDigits]. destruct (Z.ltb_spec n 16) as [Hlt | Hge].
  - destruct (hexDigit_value n) as [Hv Hd]; [lia|].
    unfold hexValue. cbn [fold_left length forallb]. rewrite Hv, Hd.
    repeat split; lia.
  - assert (Hq : 0 <= n / 16 < 16 ^ Z.of_nat fuel).
    { rewrite Nat2Z.inj_succ, Z.pow_succ_r in Hn by lia.
      split; [apply Z.div_pos; lia|].
      apply Z.div_lt_upper_bound; lia. }
    assert (Hfuel' : (1 <= fuel)%nat).
    { destruct fuel; [cbn in Hq|]; lia. }
    destruct (IH (n / 16) Hfuel' Hq) as (Hv & Hl & Hd).
    destruct (hexDigit_value (n mod 16)) as [Hv' Hd'];
      [apply Z.mod_pos_bound; lia|].
    rewrite hexValue_snoc, Hv, Hv', length_app, forallb_app, Hd.
    cbn [length forallb]. rewrite Hd'.
    repeat split; try lia; try reflexivity.
    pose proof (Z.div_mod n 16). lia.
Qed.

Lemma hexDigits_length (fuel k : nat) (n : Z) :
  (k <= fuel)%nat -> 0 <= n < 16 ^ Z.of_nat k ->
  (length (hexDigits fuel n) <= Nat.max 1 k)%nat.
Proof.
  revert k n. induction fuel as [|fuel IH]; intros k n Hk Hn.
  - cbn. lia.
  - cbn [hexDigits]. destruct (Z.ltb_spec n 16) as [Hlt | Hge];
      [cbn [length]; lia|].
    destruct k as [|k]; [cbn in Hn; lia|].
    assert (Hq : 0 <= n / 16 < 16 ^ Z.of_nat k).
    { rewrite Nat2Z.inj_succ, Z.pow_succ_r in Hn by lia.
      split; [apply Z.div_pos; lia|].
      apply Z.div_lt_upper_bound; lia. }
    rewrite length_app. cbn [length].
    pose proof (IH k (n / 16) ltac:(lia) Hq).
    destruct k as [|k]; [cbn in Hq; lia|]. lia.
Qed.

(** X24. The fingerprint is a short hexadecimal number: between one and
    eight digits, each a digit or a lower-case letter from [a] to [f],
    which read back as a number give the absolute value of the hash, at
    most [2^31]. *)
Theorem fingerprint_is_a_short_hex_number (rawString : jsstring) :
  let fp := fingerprintOf rawString in
  (1 <= length fp <= 8)%nat
  /\ forallb isLowerHexDigit fp = true
  /\ hexValue fp = Z.abs (hashOf rawString)
  /\ 0 <= hexValue fp <= 2147483648.
Proof.
  cbv zeta. unfold fingerprintOf, toString16.
  pose proof (ToInt32_range (base31 rawString)) as Hr.
  assert (Hh : hashOf rawString = ToInt32 (base31 rawString)).
  { unfold hashOf, base31. now apply hash_fold_polynomial. }
  rewrite <- Hh in Hr.
  set (n := Z.abs (hashOf rawString)).
  assert (Hn : 0 <= n <= 2147483648) by (unfold n; lia).
  destruct (hexDigits_spec 16 n) as (Hv & Hl & Hd);
    [lia | change (16 ^ Z.of_nat 16) with 18446744073709551616; lia|].
  pose proof (hexDigits_length 16 8 n ltac:(lia)
                ltac:(change (16 ^ Z.of_nat 8) with 4294967296; lia)) as H8.
  cbn [Nat.max] in H8. rewrite Hv. repeat split; try lia. exact Hd.
Qed.

(** ** The licence server *)

Lemma jsstring_eqb_refl (a : jsstring) : jsstring_eqb a a = true.
Proof. now apply jsstring_eqb_eq. Qed.

Lemma stored_cons (c : char16) (s : jsstring) :
  stored (c :: s)
  = if isHighSurrogate c
    then
      match s with
      | d :: s' =>
          if isLowSurrogate d then c :: d :: stored s'
          else 65533 :: stored s
      | [] => [65533]
      end
    else if isLowSurrogate c then 65533 :: stored s
    else c :: stored s.
Proof. destruct s; reflexivity. Qed.

Lemma stored_nonempty (s : jsstring) : s <> [] -> stored s <> [].
Proof.
  destruct s as [|c s]; [contradiction|]. intros _. rewrite stored_cons.
  destruct (isHighSurrogate c).
  - destruct s as [|d s]; [discriminate|].
    destruct (isLowSurrogate d); discriminate.
  - destruct (isLowSurrogate c); discriminate.
Qed.

Lemma stored_upto (n : nat) (s : jsstring) :
  (length s <= n)%nat -> stored (stored s) = stored s.
Proof.
  revert s. induction n as [|n IH]; intros s Hn.
  - destruct s; [reflexivity | cbn [length] in Hn; lia].
  - destruct s as [|c s]; [reflexivity|]. cbn [length] in Hn.
    assert (Hrep : forall t : jsstring,
               (length t <= n)%nat ->
               stored (65533 :: stored t) = 65533 :: stored t).
    { intros t Ht. rewrite stored_cons.
      change (isHighSurrogate 65533) with false.
      change (isLowSurrogate 65533) with false. cbv iota.
      now rewrite IH. }
    rewrite (stored_cons c s).
    destruct (isHighSurrogate c) eqn:Hh.
    + destruct s as [|d s]; [reflexivity|].
      destruct (isLowSurrogate d) eqn:Hl.
      * rewrite stored_cons, Hh, Hl.
        rewrite IH; [reflexivity | cbn [length] in Hn; lia].
      * apply Hrep. lia.
    + destruct (isLowSurrogate c) eqn:Hl.
      * apply Hrep. lia.
      * rewrite stored_cons, Hh, Hl. rewrite IH; [reflexivity | lia].
Qed.

Lemma stored_stored (s : jsstring) : stored (stored s) = stored s.
Proof. now apply (stored_upto (length s)). Qed.

Lemma rowOf_In (rows : list (jsstring * option jsstring)) (key : jsstring) :
  rowOf rows key <> None <-> In key (map fst rows).
Proof.
  induction rows as [|[k f] rows IH]; cbn [rowOf map fst In]; [tauto|].
  destruct (jsstring_eqb k key) eqn:E.
  - apply jsstring_eqb_eq in E. split; [now left | discriminate].
  - rewrite IH. split; [now right|]. intros [-> | H]; [|exact H].
    now rewrite jsstring_eqb_refl in E.
Qed.

Lemma updateFingerprint_keys (rows : list (jsstring * option jsstring))
  (f key : jsstring) :
  map fst (updateFingerprint rows f key) = map fst rows.
Proof.
  unfold updateFingerprint. rewrite map_map. apply map_ext.
  intros [k b]. cbn [fst]. now destruct (jsstring_eqb k (stored key)).
Qed.

Lemma rowOf_update (rows : list (jsstring * option jsstring))
  (f key k : jsstring) :
  rowOf (updateFingerprint rows f key) k
  = if jsstring_eqb k (stored key)
    then match rowOf rows k with
         | Some _ => Some (Some (stored f))
         | None => None
         end
    else rowOf rows k.
Proof.
  induction rows as [|[k0 b] rows IH].
  - cbn. now destruct (jsstring_eqb k (stored key)).
  - cbn [updateFingerprint map fst] in IH |- *.
    destruct (jsstring_eqb k0 (stored key)) eqn:E0; cbn [rowOf fst];
      destruct (jsstring_eqb k0 k) eqn:E1.
    + apply jsstring_eqb_eq in E0, E1. subst.
      now rewrite jsstring_eqb_refl.
    + exact IH.
    + apply jsstring_eqb_eq in E1. subst k0. now rewrite E0.
    + exact IH.
Qed.

Lemma updateFingerprint_In (rows : list (jsstring * option jsstring))
  (f key k b : jsstring) :
  In (k, Some b) (updateFingerprint rows f key) ->
  In (k, Some b) rows \/ b = stored f.
Proof.
  unfold updateFingerprint. rewrite in_map_iff.
  intros ([k0 b0] & Heq & Hin). cbn [fst] in Heq.
  destruct (jsstring_eqb k0 (stored key)); injection Heq as <- <-; auto.
Qed.

(** The handler on a body of two non-empty strings. *)
Lemma verify_text (db : Db) (k f ip : jsstring) :
  k <> [] -> f <> [] ->
  verify db (Text k) (Text f) ip
  = Some
      (let logLogin (rows : list (jsstring * option jsstring))
                    (st : LoginStatus) :=
         mkDb rows
              (login_logs db ++ [mkLog (stored k) (stored f) (stored ip) st])
       in
       if includes ADMIN_KEYS k
       then (logLogin (licenses db) admin_success, mkResponse 200 true true)
       else
         match selectLicense (licenses db) k with
         | None =>
             (logLogin (licenses db) invalid_key, mkResponse 404 false false)
         | Some bound =>
             if truthy bound
             then
               if match bound with
                  | Some b => jsstring_eqb b f
                  | None => false
                  end
               then (logLogin (licenses db) success,
                     mkResponse 200 true false)
               else (logLogin (licenses db) fingerprint_mismatch,
                     mkResponse 403 false false)
             else
               (logLogin (updateFingerprint (licenses db) f k) bound_success,
                mkResponse 200 true false)
         end).
Proof.
  intros Hk Hf. unfold verify.
  destruct k as [|ck k]; [contradiction|].
  destruct f as [|cf f]; [contradiction|]. reflexivity.
Qed.

(** What a request does, case by case: it is refused with status 400 and
    changes nothing, or its two fields are non-empty strings. *)
Lemma verify_cases (db : Db) (key fingerprint : Field) (ip : jsstring)
  (out : Db * Response) :
  verify db key fingerprint ip = Some out ->
  out = (db, mkResponse 400 false false)
  \/ exists k f : jsstring,
       key = Text k /\ fingerprint = Text f /\ k <> [] /\ f <> [].
Proof.
  unfold verify.
  destruct (negb (fieldTruthy key) || negb (fieldTruthy fingerprint)) eqn:E.
  - intros [= <-]. now left.
  - apply orb_false_iff in E as [Ek Ef].
    apply negb_false_iff in Ek, Ef.
    destruct key as [k| |], fingerprint as [f| |]; try discriminate.
    intros _. right. exists k, f.
    destruct k, f; try discriminate. repeat split; discriminate.
Qed.

Lemma verify_keys (db : Db) (key fingerprint : Field) (ip : jsstring)
  (out : Db * Response) :
  verify db key fingerprint ip = Some out ->
  map fst (licenses out.1) = map fst (licenses db).
Proof.
  intros Hout.
  destruct (verify_cases _ _ _ _ _ Hout)
    as [-> | (k & f & -> & -> & Hk & Hf)]; [reflexivity|].
  rewrite (verify_text db k f ip Hk Hf) in Hout.
  apply (inj Some) in Hout. subst out.
  cbv zeta. destruct (includes ADMIN_KEYS k); [reflexivity|].
  destruct (selectLicense (licenses db) k) as [bound|]; [|reflexivity].
  destruct (truthy bound).
  - destruct bound as [b|]; [destruct (jsstring_eqb b f)|]; reflexivity.
  - cbn [fst licenses]. apply updateFingerprint_keys.
Qed.

Lemma verify_failure_unchanged (db : Db) (key fingerprint : Field)
  (ip : jsstring) (out : Db * Response) :
  verify db key fingerprint ip = Some out ->
  res_success out.2 = false -> licenses out.1 = licenses db.
Proof.
  intros Hout.
  destruct (verify_cases _ _ _ _ _ Hout)
    as [-> | (k & f & -> & -> & Hk & Hf)]; [reflexivity|].
  rewrite (verify_text db k f ip Hk Hf) in Hout.
  apply (inj Some) in Hout. subst out.
  cbv zeta. destruct (includes ADMIN_KEYS k); [reflexivity|].
  destruct (selectLicense (licenses db) k) as [bound|]; [|reflexivity].
  destruct (truthy bound); [|discriminate].
  destruct bound as [b|]; [destruct (jsstring_eqb b f)|]; reflexivity.
Qed.

Lemma verify_success_known (db : Db) (key fingerprint : Field)
  (ip : jsstring) (out : Db * Response) :
  verify db key fingerprint ip = Some out ->
  res_success out.2 = true ->
  exists k, key = Text k
            /\ (includes ADMIN_KEYS k = true
                \/ In (stored k) (map fst (licenses db))).
Proof.
  intros Hout.
  destruct (verify_cases _ _ _ _ _ Hout)
    as [-> | (k & f & -> & -> & Hk & Hf)]; [discriminate|].
  rewrite (verify_text db k f ip Hk Hf) in Hout.
  apply (inj Some) in Hout. subst out.
  cbv zeta. intros H. exists k. split; [reflexivity|].
  destruct (includes ADMIN_KEYS k); [now left|]. right.
  apply rowOf_In. unfold selectLicense in H.
  destruct (rowOf (licenses db) (stored k)); [discriminate | discriminate].
Qed.

(** A success with a licence key leaves the row of the key bound, to the
    fingerprint of the request if the row was bound before and to what the
    database keeps of it if the request binds the row. *)
Lemma verify_success_bound (db : Db) (k f ip : jsstring)
  (out : Db * Response) :
  includes ADMIN_KEYS k = false ->
  verify db (Text k) (Text f) ip = Some out ->
  res_success out.2 = true ->
  boundTo out.1 k f \/ boundTo out.1 k (stored f).
Proof.
  intros Hadm Hout.
  destruct (verify_cases _ _ _ _ _ Hout)
    as [-> | (k' & f' & [= <-] & [= <-] & Hk & Hf)]; [discriminate|].
  rewrite (verify_text db k f ip Hk Hf) in Hout.
  apply (inj Some) in Hout. subst out.
  cbv zeta. rewrite Hadm. unfold boundTo.
  destruct (selectLicense (licenses db) k) as [bound|] eqn:Hsel;
    [|discriminate].
  destruct (truthy bound) eqn:Htr.
  - destruct bound as [b|]; [|discriminate].
    destruct (jsstring_eqb b f) eqn:Heq; [|discriminate].
    apply jsstring_eqb_eq in Heq. subst b. intros _. cbn [fst licenses].
    left. split; assumption.
  - intros _. cbn [fst licenses]. right.
    unfold selectLicense in *. rewrite rowOf_update, Hsel.
    rewrite jsstring_eqb_refl. split; [reflexivity|].
    now apply stored_nonempty.
Qed.

Lemma verify_keeps_bound (db : Db) (key fingerprint : Field)
  (ip k b : jsstring) (out : Db * Response) :
  verify db key fingerprint ip = Some out ->
  boundTo db k b -> boundTo out.1 k b.
Proof.
  intros Hout [Hsel Hb].
  destruct (verify_cases _ _ _ _ _ Hout)
    as [-> | (k1 & f1 & -> & -> & Hk & Hf)]; [now split|].
  rewrite (verify_text db k1 f1 ip Hk Hf) in Hout.
  apply (inj Some) in Hout. subst out.
  cbv zeta. split; [|exact Hb].
  destruct (includes ADMIN_KEYS k1); [exact Hsel|].
  destruct (selectLicense (licenses db) k1) as [bound|] eqn:Hsel1;
    [|exact Hsel].
  destruct (truthy bound) eqn:Htr.
  - destruct bound as [b1|]; [destruct (jsstring_eqb b1 f1)|]; exact Hsel.
  - cbn [fst licenses]. unfold selectLicense in *.
    rewrite rowOf_update, Hsel.
    destruct (jsstring_eqb (stored k) (stored k1)) eqn:E; [|reflexivity].
    apply jsstring_eqb_eq in E. rewrite E, Hsel1 in Hsel.
    injection Hsel as ->. destruct b; [contradiction | discriminate].
Qed.

Lemma verify_bound_success (db : Db) (k k2 b f2 ip : jsstring)
  (out : Db * Response) :
  boundTo db k b -> stored k = stored k2 ->
  includes ADMIN_KEYS k2 = false ->
  verify db (Text k2) (Text f2) ip = Some out ->
  res_success out.2 = true -> f2 = b.
Proof.
  intros [Hsel Hb] Hkk Hadm Hout.
  destruct (verify_cases _ _ _ _ _ Hout)
    as [-> | (k' & f' & [= <-] & [= <-] & Hk & Hf)]; [discriminate|].
  rewrite (verify_text db k2 f2 ip Hk Hf) in Hout.
  apply (inj Some) in Hout. subst out.
  cbv zeta. rewrite Hadm. unfold selectLicense in *.
  rewrite <- Hkk, Hsel.
  destruct b as [|c b]; [contradiction|]. cbn [truthy].
  destruct (jsstring_eqb (c :: b) f2) eqn:E; [|discriminate].
  apply jsstring_eqb_eq in E. now intros _.
Qed.

Lemma verifyAll_cons (db : Db) (req : Request) (reqs : list Request)
  (db' : Db) (answers : list Response) :
  verifyAll db (req :: reqs) = Some (db', answers) ->
  exists (out : Db * Response) (rest : list Response),
    verify db (req_key req) (req_fingerprint req) (req_ip req) = Some out
    /\ verifyAll out.1 reqs = Some (db', rest)
    /\ answers = out.2 :: rest.
Proof.
  cbn [verifyAll].
  destruct (verify db (req_key req) (req_fingerprint req) (req_ip req))
    as [[db1 a]|]; [|discriminate].
  destruct (verifyAll db1 reqs) as [[db2 rest]|] eqn:Hrest; [|discriminate].
  intros [= <- <-]. now exists (db1, a), rest.
Qed.

Lemma verifyAll_bound (reqs : list Request) (db db' : Db)
  (answers : list Response) (k b : jsstring) :
  boundTo db k b ->
  verifyAll db reqs = Some (db', answers) ->
  forall (j : nat) (r : Request) (a : Response) (k2 f2 : jsstring),
    reqs !! j = Some r -> answers !! j = Some a ->
    req_key r = Text k2 -> req_fingerprint r = Text f2 ->
    stored k = stored k2 -> includes ADMIN_KEYS k2 = false ->
    res_success a = true -> f2 = b.
Proof.
  revert db answers. induction reqs as [|req reqs IH];
    intros db answers Hb Hall j r a k2 f2 Hr Ha Hk Hf Hkk Hadm Hok;
    [discriminate|].
  apply verifyAll_cons in Hall as (out & rest & Hout & Hrest & ->).
  destruct j as [|j]; cbn in Hr, Ha.
  - injection Hr as ->. injection Ha as <-. rewrite Hk, Hf in Hout.
    eapply verify_bound_success; eauto.
  - eapply (IH out.1 rest (verify_keeps_bound _ _ _ _ _ _ _ Hout Hb) Hrest
               j r a k2 f2); eauto.
Qed.

Lemma verifyAll_one_device (reqs : list Request) (db db' : Db)
  (answers : list Response) :
  verifyAll db reqs = Some (db', answers) ->
  forall (i j : nat) (r1 r2 : Request) (a1 a2 : Response)
         (k1 k2 f1 f2 : jsstring),
    (i <= j)%nat ->
    reqs !! i = Some r1 -> reqs !! j = Some r2 ->
    answers !! i = Some a1 -> answers !! j = Some a2 ->
    req_key r1 = Text k1 -> req_key r2 = Text k2 ->
    stored k1 = stored k2 ->
    includes ADMIN_KEYS k1 = false -> includes ADMIN_KEYS k2 = false ->
    req_fingerprint r1 = Text f1 -> req_fingerprint r2 = Text f2 ->
    res_success a1 = true -> res_success a2 = true ->
    f2 = f1 \/ f2 = stored f1.
Proof.
  revert db answers. induction reqs as [|req reqs IH];
    intros db answers Hall i j r1 r2 a1 a2 k1 k2 f1 f2 Hij Hr1 Hr2 Ha1 Ha2
           Hk1 Hk2 Hkk Hadm1 Hadm2 Hf1 Hf2 Hok1 Hok2; [discriminate|].
  apply verifyAll_cons in Hall as (out & rest & Hout & Hrest & ->).
  destruct i as [|i]; cbn in Hr1, Ha1.
  - injection Hr1 as ->. injection Ha1 as <-. rewrite Hk1, Hf1 in Hout.
    destruct j as [|j]; cbn in Hr2, Ha2.
    + injection Hr2 as <-. left. congruence.
    + destruct (verify_success_bound db k1 f1 (req_ip r1) out Hadm1 Hout Hok1)
        as [Hb | Hb]; [left | right];
        eapply (verifyAll_bound reqs out.1 db' rest k1 _ Hb Hrest j r2 a2
                                k2 f2); eauto.
  - destruct j as [|j]; [lia|]. cbn in Hr2, Ha2.
    eapply (IH out.1 rest Hrest i j r1 r2 a1 a2 k1 k2 f1 f2); eauto. lia.
Qed.

(** X25. A licence key serves one device. In any sequence of verification
    requests, two requests that succeed with a licence key (not an admin
    key) and address the same row carry the same fingerprint, as the
    database keeps it: the first success binds the row, and every later
    request is refused unless its fingerprint is the text of the row. So
    two fingerprints without a lone surrogate, which the database keeps
    unit for unit, are equal. *)
Theorem a_licence_key_serves_one_device (db db' : Db) (reqs : list Request)
  (answers : list Response) (i j : nat) (r1 r2 : Request)
  (a1 a2 : Response) (k1 k2 f1 f2 : jsstring) :
  verifyAll db reqs = Some (db', answers) ->
  reqs !! i = Some r1 -> reqs !! j = Some r2 ->
  answers !! i = Some a1 -> answers !! j = Some a2 ->
  req_key r1 = Text k1 -> req_key r2 = Text k2 -> stored k1 = stored k2 ->
  includes ADMIN_KEYS k1 = false -> includes ADMIN_KEYS k2 = false ->
  req_fingerprint r1 = Text f1 -> req_fingerprint r2 = Text f2 ->
  res_success a1 = true -> res_success a2 = true ->
  stored f1 = stored f2
  /\ (wellFormed f1 -> wellFormed f2 -> f1 = f2).
Proof.
  intros Hall Hr1 Hr2 Ha1 Ha2 Hk1 Hk2 Hkk Hadm1 Hadm2 Hf1 Hf2 Hok1 Hok2.
  assert (H : stored f1 = stored f2).
  { destruct (Nat.le_ge_cases i j) as [Hij | Hji].
    - destruct (verifyAll_one_device reqs db db' answers Hall i j r1 r2 a1 a2
                  k1 k2 f1 f2 Hij Hr1 Hr2 Ha1 Ha2 Hk1 Hk2 Hkk Hadm1 Hadm2
                  Hf1 Hf2 Hok1 Hok2) as [-> | ->];
        [reflexivity | now rewrite stored_stored].
    - destruct (verifyAll_one_device reqs db db' answers Hall j i r2 r1 a2 a1
                  k2 k1 f2 f1 Hji Hr2 Hr1 Ha2 Ha1 Hk2 Hk1 (eq_sym Hkk) Hadm2
                  Hadm1 Hf2 Hf1 Hok2 Hok1) as [-> | ->];
        [reflexivity | now rewrite stored_stored]. }
  split; [exact H|]. unfold wellFormed. intros H1 H2. congruence.
Qed.

Lemma addKey_outside (db : Db) (adminKey : option jsstring) (key : Field) :
  isAdmin adminKey = false ->
  addKey db adminKey key = Some (db, mkResponse 403 false false).
Proof. intros H. unfold addKey. now rewrite H. Qed.

(** X26. Only an admin adds or removes licence keys. A verification
    request, and an admin request without an admin key in its header,
    leave the set of keys as it is; a verification that fails changes no
    row at all, and one that succeeds was made with an admin key or with a
    key that the table holds, as the database keeps it. *)
Theorem only_admins_manage_licence_keys (db db' : Db) (ev : ServerEvent) :
  fromOutside ev -> serverStep db ev = Some db' ->
  map fst (licenses db') = map fst (licenses db)
  /\ match ev with
     | Verify req =>
         exists answer : Response,
           verify db (req_key req) (req_fingerprint req) (req_ip req)
           = Some (db', answer)
           /\ (res_success answer = false -> licenses db' = licenses db)
           /\ (res_success answer = true ->
               exists k, req_key req = Text k
                         /\ (includes ADMIN_KEYS k = true
                             \/ In (stored k) (map fst (licenses db))))
     | AddKey adminKey key =>
         addKey db adminKey key = Some (db, mkResponse 403 false false)
     | DeleteKey adminKey key =>
         deleteKey db adminKey key = (db, mkResponse 403 false false)
     end.
Proof.
  destruct ev as [req | adminKey key | adminKey key];
    cbn [fromOutside serverStep].
  - intros _ Hstep.
    destruct (verify db (req_key req) (req_fingerprint req) (req_ip req))
      as [[db1 answer]|] eqn:Hout; [|discriminate].
    injection Hstep as ->.
    split; [exact (verify_keys _ _ _ _ _ Hout)|].
    exists answer. split; [reflexivity|]. split.
    + exact (verify_failure_unchanged _ _ _ _ _ Hout).
    + exact (verify_success_known _ _ _ _ _ Hout).
  - intros H. rewrite (addKey_outside db adminKey key H).
    intros [= <-]. now split.
  - intros H. unfold deleteKey. rewrite H. intros [= <-]. now split.
Qed.

Lemma verify_wellKept (db : Db) (key fingerprint : Field) (ip : jsstring)
  (out : Db * Response) :
  verify db key fingerprint ip = Some out ->
  wellKept db -> wellKept out.1.
Proof.
  intros Hout (Hnd & Hkeys & Hfps). unfold wellKept.
  rewrite (verify_keys _ _ _ _ _ Hout).
  split; [exact Hnd|]. split; [exact Hkeys|].
  destruct (verify_cases _ _ _ _ _ Hout)
    as [-> | (k & f & -> & -> & Hk & Hf)]; [exact Hfps|].
  rewrite (verify_text db k f ip Hk Hf) in Hout.
  apply (inj Some) in Hout. subst out.
  cbv zeta. destruct (includes ADMIN_KEYS k); [exact Hfps|].
  destruct (selectLicense (licenses db) k) as [bound|]; [|exact Hfps].
  destruct (truthy bound).
  - destruct bound as [b|]; [destruct (jsstring_eqb b f)|]; exact Hfps.
  - cbn [fst licenses]. intros k' b Hin.
    apply updateFingerprint_In in Hin as [Hin | ->]; [now apply (Hfps k')|].
    split; [now apply stored_nonempty | apply stored_stored].
Qed.

Lemma filter_keys_NoDup (rows : list (jsstring * option jsstring))
  (P : jsstring * option jsstring -> bool) :
  List.NoDup (map fst rows) -> List.NoDup (map fst (List.filter P rows)).
Proof.
  induction rows as [|row rows IH]; [intros _; constructor|].
  cbn [map List.filter]. intros Hnd.
  apply List.NoDup_cons_iff in Hnd as [Hrow Hnd].
  destruct (P row); [|now apply IH]. cbn [map]. constructor; [|now apply IH].
  intros Hin. apply Hrow. apply in_map_iff in Hin as (r & Hr & Hin).
  apply filter_In in Hin as [Hin _]. apply in_map_iff. now exists r.
Qed.

Lemma serverStep_wellKept (db db' : Db) (ev : ServerEvent) :
  serverStep db ev = Some db' -> wellKept db -> wellKept db'.
Proof.
  destruct ev as [req | adminKey key | adminKey key]; cbn [serverStep].
  - destruct (verify db (req_key req) (req_fingerprint req) (req_ip req))
      as [out|] eqn:Hout; [|discriminate].
    intros [= <-]. now apply (verify_wellKept _ _ _ _ _ Hout).
  - unfold addKey. destruct (negb (isAdmin adminKey)); [now intros [= <-]|].
    destruct (negb (fieldTruthy key)) eqn:Htr; [now intros [= <-]|].
    destruct key as [k| |]; try discriminate.
    destruct (selectLicense (licenses db) k) eqn:Hsel; [now intros [= <-]|].
    intros [= <-] (Hnd & Hkeys & Hfps). unfold wellKept.
    cbn [fst licenses]. rewrite map_app. cbn [map fst]. split; [|split].
    + apply List.NoDup_app; [exact Hnd | |].
      * constructor; [intros []|constructor].
      * intros a Ha [<- | []]. apply rowOf_In in Ha.
        unfold selectLicense in Hsel. congruence.
    + intros k' Hk'. apply in_app_iff in Hk' as [Hk' | [<- | []]];
        [now apply Hkeys|].
      split; [|apply stored_stored]. apply stored_nonempty.
      destruct k; [discriminate Htr | discriminate].
    + intros k' f Hin. apply in_app_iff in Hin as [Hin | [[=] | []]].
      now apply (Hfps k').
  - unfold deleteKey. destruct (negb (isAdmin adminKey));
      [now intros [= <-]|].
    intros [= <-] (Hnd & Hkeys & Hfps). unfold wellKept.
    cbn [fst licenses]. split; [|split].
    + now apply filter_keys_NoDup.
    + intros k' Hk'. apply Hkeys. apply in_map_iff in Hk' as (r & Hr & Hin).
      apply filter_In in Hin as [Hin _]. apply in_map_iff. now exists r.
    + intros k' f Hin. apply filter_In in Hin as [Hin _].
      now apply (Hfps k').
Qed.

Lemma initialDb_wellKept : wellKept initialDb.
Proof.
  split; [|split].
  - cbn. repeat constructor; cbn; intuition discriminate.
  - cbn. intros k [<- | [<- | []]]; split; try discriminate; reflexivity.
  - cbn. intros k f [[=] | [[=] | []]].
Qed.

(** X27. The licence table stays well kept. From the two test keys of a
    new database, whatever requests arrive whose body fields are strings
    or falsy, and in whatever order, the keys of the table are pairwise
    distinct and not empty, no row is bound to an empty fingerprint, and
    keys and fingerprints hold no lone surrogate. *)
Theorem licence_table_stays_well_kept (events : list ServerEvent)
  (db : Db) :
  serverRun initialDb events = Some db ->
  List.NoDup (map fst (licenses db))
  /\ (forall k, In k (map fst (licenses db)) -> k <> [] /\ wellFormed k)
  /\ forall k f, In (k, Some f) (licenses db) -> f <> [] /\ wellFormed f.
Proof.
  change (serverRun initialDb events = Some db -> wellKept db).
  assert (H : forall db0, wellKept db0 ->
                          serverRun db0 events = Some db -> wellKept db).
  { induction events as [|ev events IH]; intros db0 Hdb0; cbn [serverRun].
    - now intros [= <-].
    - destruct (serverStep db0 ev) as [db1|] eqn:Hstep; [|discriminate].
      apply IH. now apply (serverStep_wellKept db0 db1 ev). }
  apply H, initialDb_wellKept.
Qed.

Lemma rowOf_deleted (rows : list (jsstring * option jsstring))
  (key : jsstring) :
  rowOf (List.filter (fun row => negb (jsstring_eqb row.1 key)) rows) key
  = None.
Proof.
  induction rows as [|[k b] rows IH]; [reflexivity|].
  cbn [List.filter fst]. destruct (jsstring_eqb k key) eqn:E; [exact IH|].
  cbn [negb rowOf]. now rewrite E.
Qed.

Lemma rowOf_added (rows : list (jsstring * option jsstring))
  (key : jsstring) :
  rowOf rows key = None -> rowOf (rows ++ [(key, None)]) key = Some None.
Proof.
  induction rows as [|[k b] rows IH]; cbn [app rowOf].
  - intros _. now rewrite jsstring_eqb_refl.
  - destruct (jsstring_eqb k key); [discriminate | exact IH].
Qed.

(** X28. An admin frees a key by deleting it and adding it again. Once
    deleted, the key is refused with status 404, whatever it was bound to;
    once added again it is unbound, and the next device that verifies with
    it succeeds and binds it, to its fingerprint as the database keeps it.
    From then on the key is served to that text alone: the same device
    succeeds again exactly when its fingerprint holds no lone surrogate. *)
Theorem deleting_and_adding_a_key_frees_it (db : Db)
  (adminKey k f ip : jsstring) :
  isAdmin (Some adminKey) = true -> includes ADMIN_KEYS k = false ->
  k <> [] -> f <> [] ->
  let deleted := (deleteKey db (Some adminKey) k).1 in
  exists (added : Db) (bound : Db),
    option_map (fun out => res_status out.2)
               (verify deleted (Text k) (Text f) ip) = Some 404
    /\ addKey deleted (Some adminKey) (Text k)
       = Some (added, mkResponse 200 true false)
    /\ selectLicense (licenses added) k = Some None
    /\ option_map (fun out => (licenses out.1, out.2))
                  (verify added (Text k) (Text f) ip)
       = Some (licenses bound, mkResponse 200 true false)
    /\ boundTo bound k (stored f)
    /\ forall f' ip' : jsstring,
         f' <> [] ->
         option_map (fun out => res_success out.2)
                    (verify bound (Text k) (Text f') ip')
         = Some (jsstring_eqb (stored f) f').
Proof.
  intros Hadmin Hk Hkne Hfne deleted.
  assert (Hdel : selectLicense (licenses deleted) k = None).
  { unfold deleted, deleteKey, selectLicense. rewrite Hadmin.
    cbn [negb fst licenses]. apply rowOf_deleted. }
  set (added := mkDb (licenses deleted ++ [(stored k, None)])
                     (login_logs deleted)).
  assert (Hadd : selectLicense (licenses added) k = Some None).
  { unfold added, selectLicense in *. cbn [licenses].
    now apply rowOf_added. }
  set (bound := mkDb (updateFingerprint (licenses added) f k)
                     (login_logs added
                      ++ [mkLog (stored k) (stored f) (stored ip)
                                bound_success])).
  assert (Hbound : boundTo bound k (stored f)).
  { unfold boundTo, bound, selectLicense in *. cbn [licenses].
    rewrite rowOf_update, Hadd, jsstring_eqb_refl.
    split; [reflexivity | now apply stored_nonempty]. }
  exists added, bound. split; [|split; [|split; [|split; [|split]]]].
  - rewrite (verify_text deleted k f ip Hkne Hfne). cbv zeta.
    now rewrite Hk, Hdel.
  - unfold addKey. rewrite Hadmin. cbn [negb].
    destruct k as [|c k]; [contradiction|]. cbn [fieldTruthy negb].
    now rewrite Hdel.
  - exact Hadd.
  - rewrite (verify_text added k f ip Hkne Hfne). cbv zeta.
    now rewrite Hk, Hadd.
  - exact Hbound.
  - intros f' ip' Hf'. destruct Hbound as [Hsel Hne].
    rewrite (verify_text bound k f' ip' Hkne Hf'). cbv zeta.
    rewrite Hk, Hsel.
    destruct (stored f) as [|c s]; [contradiction|]. cbn [truthy].
    now destruct (jsstring_eqb (c :: s) f').
Qed.

End Core.

(* ================================================================== *)
(** * The properties on the samples *)
(* ================================================================== *)

(** ** JavaScript numbers *)

Example Math_round_sample :
  map Math_round [2.5; -2.5; 0.49999999999999994; -0.3; 254.5; nan]%float
  = [3; -2; 0; -0; 255; nan]%float.
Proof. vm_compute. reflexivity. Qed.

Example clamp255_sample :
  map clamp255 [-20; -0; 17.25; 255; 270; nan]%float
  = [0; 0; 17.25; 255; 255; nan]%float.
Proof. vm_compute. reflexivity. Qed.

(** With [samplePow], white and pure red have their usual Lab values to
    within the accuracy of the stand-in. *)
Example rgbToLab_sample :
  rgbToLab samplePow 0 0 0 = (0, 0, 0)%float
  /\ (let '(l, a, b) := rgbToLab samplePow 255 255 255 in
      (l =? 100) && (Math_abs a <? 0.01) && (Math_abs b <? 0.02))%float = true
  /\ (let '(l, a, b) := rgbToLab samplePow 255 0 0 in
      (Math_abs (l - 53.24) <? 0.01) && (Math_abs (a - 80.09) <? 0.03)
      && (Math_abs (b - 67.2) <? 0.03))%float = true.
Proof. repeat split; vm_compute; reflexivity. Qed.

(** ** The nearest-colour matcher *)

Lemma findClosestColor_nearest_first_sample :
  exists (i : nat) (e : ColorInfo),
    findClosestColor samplePow samplePaletteData 250 10 10 mard = Some e
    /\ palettes samplePow samplePaletteData mard !! i = Some e
    /\ (forall e', In e' (palettes samplePow samplePaletteData mard) ->
          (deltaE samplePow (rgbToLab samplePow 250 10 10) (lab e')
           <? deltaE samplePow (rgbToLab samplePow 250 10 10) (lab e))%float
          = false)
    /\ (forall (j : nat) (e' : ColorInfo),
          (j < i)%nat ->
          palettes samplePow samplePaletteData mard !! j = Some e' ->
          (deltaE samplePow (rgbToLab samplePow 250 10 10) (lab e')
           =? deltaE samplePow (rgbToLab samplePow 250 10 10) (lab e))%float
          = false).
Proof.
  apply (findClosestColor_nearest_first samplePow samplePaletteData).
  vm_compute. discriminate.
Defined.

(** The red of the sample palette is the entry nearest to [(250, 10, 10)]. *)
Example findClosestColor_sample :
  option_map code (findClosestColor samplePow samplePaletteData 250 10 10 mard)
  = Some (text "H3"%string).
Proof. vm_compute. reflexivity. Qed.

(** ** Palette parsing *)

Lemma nonhex_row_becomes_black_sample :
  (forall p : Palettes,
     parseLine samplePow (split 44 sampleHeader) p sampleNonHexLine mard
     = p mard ++ [blackEntry samplePow (text "H4"%string)])
  /\ In (blackEntry samplePow (text "H4"%string))
        (palettes samplePow samplePaletteData mard).
Proof.
  apply (nonhex_row_becomes_black samplePow samplePaletteData sampleHeader
           sampleNonHexLine sampleRows (text "#zzzzzz"%string)
           (text "zzzzzz"%string) mard 1%nat (text "H4"%string)).
  - vm_compute. reflexivity.
  - vm_compute. right. right. right. left. reflexivity.
  - vm_compute. reflexivity.
  - vm_compute. reflexivity.
  - reflexivity.
  - vm_compute. reflexivity.
  - split; [vm_compute; reflexivity|].
    intros [|j] Hj; [vm_compute; discriminate | lia].
  - vm_compute. reflexivity.
  - vm_compute. discriminate.
Defined.

(** The non-hexadecimal line of the sample is in the [mard] palette, as
    black, under its code [H4]. *)
Example nonhex_row_sample :
  map (fun e => (code e, rgb e)) (palettes samplePow samplePaletteData mard)
  = [(text "H1"%string, (255%float, 255%float, 255%float));
     (text "H2"%string, (0%float, 0%float, 0%float));
     (text "H3"%string, (255%float, 0%float, 0%float));
     (text "H4"%string, (0%float, 0%float, 0%float))].
Proof. vm_compute. reflexivity. Qed.

(** ** The size of the grid *)


(** Through the caller a width of 500 and a height of 0 become a grid of
    one row of 120 cells. *)
Example handleGenerate_clamps :
  option_map (map length)
    (handleGenerate samplePow samplePaletteData
       (fun w h => uniformBuffer Byte.x80 Byte.x80 Byte.x80
                                 (Z.to_nat (16 * w * h)))
       500 0 nearest mard 0 false 30)
  = Some [120%nat].
Proof. vm_compute. reflexivity. Qed.

(** On a palette without entries ([kaka] has no column in the sample
    table) [generate] rejects when it has a cell to paint, and returns the
    grid when every cell is background. *)
Example generate_on_an_empty_palette :
  generate samplePow samplePaletteData
           (uniformBuffer Byte.xff Byte.xff Byte.xff 16) 1 1 nearest kaka 0
           false 30
  = None
  /\ generate samplePow samplePaletteData
              (uniformBuffer Byte.xff Byte.xff Byte.xff 16) 1 1 nearest kaka
              0 true 30
     = Some [[CellEmpty (Some true)]]
  /\ generate samplePow samplePaletteData [] 0 1 nearest mard 0 false 30
     = None.
Proof. repeat split; vm_compute; reflexivity. Qed.

(** ** Sampling blocks *)

Lemma blocks_have_sixteen_pixels_sample :
  (blockW 2 == 4)%Q /\ (blockH 2 == 4)%Q
  /\ forall r c, 0 <= r < 2 -> 0 <= c < 2 ->
       length (blockPixels 2 2 r c) = 16%nat
       /\ avg_count (avgBlock samplePow sampleFrame 2 2 0 true 30 r c) = 16
       /\ pool_totalCount (poolBlock samplePow sampleFrame 2 2 0 true 30 r c)
          = 16
       /\ (colorFreq (poolBlock samplePow sampleFrame 2 2 0 true 30 r c) = []
           <-> forall p, In p (blockPixels 2 2 r c) ->
                         transparentAt sampleFrame 2 p = true).
Proof.
  apply (blocks_have_sixteen_pixels samplePow sampleFrame 2 2 0 true 30); lia.
Defined.

(** A block of transparent pixels has its 16 pixels and no colour bucket:
    the cell takes the palette entry nearest to white. *)
Lemma transparent_block_falls_back_to_white :
  1 <= 1
  /\ pool_totalCount (poolBlock samplePow sampleTransparent 1 1 0 false 30 0 0)
     = 16
  /\ colorFreq (poolBlock samplePow sampleTransparent 1 1 0 false 30 0 0) = []
  /\ pickDominant
       (colorFreq (poolBlock samplePow sampleTransparent 1 1 0 false 30 0 0))
     = (255%float, 255%float, 255%float)
  /\ generate samplePow samplePaletteData sampleTransparent 1 1
              dominant_pooling mard 0 false 30
     = Some [[spread (findClosestColor samplePow samplePaletteData
                                       255 255 255 mard)]].
Proof.
  split; [lia|]. repeat split; vm_compute; reflexivity.
Qed.

(** ** The average strategy *)

Lemma average_cell_is_block_mean_sample :
  let bgCount :=
    flaggedCount (4 * 2) (backgroundMask samplePow sampleFrame 2 2 true 30)
                 (blockOf 0 1) in
  exists (colours : list triple) (raw : RawCell),
    map (colourOf sampleFrame (4 * 2)) (blockOf 0 1) = map Some colours
    /\ at_index2 (generateGrid samplePow samplePaletteData sampleFrame 2 2
                               average mard 2 true 30) 0 1
       = Some (let info :=
                 spread (findClosestColor samplePow samplePaletteData
                                          (raw_r raw) (raw_g raw) (raw_b raw)
                                          mard) in
               if isBg raw then markExternal info else info)
    /\ raw_r raw = meanOf (map (fun colour => brightened 2 colour.1.1) colours)
    /\ raw_g raw = meanOf (map (fun colour => brightened 2 colour.1.2) colours)
    /\ raw_b raw = meanOf (map (fun colour => brightened 2 colour.2) colours)
    /\ isBg raw = true && (16 <? 2 * bgCount)
    /\ forall cell,
         at_index2 (generateGrid samplePow samplePaletteData sampleFrame 2 2
                                 average mard 2 true 30) 0 1 = Some cell ->
         cellIsExternal cell = true && (16 <? 2 * bgCount).
Proof.
  apply (average_cell_is_block_mean samplePow samplePaletteData sampleFrame
           2 2 mard 2 true 30 0 1); try lia.
  vm_compute. reflexivity.
Defined.

(** In the sample frame the top-right block has 7 masked border pixels of
    16, so the cell is not background; 11 of its pixels are white and 5
    black. At brightness 2 the offset is 30: white stays at 255 under the
    clamp and black becomes 30, a mean of 184.6875 per channel; at
    brightness -2 white becomes 225 and black stays at 0. *)
Example average_sample :
  rawCell samplePow sampleFrame 2 2 2 true 30 0 1
  = mkRaw 184.6875 184.6875 184.6875 false
  /\ rawCell samplePow sampleFrame 2 2 (-2) true 30 0 1
     = mkRaw 154.6875 154.6875 154.6875 false
  /\ map (brightened 2) [0; 100; 255]%float = [30; 130; 255]%float
  /\ map (brightened (-2)) [0; 100; 255]%float = [0; 70; 225]%float
  /\ flaggedCount (4 * 2) (backgroundMask samplePow sampleFrame 2 2 true 30)
                  (blockOf 0 1) = 7.
Proof. repeat split; vm_compute; reflexivity. Qed.

(** ** The gradient-enhanced pass *)

(** In the sample of greys the top-left cell differs from its two
    neighbours by 300 on average, so it is sharpened. *)
Lemma gradient_enhanced_cell_sample :
  let averageCell := rawCell samplePow sampleContrast 2 2 0 false 30 in
  let center := averageCell 0 0 in
  let ns := map (fun p => averageCell p.1 p.2) (existingNeighbours 2 2 0 0) in
  let out :=
    tableAt (enhancedGrid samplePow sampleContrast 2 2 0 false 30) 0 0 in
  (meanDifference center ns <? 15)%float = false
  /\ raw_r out = unsharp (raw_r center) (map raw_r ns)
  /\ raw_g out = unsharp (raw_g center) (map raw_g ns)
  /\ raw_b out = unsharp (raw_b center) (map raw_b ns).
Proof.
  intros averageCell center ns out.
  assert (Hsharp : (meanDifference center ns <? 15)%float = false)
    by (vm_compute; reflexivity).
  split; [exact Hsharp|].
  destruct (gradient_enhanced_cell samplePow samplePaletteData sampleContrast
              2 2 mard 0 false 30 0 0 ltac:(lia) ltac:(lia) ltac:(lia)
              ltac:(lia)) as (_ & H & _).
  exact (H Hsharp).
Defined.

(** The cells of that sample: the average cells are 100, 200, 200 and
    200. The top-left one, 300 away from its two neighbours, is sharpened
    to 140; its neighbours, 150 away from theirs on average, are sharpened
    to 330 and clamped to 255; the bottom-right one, equal to both its
    neighbours, is kept. *)
Example gradient_sample :
  let cells := [(0, 0); (0, 1); (1, 0); (1, 1)] in
  existingNeighbours 2 2 0 0 = [(1, 0); (0, 1)]
  /\ existingNeighbours 2 2 1 1 = [(0, 1); (1, 0)]
  /\ map (fun p => raw_r (rawCell samplePow sampleContrast 2 2 0 false 30
                                  p.1 p.2)) cells
     = [100; 200; 200; 200]%float
  /\ map (fun p =>
            raw_r (tableAt (enhancedGrid samplePow sampleContrast 2 2 0 false
                                         30) p.1 p.2)) cells
     = [140; 255; 255; 200]%float
  /\ unsharp 100 [200; 200]%float = 140%float
  /\ unsharp 200 [200; 100]%float = 255%float.
Proof. repeat split; vm_compute; reflexivity. Qed.

(** The sharpened branch on concrete numbers: a centre of 200 between two
    neighbours of 100 and 50, two neighbours missing. *)
Example sharpened_sample :
  sharpened 200 [100; 50]%float = 255%float
  /\ sharpened 100 [200; 250]%float = 135%float.
Proof. split; vm_compute; reflexivity. Qed.

Lemma enhancement_keeps_background_flag_sample :
  let raw := rawGrid samplePow sampleFrame 2 2 0 true 30 in
  let enhanced := enhancedGrid samplePow sampleFrame 2 2 0 true 30 in
  let averageCell := rawCell samplePow sampleFrame 2 2 0 true 30 in
  isBg (tableAt enhanced 1 0) = isBg (tableAt raw 1 0)
  /\ (isBg (tableAt enhanced 1 0) = isBg (averageCell 1 0))
  /\ exists cellE cellA : GridCell,
       at_index2 (generateGrid samplePow samplePaletteData sampleFrame 2 2
                               gradient_enhanced mard 0 true 30) 1 0
       = Some cellE
       /\ at_index2 (generateGrid samplePow samplePaletteData sampleFrame 2 2
                                  average mard 0 true 30) 1 0 = Some cellA
       /\ cellIsExternal cellE = cellIsExternal cellA
       /\ cellIsExternal cellA = isBg (averageCell 1 0).
Proof.
  apply (enhancement_keeps_background_flag samplePow samplePaletteData
           sampleFrame 2 2 mard 0 true 30 1 0); lia.
Defined.

(** ** The background flood fill *)

Lemma mask_is_corner_connected_background_sample :
  fillDone (floodFill samplePow sampleFrame 2 2 30) = true
  /\ (forall r c : Z,
        0 <= r < 4 * 2 -> 0 <= c < 4 * 2 ->
        (getFlag (backgroundMask samplePow sampleFrame 2 2 true 30)
                 (r * (4 * 2) + c) = true
         <-> nearWhite samplePow sampleFrame (4 * 2) 30 (r, c) = true
             /\ cornerConnected samplePow sampleFrame (4 * 2) (4 * 2) 30
                                (r, c)))
  /\ forall r c : Z,
       0 <= r < 4 * 2 -> 0 <= c < 4 * 2 ->
       ~ cornerConnected samplePow sampleFrame (4 * 2) (4 * 2) 30 (r, c) ->
       getFlag (backgroundMask samplePow sampleFrame 2 2 true 30)
               (r * (4 * 2) + c) = false.
Proof.
  apply (mask_is_corner_connected_background samplePow sampleFrame 2 2 30);
    [lia | lia | vm_compute; reflexivity].
Defined.

(** In the sample frame the white border is masked, the black ring is not,
    and the white square the ring encloses is as near to white as the
    border and is not masked either. *)
Example enclosed_white_is_not_masked :
  nearWhite samplePow sampleFrame 8 30 (0, 5) = true
  /\ getFlag (backgroundMask samplePow sampleFrame 2 2 true 30) (0 * 8 + 5)
     = true
  /\ nearWhite samplePow sampleFrame 8 30 (1, 5) = false
  /\ getFlag (backgroundMask samplePow sampleFrame 2 2 true 30) (1 * 8 + 5)
     = false
  /\ nearWhite samplePow sampleFrame 8 30 (3, 4) = true
  /\ getFlag (backgroundMask samplePow sampleFrame 2 2 true 30) (3 * 8 + 4)
     = false.
Proof. repeat split; vm_compute; reflexivity. Qed.

(** The distance to white on concrete colours, at the default tolerance
    of 30: a grey of 221 is at 58.9 and passes, a grey of 220 is at 60.6 and
    does not. *)
Example nearWhite_sample :
  nearWhite samplePow (uniformBuffer Byte.xdd Byte.xdd Byte.xdd 1) 1 30 (0, 0)
  = true
  /\ nearWhite samplePow (uniformBuffer Byte.xdc Byte.xdc Byte.xdc 1) 1 30
               (0, 0)
     = false
  /\ nearWhite samplePow (uniformBuffer Byte.xff Byte.xff Byte.xff 1) 1 0
               (0, 0)
     = false.
Proof. repeat split; vm_compute; reflexivity. Qed.

(** The whole mask of the sample frame: the 28 border pixels. *)
Example sample_mask :
  isBackgroundMask (floodFill samplePow sampleFrame 2 2 30)
  = map (fun i => (i / 8 =? 0) || (i / 8 =? 7) || (i mod 8 =? 0)
                  || (i mod 8 =? 7))
        (rangeZ 0 64).
Proof. vm_compute. reflexivity. Qed.

(** ** A uniformly coloured buffer *)

Lemma uniform_image_resolves_to_nearest_sample :
  exists (i : nat) (entry : ColorInfo) (grid : Grid),
    firstNearest samplePow (palettes samplePow samplePaletteData mard)
                 (rgbToLab samplePow (byteValue Byte.xfa)
                           (byteValue Byte.x0a) (byteValue Byte.x0a))
                 i entry
    /\ generate samplePow samplePaletteData
                (uniformBuffer Byte.xfa Byte.x0a Byte.x0a 1600) 10 10
                gradient_enhanced mard 0 false 30
       = Some grid
    /\ length grid = 10%nat
    /\ (forall row, In row grid -> length row = 10%nat)
    /\ forall r c, 0 <= r < 10 -> 0 <= c < 10 ->
         exists cell : GridCell,
           at_index2 grid r c = Some cell
           /\ resolvesTo cell (Some entry)
           /\ (false = false ->
               cell = CellOf entry /\ cellIsExternal cell = false).
Proof.
  apply (uniform_image_resolves_to_nearest samplePow samplePaletteData
           Byte.xfa Byte.x0a Byte.x0a gradient_enhanced mard false 30).
  vm_compute. discriminate.
Defined.

(** A red buffer on the sample palette: every cell of the 10 x 10 grid
    carries the code [H3] of the red entry. *)
Example uniform_sample :
  option_map
    (fun grid =>
       (length (concat grid),
        forallb (fun cell => sameCode (cellCode cell)
                                      (Some (text "H3"%string)))
                (concat grid)))
    (generate samplePow samplePaletteData
              (uniformBuffer Byte.xfa Byte.x0a Byte.x0a 1600) 10 10
              dominant_pooling mard 0 false 30)
  = Some (100%nat, true).
Proof. vm_compute. reflexivity. Qed.

(** ** Degenerate merge requests *)

(** A threshold above zero does merge: the two near-white cells of a 1 x 3
    row become one colour, the black cell between stays. *)
Example merge_sample :
  let white := mkColorInfo (text "H1"%string) (255, 255, 255)%float
                           (100, 0, 0)%float None in
  let cream := mkColorInfo (text "H9"%string) (255, 250, 250)%float
                           (99, 1, 0)%float None in
  let black := mkColorInfo (text "H2"%string) (0, 0, 0)%float
                           (0, 0, 0)%float None in
  mergeRegion samplePow [[CellOf white; CellOf cream; CellOf black]] 0 0 15
  = [[CellOf white; CellOf white; CellOf black]]
  /\ mergeRegion samplePow [[CellOf white; CellOf cream; CellOf black]] 0 0 0
     = [[CellOf white; CellOf cream; CellOf black]]
  /\ autoMerge samplePow [[CellOf white; CellOf cream; CellOf black]] 15
     = [[CellOf white; CellOf white; CellOf black]].
Proof. repeat split; vm_compute; reflexivity. Qed.

(** ** Further properties on the samples *)

(** [deltaE_is_symmetric] on red and white, with the sample [Math.pow]. *)
Lemma deltaE_is_symmetric_sample :
  deltaE samplePow (53.24, 80.09, 67.2)%float (100, 0, 0)%float
  = deltaE samplePow (100, 0, 0)%float (53.24, 80.09, 67.2)%float.
Proof. apply (deltaE_is_symmetric samplePow). exact samplePow_even. Defined.

(** [palette_entries_are_well_formed] on the red entry of the sample
    palette. *)
Lemma palette_entries_are_well_formed_sample :
  let e := mkColorInfo (text "H3"%string) (255, 0, 0)%float
                       (rgbToLab samplePow 255 0 0) None in
  isExternal e = None
  /\ code e <> []
  /\ trim (code e) = code e
  /\ isByteTriple (rgb e)
  /\ lab e = rgbToLab samplePow (rgb e).1.1 (rgb e).1.2 (rgb e).2.
Proof.
  intros e.
  apply (palette_entries_are_well_formed samplePow samplePaletteData mard e).
  vm_compute. right. right. left. reflexivity.
Defined.

(** The sample table has no column for the brand [kaka]. *)
Lemma brand_without_column_has_empty_palette_sample :
  palettes samplePow samplePaletteData kaka = [].
Proof.
  apply (brand_without_column_has_empty_palette samplePow samplePaletteData
           kaka sampleHeader sampleRows).
  - vm_compute. reflexivity.
  - intros h Hh. vm_compute in Hh.
    destruct Hh as [<- | [<- | [<- | []]]]; reflexivity.
Defined.

(** [palette_follows_row_order] on the sample table and the brand [COCO]. *)
Lemma palette_follows_row_order_sample :
  palettes samplePow samplePaletteData COCO
  = flat_map (fun line => lineEntries samplePow (split 44 sampleHeader)
                                      line COCO) sampleRows
  /\ (forall line,
         (length (lineEntries samplePow (split 44%Z sampleHeader) line COCO)
          <= 1)%nat)
  /\ (length (palettes samplePow samplePaletteData COCO)
      <= length sampleRows)%nat.
Proof.
  apply (palette_follows_row_order samplePow samplePaletteData COCO
           sampleHeader sampleRows).
  vm_compute. reflexivity.
Defined.

(** The codes of the [COCO] column of the sample, the third row having
    none and the fifth failing the row test. *)
Example palette_order_sample :
  map code (palettes samplePow samplePaletteData COCO)
  = [text "C1"%string; text "C2"%string; text "C4"%string].
Proof. vm_compute. reflexivity. Qed.

(** A 4 x 4 black buffer has no background corner at tolerance 30. *)
Lemma fill_without_background_corner_masks_nothing_sample :
  backgroundMask samplePow (uniformBuffer Byte.x00 Byte.x00 Byte.x00 16)
                 1 1 true 30
  = replicate (pixelCount 1 1) false
  /\ forall algorithm : Algorithm,
       algorithm <> dominant_pooling ->
       Forall (Forall (fun cell => cellIsExternal cell = false))
              (generateGrid samplePow samplePaletteData
                            (uniformBuffer Byte.x00 Byte.x00 Byte.x00 16)
                            1 1 algorithm mard 0 true 30).
Proof.
  apply (fill_without_background_corner_masks_nothing samplePow
           samplePaletteData (uniformBuffer Byte.x00 Byte.x00 Byte.x00 16)
           1 1 mard 0 true 30).
  intros p Hp. vm_compute in Hp.
  destruct Hp as [<- | [<- | [<- | [<- | []]]]]; vm_compute; reflexivity.
Defined.

(** The sample frame at tolerance 0: its white border is not masked. *)
Lemma nonpositive_tolerance_masks_nothing_sample :
  (forall idx, isBgColor samplePow sampleFrame 0 idx = false)
  /\ backgroundMask samplePow sampleFrame 2 2 true 0
     = replicate (pixelCount 2 2) false
  /\ forall algorithm : Algorithm,
       algorithm <> dominant_pooling ->
       Forall (Forall (fun cell => cellIsExternal cell = false))
              (generateGrid samplePow samplePaletteData sampleFrame 2 2
                            algorithm mard 0 true 0).
Proof.
  apply (nonpositive_tolerance_masks_nothing samplePow samplePaletteData
           sampleFrame 2 2 mard 0 true 0).
  reflexivity.
Defined.

(** [nearest_cell_samples_block_centre] on the cell [(0, 1)] of the sample
    frame, whose centre pixel [(2, 6)] lies on the black ring. *)
Lemma nearest_cell_samples_block_centre_sample :
  let p := (4 * 0 + 2, 4 * 1 + 2) in
  In p (blockPixels 2 2 0 1)
  /\ at_index2 (generateGrid samplePow samplePaletteData sampleFrame 2 2
                             nearest mard 0 true 30) 0 1
     = Some (let info :=
               spread (findClosestColor samplePow samplePaletteData
                                        (redAt sampleFrame 2 0 p)
                                        (greenAt sampleFrame 2 0 p)
                                        (blueAt sampleFrame 2 0 p) mard) in
             if true
                && getFlag (backgroundMask samplePow sampleFrame 2 2 true 30)
                           (pixelIndex 2 p)
             then markExternal info else info).
Proof.
  apply (nearest_cell_samples_block_centre samplePow samplePaletteData
           sampleFrame 2 2 mard 0 true 30 0 1); lia.
Defined.

(** [pickDominant_takes_first_highest_count] on a table of three buckets,
    the last two with the same count. *)
Lemma pickDominant_takes_first_highest_count_sample :
  let m := [((10, 10, 10)%float, mkBucket 12 11 9 3);
            ((20, 20, 20)%float, mkBucket 21 19 20 5);
            ((30, 30, 30)%float, mkBucket 30 31 29 5)] in
  (m = [] /\ pickDominant m = (255%float, 255%float, 255%float))
  \/ exists (k : nat) (e : triple * Bucket),
       m !! k = Some e
       /\ pickDominant m = (bucket_r e.2, bucket_g e.2, bucket_b e.2)
       /\ (forall e', In e' m -> bucket_count e'.2 <= bucket_count e.2)
       /\ forall (k' : nat) (e' : triple * Bucket),
            (k' < k)%nat -> m !! k' = Some e' ->
            bucket_count e'.2 < bucket_count e.2.
Proof.
  intros m. apply (pickDominant_takes_first_highest_count m).
  intros e He. vm_compute in He.
  destruct He as [<- | [<- | [<- | []]]]; cbn; lia.
Defined.

(** The second bucket wins the tie, with its own colour. *)
Example pickDominant_sample :
  pickDominant [((10, 10, 10)%float, mkBucket 12 11 9 3);
                ((20, 20, 20)%float, mkBucket 21 19 20 5);
                ((30, 30, 30)%float, mkBucket 30 31 29 5)]
  = (21, 19, 20)%float.
Proof. reflexivity. Qed.

(** [dominant_cell_is_most_frequent_bucket] on the cell [(0, 1)] of the
    sample frame. *)
Lemma dominant_cell_is_most_frequent_bucket_sample :
  let px := blockPixels 2 2 0 1 in
  let opaque p := transparentAt sampleFrame 2 p = false in
  let size := bucketSize sampleFrame 2 0 px in
  let bgCount := backgroundCount samplePow sampleFrame 2 2 true 30 px in
  exists swatch : triple,
    at_index2 (generateGrid samplePow samplePaletteData sampleFrame 2 2
                            dominant_pooling mard 0 true 30) 0 1
    = Some (let info :=
              spread (findClosestColor samplePow samplePaletteData
                                       swatch.1.1 swatch.1.2 swatch.2 mard) in
            if true && (16 <? 2 * bgCount)
            then markExternal info else info)
    /\ ((forall p, In p px -> transparentAt sampleFrame 2 p = true) ->
        swatch = (255%float, 255%float, 255%float))
    /\ ((exists p, In p px /\ opaque p) ->
        exists (i0 : nat) (p0 : Z * Z),
          px !! i0 = Some p0 /\ opaque p0
          /\ swatch = (redAt sampleFrame 2 0 p0, greenAt sampleFrame 2 0 p0,
                       blueAt sampleFrame 2 0 p0)
          /\ (forall q, In q px -> opaque q -> size q <= size p0)
          /\ (forall (j : nat) (q : Z * Z),
                (j < i0)%nat -> px !! j = Some q -> opaque q ->
                size q < size p0)).
Proof.
  apply (dominant_cell_is_most_frequent_bucket samplePow samplePaletteData
           sampleFrame 2 2 mard 0 true 30 0 1); lia.
Defined.

(** In that block 11 pixels are white and 5 black: the swatch is white,
    and 7 of the 16 pixels are masked. *)
Example dominant_sample :
  pickDominant (colorFreq (poolBlock samplePow sampleFrame 2 2 0 true 30 0 1))
  = (255, 255, 255)%float
  /\ map (fun e => bucket_count e.2)
         (colorFreq (poolBlock samplePow sampleFrame 2 2 0 true 30 0 1))
     = [11; 5]
  /\ backgroundCount samplePow sampleFrame 2 2 true 30 (blockPixels 2 2 0 1)
     = 7.
Proof. vm_compute. repeat split; reflexivity. Qed.

(** [statistics_count_the_beads] on the sample grid of beads. *)
Lemma statistics_count_the_beads_sample :
  exists l : list Stat,
    stats sampleBeads = Some l
    /\ totalOf l = Z.of_nat (length (beadCells (concat sampleBeads)))
    /\ List.NoDup (map statKey l)
    /\ (forall s, In s l ->
          stat_count s = beadsOf (concat sampleBeads) (statKey s)
          /\ 1 <= stat_count s
          /\ In (stat_color s) (concat sampleBeads)
          /\ cellIsExternal (stat_color s) = false)
    /\ forall c, In c (concat sampleBeads) -> cellIsExternal c = false ->
                 exists s, In s l /\ statKey s = cellCode c.
Proof.
  apply (statistics_count_the_beads sampleBeads (concat sampleBeads)).
  reflexivity.
Defined.


(** The statistics of the sample: [H1] and the code of the empty object
    count two cells each and stay in the order in which they were met,
    [H2] counts one; the background cell is not counted. The sample cannot
    be drawn, for its empty objects. *)
Example statistics_sample :
  option_map (map (fun s => (statKey s, stat_count s))) (stats sampleBeads)
  = Some [(Some (text "H1"%string), 2); (None, 2);
          (Some (text "H2"%string), 1)]
  /\ map fst (statsMap (concat sampleBeads))
     = [Some (text "H2"%string); Some (text "H1"%string); None]
  /\ drawPattern sampleBeads = None.
Proof. vm_compute. repeat split; reflexivity. Qed.

(** [drawPattern_on_a_generated_grid] on the sample frame, averaged. *)
Lemma drawPattern_on_a_generated_grid_sample :
  let grid :=
    generateGrid samplePow samplePaletteData sampleFrame 2 2 average mard
                 0 true 30 in
  let background :=
    Z.of_nat (length (List.filter cellIsExternal (concat grid))) in
  (palettes samplePow samplePaletteData mard <> [] ->
   exists l : list Stat,
     drawPattern grid = Some l /\ stats grid = Some l
     /\ totalOf l + background = 2 * 2
     /\ (true = false -> totalOf l = 2 * 2))
  /\ (palettes samplePow samplePaletteData mard = [] -> true = false ->
      drawPattern grid = None).
Proof.
  apply (drawPattern_on_a_generated_grid samplePow samplePaletteData
           sampleFrame 2 2 average mard 0 true 30); lia.
Defined.

(** The four cells of the sample frame, averaged, all come out as [H1],
    none flagged background; at 1 x 1 with the brand [kaka], whose palette
    is empty, the drawing throws. *)
Example drawPattern_sample :
  option_map (map (fun s => (statKey s, stat_count s)))
    (drawPattern (generateGrid samplePow samplePaletteData sampleFrame 2 2
                               average mard 0 true 30))
  = Some [(Some (text "H1"%string), 4)]
  /\ drawPattern (generateGrid samplePow samplePaletteData
                               (uniformBuffer Byte.x80 Byte.x80 Byte.x80 16)
                               1 1 nearest kaka 0 false 30)
     = None.
Proof. vm_compute. repeat split; reflexivity. Qed.

(** Seven entries under a grid of ten columns of 40 pixels: two to a row,
    four rows, the last entry alone on the fourth. *)
Lemma statistics_panel_holds_every_entry_sample :
  let per := maxStatsPerRow 10 40 in
  let rows := statsRows 7 10 40 in
  let place := statPosition 6 10 40 in
  1 <= per
  /\ 0 <= place.1 < rows
  /\ 0 <= place.2 < per
  /\ 6 = place.1 * per + place.2
  /\ (rows - 1) * per < 7 <= rows * per.
Proof. apply (statistics_panel_holds_every_entry 7 10 40 6). lia. Defined.

Example statistics_panel_sample :
  maxStatsPerRow 10 40 = 2 /\ statsRows 7 10 40 = 4
  /\ statPosition 6 10 40 = (3, 0) /\ maxStatsPerRow 2 40 = 1.
Proof. vm_compute. repeat split; reflexivity. Qed.

(** The selection after a run of clicks: three colours locked in, a
    fourth refused, then single mode again. *)
Example selection_sample :
  let a := text "A1"%string in
  let b := text "B2"%string in
  let c := text "C3"%string in
  let d := text "D4"%string in
  map (fun evs =>
         selectedColorCodes (fold_left applyEvent evs initialSelection))
      [[Click a; Click a];
       [Click a; LockButton; Click b; Click c; Click d];
       [Click a; LockButton; Click b; Click c; Click b];
       [Click a; LockButton; Click b; Click c; LockButton; Click d]]
  = [[]; [a; b; c]; [a; c]; [d]].
Proof. vm_compute. reflexivity. Qed.

(** The hash of ["ab"] is [31 * 97 + 98], and a long run of one letter
    wraps. *)
Example fingerprint_sample :
  hashOf (text "ab"%string) = 3105
  /\ fingerprintOf (text "ab"%string) = text "c21"%string
  /\ hashOf (repeat 122 8) = -1910022912
  /\ fingerprintOf (repeat 122 8) = text "71d8a300"%string.
Proof. vm_compute. repeat split; reflexivity. Qed.

(** A test key taken by a device whose fingerprint has a lone surrogate
    (the code unit D800 before an [x]): the key is bound to what the
    database keeps of the fingerprint, the same request is then refused,
    and a request that carries the kept text succeeds. The two requests
    that succeed carry fingerprints that the database keeps as the same
    text. *)
Lemma a_licence_key_serves_one_device_sample :
  stored [55296; 120] = stored [65533; 120]
  /\ (wellFormed [55296; 120] -> wellFormed [65533; 120] ->
      [55296; 120] = [65533; 120]).
Proof.
  apply (a_licence_key_serves_one_device initialDb
           (mkDb [(text "VIP-8888"%string, Some [65533; 120]);
                  (text "TEST-0000"%string, None)]
                 [mkLog (text "VIP-8888"%string) [65533; 120]
                        (text "10.0.0.1"%string) bound_success;
                  mkLog (text "VIP-8888"%string) [65533; 120]
                        (text "10.0.0.1"%string) fingerprint_mismatch;
                  mkLog (text "VIP-8888"%string) [65533; 120]
                        (text "10.0.0.1"%string) success])
           [mkRequest (Text (text "VIP-8888"%string)) (Text [55296; 120])
                      (text "10.0.0.1"%string);
            mkRequest (Text (text "VIP-8888"%string)) (Text [55296; 120])
                      (text "10.0.0.1"%string);
            mkRequest (Text (text "VIP-8888"%string)) (Text [65533; 120])
                      (text "10.0.0.1"%string)]
           [mkResponse 200 true false; mkResponse 403 false false;
            mkResponse 200 true false]
           0 2
           (mkRequest (Text (text "VIP-8888"%string)) (Text [55296; 120])
                      (text "10.0.0.1"%string))
           (mkRequest (Text (text "VIP-8888"%string)) (Text [65533; 120])
                      (text "10.0.0.1"%string))
           (mkResponse 200 true false) (mkResponse 200 true false)
           (text "VIP-8888"%string) (text "VIP-8888"%string));
    reflexivity.
Defined.

(** Two devices with plain fingerprints and one key: the second is
    refused, so the two fingerprints that succeed are the same one. *)
Example one_device_sample :
  option_map (fun out => map res_status out.2)
    (verifyAll initialDb
       [mkRequest (Text (text "VIP-8888"%string)) (Text (text "1a2b"%string))
                  (text "10.0.0.1"%string);
        mkRequest (Text (text "VIP-8888"%string)) (Text (text "ffff"%string))
                  (text "10.0.0.2"%string);
        mkRequest (Text (text "VIP-8888"%string)) (Text (text "1a2b"%string))
                  (text "10.0.0.1"%string)])
  = Some [200; 403; 200]
  /\ wellFormed (text "1a2b"%string) /\ wellFormed (text "ffff"%string).
Proof. repeat split; vm_compute; reflexivity. Qed.

(** The answers of such an exchange, and the rows at its end. *)
Example verify_sample :
  let reqs :=
    [mkRequest (Text (text "VIP-8888"%string)) (Text (text "1a2b"%string))
               (text "10.0.0.1"%string);
     mkRequest (Text (text "VIP-8888"%string)) (Text (text "ffff"%string))
               (text "10.0.0.2"%string);
     mkRequest (Text (text "VIP-8888"%string)) (Text (text "1a2b"%string))
               (text "10.0.0.1"%string);
     mkRequest (Text (text "NONE-0000"%string)) (Text (text "1a2b"%string))
               (text "10.0.0.1"%string);
     mkRequest (Text (text "haibaihe"%string)) (Text (text "ffff"%string))
               (text "10.0.0.2"%string);
     mkRequest (Text (text "VIP-8888"%string)) Falsy
               (text "10.0.0.2"%string);
     mkRequest Truthy (Text []) (text "10.0.0.2"%string)] in
  option_map (fun out => (map res_status out.2, licenses out.1,
                          map log_status (login_logs out.1)))
             (verifyAll initialDb reqs)
  = Some ([200; 403; 200; 404; 200; 400; 400],
          [(text "VIP-8888"%string, Some (text "1a2b"%string));
           (text "TEST-0000"%string, None)],
          [bound_success; fingerprint_mismatch; success; invalid_key;
           admin_success]).
Proof. vm_compute. reflexivity. Qed.

(** A fingerprint with a lone surrogate (the code unit D800 before an
    [x]) binds the key to what the database keeps of it, U+FFFD before the
    [x]: the same request is then refused, and a request that carries the
    kept text succeeds. A key with a lone surrogate addresses the row of
    the text kept of it. *)
Example lone_surrogate_sample :
  stored [55296; 120] = [65533; 120]
  /\ stored [55357; 56832; 56832; 55357] = [55357; 56832; 65533; 65533]
  /\ option_map (fun out => (map res_status out.2, licenses out.1))
       (verifyAll initialDb
          [mkRequest (Text (text "VIP-8888"%string)) (Text [55296; 120])
                     (text "10.0.0.1"%string);
           mkRequest (Text (text "VIP-8888"%string)) (Text [55296; 120])
                     (text "10.0.0.1"%string);
           mkRequest (Text (text "VIP-8888"%string)) (Text [65533; 120])
                     (text "10.0.0.1"%string)])
     = Some ([200; 403; 200],
             [(text "VIP-8888"%string, Some [65533; 120]);
              (text "TEST-0000"%string, None)])
  /\ option_map
       (fun db => (licenses db,
                   option_map (fun out => res_status out.2)
                     (verify db (Text [75; 55296]) (Text (text "1a2b"%string))
                             (text "10.0.0.1"%string)),
                   option_map (fun out => res_status out.2)
                     (addKey db (Some (text "haibaihe"%string))
                             (Text [75; 65533]))))
       (option_map fst
          (addKey initialDb (Some (text "haibaihe"%string))
                  (Text [75; 55296])))
     = Some ([(text "VIP-8888"%string, None);
              (text "TEST-0000"%string, None); ([75; 65533], None)],
             Some 200, Some 400).
Proof. repeat split; vm_compute; reflexivity. Qed.

(** A body field that is truthy and not a string is outside the model,
    unless the request is refused before the field is used. *)
Example outside_the_model_sample :
  verify initialDb (Text (text "VIP-8888"%string)) Truthy
         (text "10.0.0.1"%string) = None
  /\ verify initialDb Truthy Falsy (text "10.0.0.1"%string)
     = Some (initialDb, mkResponse 400 false false)
  /\ addKey initialDb (Some (text "haibaihe"%string)) Truthy = None
  /\ addKey initialDb None Truthy
     = Some (initialDb, mkResponse 403 false false).
Proof. repeat split; vm_compute; reflexivity. Qed.

(** [only_admins_manage_licence_keys] on a verification that binds a test
    key: the row changes, the set of keys does not. *)
Lemma only_admins_manage_licence_keys_sample :
  let req := mkRequest (Text (text "VIP-8888"%string))
                       (Text (text "1a2b"%string))
                       (text "10.0.0.1"%string) in
  let db' :=
    mkDb [(text "VIP-8888"%string, Some (text "1a2b"%string));
          (text "TEST-0000"%string, None)]
         [mkLog (text "VIP-8888"%string) (text "1a2b"%string)
                (text "10.0.0.1"%string) bound_success] in
  map fst (licenses db') = map fst (licenses initialDb)
  /\ exists answer : Response,
       verify initialDb (req_key req) (req_fingerprint req) (req_ip req)
       = Some (db', answer)
       /\ (res_success answer = false -> licenses db' = licenses initialDb)
       /\ (res_success answer = true ->
           exists k, req_key req = Text k
                     /\ (includes ADMIN_KEYS k = true
                         \/ In (stored k) (map fst (licenses initialDb)))).
Proof.
  intros req db'.
  apply (only_admins_manage_licence_keys initialDb db' (Verify req));
    [exact I | reflexivity].
Defined.

(** A request to add a key that carries a licence key, not an admin key,
    in its header is answered 403. *)
Example addKey_outside_sample :
  addKey initialDb (Some (text "VIP-8888"%string))
         (Text (text "NEW-1111"%string))
  = Some (initialDb, mkResponse 403 false false)
  /\ option_map (fun out => (map fst (licenses out.1), out.2))
       (addKey initialDb (Some (text "haibaihe"%string))
               (Text (text "NEW-1111"%string)))
     = Some ([text "VIP-8888"%string; text "TEST-0000"%string;
              text "NEW-1111"%string],
             mkResponse 200 true false).
Proof. split; vm_compute; reflexivity. Qed.

(** [licence_table_stays_well_kept] on a run in which an admin adds a key
    with a lone surrogate and a device binds a test key with such a
    fingerprint. *)
Lemma licence_table_stays_well_kept_sample :
  let db :=
    mkDb [(text "VIP-8888"%string, Some [65533; 120]);
          (text "TEST-0000"%string, None); ([75; 65533], None)]
         [mkLog (text "VIP-8888"%string) [65533; 120]
                (text "10.0.0.1"%string) bound_success] in
  List.NoDup (map fst (licenses db))
  /\ (forall k, In k (map fst (licenses db)) -> k <> [] /\ wellFormed k)
  /\ forall k f, In (k, Some f) (licenses db) -> f <> [] /\ wellFormed f.
Proof.
  intros db.
  apply (licence_table_stays_well_kept
           [AddKey (Some (text "haibaihe"%string)) (Text [75; 55296]);
            AddKey (Some (text "haibaihe"%string)) (Text []);
            Verify (mkRequest (Text (text "VIP-8888"%string))
                              (Text [55296; 120]) (text "10.0.0.1"%string));
            DeleteKey None (text "VIP-8888"%string)]
           db).
  vm_compute. reflexivity.
Defined.

(** A bound test key, deleted and added again by an admin, then taken by
    another device. *)
Lemma deleting_and_adding_a_key_frees_it_sample :
  let deleted :=
    (deleteKey
       (mkDb [(text "VIP-8888"%string, Some (text "1a2b"%string));
              (text "TEST-0000"%string, None)] [])
       (Some (text "haibaihe"%string)) (text "VIP-8888"%string)).1 in
  exists (added : Db) (bound : Db),
    option_map (fun out => res_status out.2)
               (verify deleted (Text (text "VIP-8888"%string))
                       (Text (text "ffff"%string)) (text "10.0.0.2"%string))
    = Some 404
    /\ addKey deleted (Some (text "haibaihe"%string))
              (Text (text "VIP-8888"%string))
       = Some (added, mkResponse 200 true false)
    /\ selectLicense (licenses added) (text "VIP-8888"%string) = Some None
    /\ option_map (fun out => (licenses out.1, out.2))
                  (verify added (Text (text "VIP-8888"%string))
                          (Text (text "ffff"%string))
                          (text "10.0.0.2"%string))
       = Some (licenses bound, mkResponse 200 true false)
    /\ boundTo bound (text "VIP-8888"%string) (stored (text "ffff"%string))
    /\ forall f' ip' : jsstring,
         f' <> [] ->
         option_map (fun out => res_success out.2)
                    (verify bound (Text (text "VIP-8888"%string)) (Text f')
                            ip')
         = Some (jsstring_eqb (stored (text "ffff"%string)) f').
Proof.
  apply (deleting_and_adding_a_key_frees_it
           (mkDb [(text "VIP-8888"%string, Some (text "1a2b"%string));
                  (text "TEST-0000"%string, None)] [])
           (text "haibaihe"%string) (text "VIP-8888"%string)
           (text "ffff"%string) (text "10.0.0.2"%string));
    try reflexivity; discriminate.
Defined.
